(** * IllumiCell: the experiment engine of [IllumiCell_Python_Code.py]

    A shallow embedding of the queue, the command frames, the timer-driven
    playback ([run_experiment], [process_step], [stop_experiment]), the
    telemetry sampler ([update_graph]) and the JSON persistence
    ([save_experiment], [open_experiment]) and the forms of the add-step
    window ([validate_and_add_step]), with the properties the
    specification states about them and further properties of the code:
    its edge cases, the invariants it keeps and the schedule of a run.

    Modelling conventions.
    - The module-level globals of the script are the fields of one [state]
      record; every function of the script is a computation in the monad [M]
      (state passing, Python exceptions as [Raised]).
    - Tk's timer queue is the field [timers], ordered by due time, first
      come first served among equal due times, as [after] keeps it.  Time is
      logical: a callback takes no time and the clock [now] jumps to the due
      time of the timer that fires.
    - A modal dialog ([messagebox]) is an event of the [trace]; the answer
      of a question dialog is an argument of the function that asks.  The
      warnings of the add-step window are the result of its validation.
    - Widget geometry and texts are left out, except the rows of the queue
      listbox (their background colour is the progress marker), the role of
      the run button and the placement of the main button row. *)

From Stdlib Require Import ZArith List String Ascii Bool Arith Lia QArith.
From Stdlib Require Import DecimalString DecimalZ DecimalPos DecimalFacts.
Import ListNotations.

Local Open Scope string_scope.
Local Open Scope Z_scope.
Local Open Scope list_scope.

(** Concatenation of strings; [++] is kept for lists. *)
Infix "+++" := String.append (at level 60, right associativity).

(** ** Values, records and steps *)

(** An element of a queue record: the script stores the step type as a
    [str] and every parameter as an [int]. *)
Inductive value : Type :=
| VInt (n : Z)
| VStr (s : string).

(** A queue entry is the Python list [[step_type, duration, ...]]. *)
Definition record : Type := list value.

Definition value_eqb (a b : value) : bool :=
  match a, b with
  | VInt x, VInt y => Z.eqb x y
  | VStr x, VStr y => String.eqb x y
  | _, _ => false
  end.

(** The line feed, written [\n] in the script. *)
Definition nl : string := String "010"%char EmptyString.

(** [str(n)] for a Python [int]: base 10, a minus sign for a negative
    number, no padding. *)
Definition str_of_int (n : Z) : string :=
  NilZero.string_of_int (Z.to_int n).

(** [f"{v}"]: what an f-string prints for a value. *)
Definition format_value (v : value) : string :=
  match v with
  | VInt n => str_of_int n
  | VStr s => s
  end.

(** The step of the specification's data model (section 3). *)
Inductive Step : Type :=
| Continuous (duration lux : Z)
| Dark (duration : Z)
| Pulsing (duration frequency_hz lux : Z)
| AdvancedPulsing (duration on_time_ms off_time_ms lux : Z).

Definition step_duration (st : Step) : Z :=
  match st with
  | Continuous d _ | Dark d | Pulsing d _ _ | AdvancedPulsing d _ _ _ => d
  end.

(** The invariants of section 3, as the add-step window enforces them
    ([validate_and_add_step] and the 0..100 intensity slider). *)
Definition valid_step (st : Step) : Prop :=
  match st with
  | Continuous d lux => 0 < d /\ 0 <= lux <= 100
  | Dark d => 0 < d
  | Pulsing d f lux => 0 < d /\ 0 < f /\ 0 <= lux <= 100
  | AdvancedPulsing d on off lux =>
      0 < d /\ 0 < on /\ 0 < off /\ 0 <= lux <= 100
  end.

(** ** The state of the program *)

Inductive color : Type := White | Yellow | Green | LightGray.

(** What a Tk timer runs when it fires. *)
Inductive callback : Type :=
| CbHighlight (idx : nat) (c : color)   (* highlight_step, idx, color *)
| CbProcessStep (idx : nat)             (* process_step, idx *)
| CbTimeLabel                           (* update_time_label *)
| CbGraph.                              (* update_graph *)

Record timer : Type := mkTimer {
  t_id : nat;        (* the identifier [after] returned *)
  t_due : Z;         (* milliseconds on the logical clock *)
  t_cb : callback
}.

(** The serial port behind [arduino].  [p_fail] scripts the device: its
    head tells whether the next [write] raises (no entry: the write
    succeeds).  [p_in] holds the lines waiting to be read. *)
Record port : Type := mkPort {
  p_open : bool;
  p_fail : list bool;
  p_in : list string
}.

(** The global [sensor_data_window]: [None], a live window, or a window
    object that was destroyed. *)
Inductive window : Type := NoWindow | WinOpen | WinGone.

Inductive button_role : Type := RunRole | StopRole.

Inductive dialog : Type :=
| DlgNoSteps               (* showwarning 'No steps' *)
| DlgFinished              (* showinfo 'Experiment Finished' *)
| DlgSendFailed            (* showerror 'Failed to send command to Arduino' *)
| DlgNotConnected          (* showerror 'Arduino is not connected' *)
| DlgStop (answer : bool)  (* askyesno 'Stop Experiment' *)
| DlgSaveEmpty             (* showwarning, save on an empty queue *)
| DlgSaved                 (* showinfo 'Experiment saved successfully' *)
| DlgSaveFailed
| DlgLoaded                (* showinfo 'Experiment loaded successfully' *)
| DlgOpenFailed            (* showerror 'Failed to open experiment' *)
| DlgCannotDelete          (* showwarning 'Cannot Delete' *)
| DlgConfirmDeletion (answer : bool)
| DlgNoSelection.

Inductive exn : Type :=
| IndexError | TypeError | AttributeError | TclError
| SerialException | FileNotFoundError | JSONDecodeError.

(** What an observer of the program sees, in order. *)
Inductive event : Type :=
| EvWrite (frame : string)        (* arduino.write returned *)
| EvDialog (d : dialog)           (* a message box was shown *)
| EvMark (idx : nat) (c : color)  (* queue_listbox.itemconfig(idx, bg) *)
| EvElapsed (h m s : Z)           (* time_label.config *)
| EvDraw (n : nat)                (* canvas.draw with n samples *)
| EvTraceback (e : exn).          (* Tk reports an exception of a callback *)

Record state : Type := mkState {
  queue : list record;
  listbox : list color;
  experiment_running : bool;
  start_time : option Z;
  scheduled_tasks : list nat;
  arduino : option port;
  sensor_data_window : window;
  sensor_values : list Q;
  times : list nat;
  time_counter : nat;
  run_button : button_role;
  buttons_placed : bool;
  now : Z;
  next_id : nat;
  timers : list timer;
  files : list (string * string);
  trace : list event
}.

(** Field updates. *)
Definition set_queue (v : list record) (s : state) : state :=
  mkState v (listbox s) (experiment_running s) (start_time s)
    (scheduled_tasks s) (arduino s) (sensor_data_window s) (sensor_values s)
    (times s) (time_counter s) (run_button s) (buttons_placed s) (now s)
    (next_id s) (timers s) (files s) (trace s).

Definition set_listbox (v : list color) (s : state) : state :=
  mkState (queue s) v (experiment_running s) (start_time s)
    (scheduled_tasks s) (arduino s) (sensor_data_window s) (sensor_values s)
    (times s) (time_counter s) (run_button s) (buttons_placed s) (now s)
    (next_id s) (timers s) (files s) (trace s).

Definition set_experiment_running (v : bool) (s : state) : state :=
  mkState (queue s) (listbox s) v (start_time s) (scheduled_tasks s)
    (arduino s) (sensor_data_window s) (sensor_values s) (times s)
    (time_counter s) (run_button s) (buttons_placed s) (now s) (next_id s)
    (timers s) (files s) (trace s).

Definition set_start_time (v : option Z) (s : state) : state :=
  mkState (queue s) (listbox s) (experiment_running s) v (scheduled_tasks s)
    (arduino s) (sensor_data_window s) (sensor_values s) (times s)
    (time_counter s) (run_button s) (buttons_placed s) (now s) (next_id s)
    (timers s) (files s) (trace s).

Definition set_scheduled_tasks (v : list nat) (s : state) : state :=
  mkState (queue s) (listbox s) (experiment_running s) (start_time s) v
    (arduino s) (sensor_data_window s) (sensor_values s) (times s)
    (time_counter s) (run_button s) (buttons_placed s) (now s) (next_id s)
    (timers s) (files s) (trace s).

Definition set_arduino (v : option port) (s : state) : state :=
  mkState (queue s) (listbox s) (experiment_running s) (start_time s)
    (scheduled_tasks s) v (sensor_data_window s) (sensor_values s) (times s)
    (time_counter s) (run_button s) (buttons_placed s) (now s) (next_id s)
    (timers s) (files s) (trace s).

Definition set_sensor_data_window (v : window) (s : state) : state :=
  mkState (queue s) (listbox s) (experiment_running s) (start_time s)
    (scheduled_tasks s) (arduino s) v (sensor_values s) (times s)
    (time_counter s) (run_button s) (buttons_placed s) (now s) (next_id s)
    (timers s) (files s) (trace s).

Definition set_sensor_values (v : list Q) (s : state) : state :=
  mkState (queue s) (listbox s) (experiment_running s) (start_time s)
    (scheduled_tasks s) (arduino s) (sensor_data_window s) v (times s)
    (time_counter s) (run_button s) (buttons_placed s) (now s) (next_id s)
    (timers s) (files s) (trace s).

Definition set_times (v : list nat) (s : state) : state :=
  mkState (queue s) (listbox s) (experiment_running s) (start_time s)
    (scheduled_tasks s) (arduino s) (sensor_data_window s) (sensor_values s)
    v (time_counter s) (run_button s) (buttons_placed s) (now s) (next_id s)
    (timers s) (files s) (trace s).

Definition set_time_counter (v : nat) (s : state) : state :=
  mkState (queue s) (listbox s) (experiment_running s) (start_time s)
    (scheduled_tasks s) (arduino s) (sensor_data_window s) (sensor_values s)
    (times s) v (run_button s) (buttons_placed s) (now s) (next_id s)
    (timers s) (files s) (trace s).

Definition set_run_button (v : button_role) (s : state) : state :=
  mkState (queue s) (listbox s) (experiment_running s) (start_time s)
    (scheduled_tasks s) (arduino s) (sensor_data_window s) (sensor_values s)
    (times s) (time_counter s) v (buttons_placed s) (now s) (next_id s)
    (timers s) (files s) (trace s).

Definition set_buttons_placed (v : bool) (s : state) : state :=
  mkState (queue s) (listbox s) (experiment_running s) (start_time s)
    (scheduled_tasks s) (arduino s) (sensor_data_window s) (sensor_values s)
    (times s) (time_counter s) (run_button s) v (now s) (next_id s)
    (timers s) (files s) (trace s).

Definition set_now (v : Z) (s : state) : state :=
  mkState (queue s) (listbox s) (experiment_running s) (start_time s)
    (scheduled_tasks s) (arduino s) (sensor_data_window s) (sensor_values s)
    (times s) (time_counter s) (run_button s) (buttons_placed s) v
    (next_id s) (timers s) (files s) (trace s).

Definition set_next_id (v : nat) (s : state) : state :=
  mkState (queue s) (listbox s) (experiment_running s) (start_time s)
    (scheduled_tasks s) (arduino s) (sensor_data_window s) (sensor_values s)
    (times s) (time_counter s) (run_button s) (buttons_placed s) (now s) v
    (timers s) (files s) (trace s).

Definition set_timers (v : list timer) (s : state) : state :=
  mkState (queue s) (listbox s) (experiment_running s) (start_time s)
    (scheduled_tasks s) (arduino s) (sensor_data_window s) (sensor_values s)
    (times s) (time_counter s) (run_button s) (buttons_placed s) (now s)
    (next_id s) v (files s) (trace s).

Definition set_files (v : list (string * string)) (s : state) : state :=
  mkState (queue s) (listbox s) (experiment_running s) (start_time s)
    (scheduled_tasks s) (arduino s) (sensor_data_window s) (sensor_values s)
    (times s) (time_counter s) (run_button s) (buttons_placed s) (now s)
    (next_id s) (timers s) v (trace s).

Definition set_trace (v : list event) (s : state) : state :=
  mkState (queue s) (listbox s) (experiment_running s) (start_time s)
    (scheduled_tasks s) (arduino s) (sensor_data_window s) (sensor_values s)
    (times s) (time_counter s) (run_button s) (buttons_placed s) (now s)
    (next_id s) (timers s) (files s) v.

Definition push_event (e : event) (s : state) : state :=
  set_trace (trace s ++ [e]) s.

(** ** The monad of the script's functions

    A function either returns ([Done]), raises a Python exception
    ([Raised]), or exhausts the fuel that bounds the nested event loop of
    [root.update()] ([OutOfFuel]). *)
Inductive outcome (A : Type) : Type :=
| Done (a : A) (s : state)
| Raised (e : exn) (s : state)
| OutOfFuel.

Arguments Done {A} a s.
Arguments Raised {A} e s.
Arguments OutOfFuel {A}.

Definition M (A : Type) : Type := state -> outcome A.

Definition ret {A : Type} (a : A) : M A := fun s => Done a s.

Definition bind {A B : Type} (c : M A) (k : A -> M B) : M B := fun s =>
  match c s with
  | Done a s' => k a s'
  | Raised e s' => Raised e s'
  | OutOfFuel => OutOfFuel
  end.

Definition raise {A : Type} (e : exn) : M A := fun s => Raised e s.

(** [try: c  except Exception: h]. *)
Definition try_except {A : Type} (c : M A) (h : exn -> M A) : M A := fun s =>
  match c s with
  | Raised e s' => h e s'
  | r => r
  end.

Definition gets {A : Type} (f : state -> A) : M A := fun s => Done (f s) s.

Definition modify (f : state -> state) : M unit := fun s => Done tt (f s).

Definition emit (e : event) : M unit := modify (push_event e).

Declare Scope script_scope.
Delimit Scope script_scope with script.
Notation "x <- c ;; k" := (bind c (fun x => k))
  (at level 61, c at next level, right associativity) : script_scope.
Notation "c ;; k" := (bind c (fun _ => k))
  (at level 61, right associativity) : script_scope.
Local Open Scope script_scope.

(** [for x in l: body] *)
Fixpoint for_each {A : Type} (l : list A) (body : A -> M unit) : M unit :=
  match l with
  | [] => ret tt
  | x :: l' => body x ;; for_each l' body
  end.

(** [l[i]] on a Python list. *)
Definition item {A : Type} (l : list A) (i : nat) : M A :=
  match nth_error l i with
  | Some a => ret a
  | None => raise IndexError
  end.

(** ** Tk primitives *)

(** Tk keeps its timers ordered by due time; a new timer goes before the
    first timer that is due strictly later, so timers with the same due
    time fire in the order of their creation. *)
Fixpoint insert_timer (t : timer) (l : list timer) : list timer :=
  match l with
  | [] => [t]
  | u :: l' =>
      if t_due t <? t_due u then t :: l else u :: insert_timer t l'
  end.

(** [root.after(ms, cb)]: a negative delay counts as zero. *)
Definition after (ms : Z) (cb : callback) : M nat := fun s =>
  let id := next_id s in
  let t := mkTimer id (now s + Z.max 0 ms) cb in
  Done id (set_timers (insert_timer t (timers s)) (set_next_id (S id) s)).

(** [root.after_cancel(id)]: an identifier that is not pending is ignored. *)
Definition after_cancel (id : nat) : M unit :=
  modify (fun s =>
    set_timers (filter (fun t => negb (Nat.eqb (t_id t) id)) (timers s)) s).

Fixpoint set_nth {A : Type} (l : list A) (i : nat) (a : A) : list A :=
  match l, i with
  | [], _ => []
  | _ :: l', O => a :: l'
  | x :: l', S i' => x :: set_nth l' i' a
  end.

(** [queue_listbox.itemconfig(idx, {'bg': c})]: Tk refuses an index that
    is not a row of the listbox. *)
Definition itemconfig (idx : nat) (c : color) : M unit :=
  rows <- gets listbox ;;
  if (idx <? List.length rows)%nat then
    modify (fun s => set_listbox (set_nth (listbox s) idx c) s) ;;
    emit (EvMark idx c)
  else raise TclError.

Definition messagebox (d : dialog) : M unit := emit (EvDialog d).

(** ** The device *)

(** [send_to_arduino(command)] *)
Definition send_to_arduino (command : string) : M unit :=
  a <- gets arduino ;;
  match a with
  | None => raise AttributeError                 (* None.isOpen() *)
  | Some p =>
      if p_open p then
        match p_fail p with
        | true :: plan =>
            modify (set_arduino (Some (mkPort (p_open p) plan (p_in p)))) ;;
            messagebox DlgSendFailed
        | false :: plan =>
            modify (set_arduino (Some (mkPort (p_open p) plan (p_in p)))) ;;
            emit (EvWrite command)
        | [] => emit (EvWrite command)
        end
      else messagebox DlgNotConnected
  end.

(** ** The queue and its listbox *)

Fixpoint fill_listbox (idx : nat) (q : list record) : M unit :=
  match q with
  | [] => ret tt
  | step :: q' =>
      _ <- item step 0 ;;
      _ <- item step 1 ;;
      modify (fun s => set_listbox (listbox s ++ [White]) s) ;;
      itemconfig idx White ;;
      fill_listbox (S idx) q'
  end.

(** [update_queue_listbox()]: one row per step, or the grey placeholder
    row of an empty queue.  The text of a row reads [step[0]] and
    [step[1]]. *)
Definition update_queue_listbox : M unit :=
  modify (set_listbox []) ;;
  q <- gets queue ;;
  match q with
  | [] =>
      modify (fun s => set_listbox (listbox s ++ [White]) s) ;;
      itemconfig 0 LightGray
  | _ => fill_listbox 0 q
  end.

(** [add_step_to_queue(step_type, duration, rate, on_time, off_time, lux)],
    [None] for an argument that is left out. *)
Definition add_step_to_queue (step_type : string) (duration : Z)
    (rate on_time off_time lux : option Z) : M unit :=
  let step := [VStr step_type; VInt duration] in
  let step := match rate with Some r => step ++ [VInt r] | None => step end in
  let step :=
    match on_time, off_time with
    | Some a, Some b => step ++ [VInt a; VInt b]
    | _, _ => step
    end in
  let step := match lux with Some l => step ++ [VInt l] | None => step end in
  modify (fun s => set_queue (queue s ++ [step]) s) ;;
  update_queue_listbox.

(** The four callbacks of the add-step window ([add_continuous_light_step],
    [add_no_light_step], [add_pulsing_step], [add_advanced_pulsing_step]),
    by the step they add. *)
Definition add_step (st : Step) : M unit :=
  match st with
  | Continuous d lux =>
      add_step_to_queue "Continuous light" d None None None (Some lux)
  | Dark d =>
      add_step_to_queue "No light" d None None None None
  | Pulsing d f lux =>
      add_step_to_queue "Pulsing light" d (Some f) None None (Some lux)
  | AdvancedPulsing d on off lux =>
      add_step_to_queue "Advanced pulsing light" d None (Some on) (Some off)
        (Some lux)
  end.

(** The record a step is stored as. *)
Definition record_of (st : Step) : record :=
  match st with
  | Continuous d lux => [VStr "Continuous light"; VInt d; VInt lux]
  | Dark d => [VStr "No light"; VInt d]
  | Pulsing d f lux => [VStr "Pulsing light"; VInt d; VInt f; VInt lux]
  | AdvancedPulsing d on off lux =>
      [VStr "Advanced pulsing light"; VInt d; VInt on; VInt off; VInt lux]
  end.

(** ** The add-step window

    [open_add_step_window()] and its closures.  A [tk.IntVar] bound to an
    entry is given by what its [get()] returns: the integer the entry
    holds, or nothing when the text of the entry is not a number and
    [get()] raises [TclError].  The intensity slider is the integer its
    [get()] returns.  The answer of "Add Step to Queue" is the result of
    [validate_and_add_step]: the warning it showed, the window staying
    up, or [Added] when the callback ran and the window was destroyed. *)
Definition IntVar : Type := option Z.

Definition IntVar_get (v : IntVar) : M Z :=
  match v with
  | Some n => ret n
  | None => raise TclError
  end.

(** The variables [open_add_step_window] creates. *)
Record add_step_window : Type := mkAddStepWindow {
  hours_var : IntVar;
  minutes_var : IntVar;
  seconds_var : IntVar;
  on_time_var : IntVar;
  off_time_var : IntVar;
  pulse_rate_var : IntVar
}.

Inductive invalid_input : Type :=
| DurationZero    (* 'Duration cannot be 0.' *)
| PulseRateZero   (* 'Pulse rate cannot be 0.' *)
| TimeOnZero      (* 'Time on (ms) cannot be 0.' *)
| TimeOffZero.    (* 'Time off (ms) cannot be 0.' *)

Inductive form_result : Type :=
| Added
| Invalid (why : invalid_input).

(** [get_total_duration(h_var, m_var, s_var)]; an argument that is left
    out stands for the variable of the window. *)
Definition get_total_duration (w : add_step_window)
    (h_var m_var s_var : option IntVar) : M Z :=
  h <- IntVar_get (match h_var with Some v => v | None => hours_var w end) ;;
  m <- IntVar_get (match m_var with Some v => v | None => minutes_var w end) ;;
  s <- IntVar_get (match s_var with Some v => v | None => seconds_var w end) ;;
  ret (h * 3600 + m * 60 + s).

(** [var is not None and var.get() == 0] *)
Definition given_and_zero (var : option IntVar) : M bool :=
  match var with
  | Some v => n <- IntVar_get v ;; ret (n =? 0)
  | None => ret false
  end.

(** [validate_and_add_step(callback, h_var, m_var, s_var, pulse_rate_var,
    on_time_var, off_time_var)] *)
Definition validate_and_add_step (w : add_step_window) (callback : M unit)
    (h_var m_var s_var rate_var on_var off_var : option IntVar)
  : M form_result :=
  total <- get_total_duration w h_var m_var s_var ;;
  if total =? 0 then ret (Invalid DurationZero)
  else
    zero <- given_and_zero rate_var ;;
    if zero then ret (Invalid PulseRateZero)
    else
      zero <- given_and_zero on_var ;;
      if zero then ret (Invalid TimeOnZero)
      else
        zero <- given_and_zero off_var ;;
        if zero then ret (Invalid TimeOffZero)
        else
          callback ;;
          ret Added.

(** The callbacks of the four forms; [intensity_slider] is what the
    slider of the form returns. *)
Definition add_continuous_light_step (w : add_step_window)
    (intensity_slider : Z) : M unit :=
  let light_intensity := intensity_slider in
  total <- get_total_duration w None None None ;;
  add_step_to_queue "Continuous light" total None None None
    (Some light_intensity).

Definition add_no_light_step (w : add_step_window) : M unit :=
  total <- get_total_duration w None None None ;;
  add_step_to_queue "No light" total None None None None.

Definition add_pulsing_step (w : add_step_window) (intensity_slider : Z)
  : M unit :=
  let light_intensity := intensity_slider in
  total <- get_total_duration w None None None ;;
  rate <- IntVar_get (pulse_rate_var w) ;;
  add_step_to_queue "Pulsing light" total (Some rate) None None
    (Some light_intensity).

(** The form of the advanced settings has variables of its own. *)
Definition add_advanced_pulsing_step (w : add_step_window)
    (advanced_hours_var advanced_minutes_var advanced_seconds_var
     advanced_on_time_var advanced_off_time_var : IntVar)
    (intensity_slider : Z) : M unit :=
  total <- get_total_duration w (Some advanced_hours_var)
             (Some advanced_minutes_var) (Some advanced_seconds_var) ;;
  on_time <- IntVar_get advanced_on_time_var ;;
  off_time <- IntVar_get advanced_off_time_var ;;
  lux <- ret intensity_slider ;;
  add_step_to_queue "Advanced pulsing light" total None (Some on_time)
    (Some off_time) (Some lux).

(** The commands of the four "Add Step to Queue" buttons. *)
Definition press_add_continuous (w : add_step_window) (intensity_slider : Z)
  : M form_result :=
  validate_and_add_step w (add_continuous_light_step w intensity_slider)
    None None None None None None.

Definition press_add_no_light (w : add_step_window) : M form_result :=
  validate_and_add_step w (add_no_light_step w) None None None None None None.

Definition press_add_pulsing (w : add_step_window) (intensity_slider : Z)
  : M form_result :=
  validate_and_add_step w (add_pulsing_step w intensity_slider)
    None None None (Some (pulse_rate_var w)) None None.

Definition press_add_advanced (w : add_step_window)
    (advanced_hours_var advanced_minutes_var advanced_seconds_var
     advanced_on_time_var advanced_off_time_var : IntVar)
    (intensity_slider : Z) : M form_result :=
  validate_and_add_step w
    (add_advanced_pulsing_step w advanced_hours_var advanced_minutes_var
       advanced_seconds_var advanced_on_time_var advanced_off_time_var
       intensity_slider)
    (Some advanced_hours_var) (Some advanced_minutes_var)
    (Some advanced_seconds_var) None (Some advanced_on_time_var)
    (Some advanced_off_time_var).

(** The window as it comes up, with the duration [h]:[m]:[s] typed in and
    the pulse rate [rate]. *)
Definition filled_window (h m s rate : Z) : add_step_window :=
  mkAddStepWindow (Some h) (Some m) (Some s) (Some 0) (Some 0) (Some rate).

(** [highlight_step(idx, color)] *)
Definition highlight_step (idx : nat) (c : color) : M unit :=
  itemconfig idx c.

(** [reset_step_colors()] *)
Definition reset_step_colors : M unit :=
  n <- gets (fun s => List.length (queue s)) ;;
  for_each (seq 0 n) (fun idx => itemconfig idx White).

(** ** The scheduler *)

(** [hide_buttons_except_stop()] and [show_buttons_after_experiment()]:
    the row of the add, open, save and clear buttons. *)
Definition hide_buttons_except_stop : M unit :=
  modify (set_buttons_placed false).

Definition show_buttons_after_experiment : M unit :=
  modify (set_buttons_placed true).

(** [update_time_label()]; the clocks count milliseconds, [int] truncates
    and [divmod] rounds down. *)
Definition update_time_label : M unit :=
  running <- gets experiment_running ;;
  if running then
    st <- gets start_time ;;
    match st with
    | None => raise TypeError
    | Some t0 =>
        t <- gets now ;;
        let elapsed_time := Z.quot (t - t0) 1000 in
        let hours := elapsed_time / 3600 in
        let remainder := elapsed_time mod 3600 in
        emit (EvElapsed hours (remainder / 60) (remainder mod 60)) ;;
        _ <- after 1000 CbTimeLabel ;;
        ret tt
    end
  else ret tt.

(** [step[0] == name] *)
Definition is_type (v : value) (name : string) : bool :=
  value_eqb v (VStr name).

(** The command of a step: the [if]/[elif] chain of [process_step] up to
    the argument of [send_to_arduino]; [None] when no branch applies. *)
Definition step_command (step : record) : M (option string) :=
  ty <- item step 0 ;;
  if is_type ty "Continuous light" then
    duration <- item step 1 ;;
    lux <- item step 2 ;;
    ret (Some ("ON " +++ format_value duration +++ " "
                 +++ format_value lux +++ nl))
  else if is_type ty "No light" then
    duration <- item step 1 ;;
    ret (Some ("OFF " +++ format_value duration +++ nl))
  else if is_type ty "Pulsing light" then
    duration <- item step 1 ;;
    frequency <- item step 2 ;;
    lux <- item step 3 ;;
    ret (Some ("PULSING " +++ format_value duration +++ " "
                 +++ format_value frequency +++ " "
                 +++ format_value lux +++ nl))
  else if is_type ty "Advanced pulsing light" then
    duration <- item step 1 ;;
    on_time <- item step 2 ;;
    off_time <- item step 3 ;;
    lux <- item step 4 ;;
    ret (Some ("ADV_PULSING " +++ format_value duration +++ " "
                 +++ format_value on_time +++ " "
                 +++ format_value off_time +++ " "
                 +++ format_value lux +++ nl))
  else ret None.

(** [root.after(step[1] * 1000, cb)]: Tk wants an integer delay. *)
Definition after_seconds (v : value) (cb : callback) : M nat :=
  match v with
  | VInt n => after (n * 1000) cb
  | VStr _ => raise TclError
  end.

(** [process_step(idx)], the closure of [run_experiment].  [update] is
    what [root.update()] does. *)
Definition process_step (update : M unit) (idx : nat) : M unit :=
  q <- gets queue ;;
  if (List.length q <=? idx)%nat then
    send_to_arduino ("OFF" +++ nl) ;;
    messagebox DlgFinished ;;
    reset_step_colors ;;
    modify (set_run_button RunRole) ;;
    show_buttons_after_experiment ;;
    modify (set_experiment_running false)
  else
    step <- item q idx ;;
    highlight_step idx Yellow ;;
    update ;;
    cmd <- step_command step ;;
    match cmd with
    | Some command => send_to_arduino command
    | None => ret tt
    end ;;
    d <- item step 1 ;;
    task_id <- after_seconds d (CbHighlight idx Green) ;;
    modify (fun s => set_scheduled_tasks (scheduled_tasks s ++ [task_id]) s) ;;
    d <- item step 1 ;;
    task_id <- after_seconds d (CbProcessStep (S idx)) ;;
    modify (fun s => set_scheduled_tasks (scheduled_tasks s ++ [task_id]) s).

(** [sum(step[1] for step in queue)] *)
Fixpoint sum_durations (acc : Z) (q : list record) : M Z :=
  match q with
  | [] => ret acc
  | step :: q' =>
      d <- item step 1 ;;
      match d with
      | VInt n => sum_durations (acc + n) q'
      | VStr _ => raise TypeError
      end
  end.

(** [run_experiment()] *)
Definition run_experiment (update : M unit) : M unit :=
  modify (set_scheduled_tasks []) ;;
  q <- gets queue ;;
  match q with
  | [] => messagebox DlgNoSteps
  | _ :: _ =>
      try_except
        (modify (set_experiment_running true) ;;
         t <- gets now ;;
         modify (set_start_time (Some t)) ;;
         _ <- sum_durations 0 q ;;
         update_time_label ;;
         hide_buttons_except_stop ;;
         modify (set_run_button StopRole) ;;
         process_step update 0)
        (fun _ =>
           send_to_arduino ("OFF" +++ nl) ;;
           modify (set_run_button RunRole) ;;
           show_buttons_after_experiment)
  end.

(** ** The telemetry sampler *)

(** Python's [str.strip()] on ASCII text: blanks, tabs, line ends and the
    separators 28..31. *)
Definition is_space (c : ascii) : bool :=
  let n := nat_of_ascii c in
  ((9 <=? n) && (n <=? 13) || (28 <=? n) && (n <=? 32))%nat.

Fixpoint lstrip (s : string) : string :=
  match s with
  | EmptyString => EmptyString
  | String c s' => if is_space c then lstrip s' else s
  end.

Fixpoint rstrip (s : string) : string :=
  match s with
  | EmptyString => EmptyString
  | String c s' =>
      match rstrip s' with
      | EmptyString => if is_space c then EmptyString else String c EmptyString
      | r => String c r
      end
  end.

Definition strip (s : string) : string := rstrip (lstrip s).

(** [s.replace(".", "", 1)] *)
Fixpoint drop_first_dot (s : string) : string :=
  match s with
  | EmptyString => EmptyString
  | String c s' => if Ascii.eqb c "."%char then s' else String c (drop_first_dot s')
  end.

Definition is_digit (c : ascii) : bool :=
  let n := nat_of_ascii c in ((48 <=? n) && (n <=? 57))%nat.

Fixpoint all_digits (s : string) : bool :=
  match s with
  | EmptyString => true
  | String c s' => is_digit c && all_digits s'
  end.

(** [s.isdigit()]: at least one character, and digits only. *)
Definition isdigit (s : string) : bool :=
  match s with
  | EmptyString => false
  | _ => all_digits s
  end.

(** The digits of a text read as one number, a dot skipped. *)
Fixpoint digits_value (acc : Z) (s : string) : Z :=
  match s with
  | EmptyString => acc
  | String c s' =>
      if is_digit c
      then digits_value (10 * acc + Z.of_nat (nat_of_ascii c - 48)) s'
      else digits_value acc s'
  end.

(** How many characters follow the first dot. *)
Fixpoint decimals (s : string) : nat :=
  match s with
  | EmptyString => O
  | String c s' => if Ascii.eqb c "."%char then String.length s' else decimals s'
  end.

(** [float(s)] for a text that passed the sampler's test, as the exact
    decimal number the text denotes (the rounding to a double is left
    out). *)
Definition float_of (s : string) : Q :=
  Qred (Qmake (digits_value 0 s) (Z.to_pos (10 ^ Z.of_nat (decimals s)))).

Definition is_graph_timer (t : timer) : bool :=
  match t_cb t with CbGraph => true | _ => false end.

(** [sensor_data_window.destroy()]: the window goes, and with it the
    callbacks it registered with [after]. *)
Definition destroy_sensor_window : M unit :=
  w <- gets sensor_data_window ;;
  match w with
  | NoWindow => raise AttributeError
  | _ =>
      modify (set_sensor_data_window WinGone) ;;
      modify (fun s =>
        set_timers (filter (fun t => negb (is_graph_timer t)) (timers s)) s)
  end.

(** [close_sensor_data_window()] *)
Definition close_sensor_data_window : M unit :=
  destroy_sensor_window ;;
  modify (set_sensor_data_window NoWindow).

(** The body of the [try] of [update_graph]: one line is read and, when it
    passes the test, appended to the series. *)
Definition read_sample (p : port) (raw : string) (rest : list string) : M unit :=
  modify (set_arduino (Some (mkPort (p_open p) (p_fail p) rest))) ;;
  let sensor_value := strip raw in
  if isdigit (drop_first_dot sensor_value) then
    modify (fun s => set_sensor_values (sensor_values s ++ [float_of sensor_value]) s) ;;
    modify (fun s => set_times (times s ++ [time_counter s]) s) ;;
    modify (fun s => set_time_counter (S (time_counter s)) s) ;;
    n <- gets (fun s => List.length (sensor_values s)) ;;
    emit (EvDraw n)
  else ret tt.

(** [update_graph()], the closure of [open_sensor_data_window]. *)
Definition update_graph : M unit :=
  running <- gets experiment_running ;;
  a <- gets arduino ;;
  match running, a with
  | true, Some p =>
      (if p_open p then ret tt else raise SerialException) ;;  (* in_waiting *)
      match p_in p with
      | [] => ret tt
      | raw :: rest => try_except (read_sample p raw rest) (fun _ => ret tt)
      end ;;
      w <- gets sensor_data_window ;;
      match w with
      | NoWindow => raise AttributeError
      | WinOpen => _ <- after 500 CbGraph ;; ret tt
      | WinGone => raise TclError
      end
  | _, _ => destroy_sensor_window
  end.

(** [open_sensor_data_window()] *)
Definition open_sensor_data_window : M unit :=
  w <- gets sensor_data_window ;;
  match w with
  | WinOpen => ret tt
  | _ =>
      modify (set_sensor_data_window WinOpen) ;;
      modify (set_sensor_values []) ;;
      modify (set_times []) ;;
      modify (set_time_counter O) ;;
      update_graph
  end.

(** [stop_experiment()]; [stop_confirm] is the answer to the question
    dialog. *)
Definition stop_experiment (stop_confirm : bool) : M unit :=
  running <- gets experiment_running ;;
  if negb running then ret tt
  else
    messagebox (DlgStop stop_confirm) ;;
    if stop_confirm then
      ids <- gets scheduled_tasks ;;
      for_each ids after_cancel ;;
      send_to_arduino ("OFF" +++ nl) ;;
      reset_step_colors ;;
      modify (set_experiment_running false) ;;
      modify (set_run_button RunRole) ;;
      show_buttons_after_experiment ;;
      w <- gets sensor_data_window ;;
      match w with
      | NoWindow => ret tt
      | _ => close_sensor_data_window
      end
    else ret tt.

(** ** Editing the queue *)

(** [reset_experiment()] *)
Definition reset_experiment : M unit :=
  modify (set_queue []) ;;
  update_queue_listbox.

(** [l.pop(i)] *)
Fixpoint remove_nth {A : Type} (l : list A) (i : nat) : list A :=
  match l, i with
  | [], _ => []
  | _ :: l', O => l'
  | x :: l', S i' => x :: remove_nth l' i'
  end.

(** [delete_step()]; [selected_index] is [queue_listbox.curselection()]
    (at most one row is selected) and [confirm] the answer to the question
    dialog. *)
Definition delete_step (selected_index : option nat) (confirm : bool) : M unit :=
  match selected_index with
  | Some idx =>
      q <- gets queue ;;
      match idx, q with
      | O, [] => messagebox DlgCannotDelete
      | _, _ =>
          messagebox (DlgConfirmDeletion confirm) ;;
          if confirm then
            q <- gets queue ;;
            (if (idx <? List.length q)%nat then ret tt else raise IndexError) ;;
            modify (set_queue (remove_nth q idx)) ;;
            update_queue_listbox
          else ret tt
      end
  | None => messagebox DlgNoSelection
  end.

(** ** The event loop *)

Definition dispatch (update : M unit) (cb : callback) : M unit :=
  match cb with
  | CbHighlight idx c => highlight_step idx c
  | CbProcessStep idx => process_step update idx
  | CbTimeLabel => update_time_label
  | CbGraph => update_graph
  end.

(** Tk runs a callback, reports the exception it raises and goes on. *)
Definition guarded (c : M unit) : M unit :=
  try_except c (fun e => emit (EvTraceback e)).

(** [root.update()]: the timers that are due fire, first due first; the
    clock does not move. *)
Fixpoint root_update (fuel : nat) : M unit := fun s =>
  match fuel with
  | O => OutOfFuel
  | S fuel' =>
      match timers s with
      | t :: rest =>
          if t_due t <=? now s then
            (guarded (dispatch (root_update fuel') (t_cb t)) ;;
             root_update fuel') (set_timers rest s)
          else Done tt s
      | [] => Done tt s
      end
  end.

(** One turn of [root.mainloop()] with no input from the user: the clock
    reaches the due time of the first timer and the timer fires.  With no
    timer the loop waits. *)
Definition mainloop_step (fuel : nat) : M unit := fun s =>
  match timers s with
  | [] => Done tt s
  | t :: rest =>
      guarded (dispatch (root_update fuel) (t_cb t))
        (set_now (Z.max (now s) (t_due t)) (set_timers rest s))
  end.

Fixpoint mainloop (turns fuel : nat) : M unit :=
  match turns with
  | O => ret tt
  | S n => mainloop_step fuel ;; mainloop n fuel
  end.

(** A button of the window runs its command as a guarded callback. *)
Definition click_run (fuel : nat) : M unit :=
  guarded (run_experiment (root_update fuel)).

(** The state when the window comes up: the globals as the script
    initialises them, [arduino] as [initialize_arduino()] left it, the
    placeholder row in the listbox. *)
Definition initial (device : option port) : state :=
  mkState [] [LightGray] false None [] device NoWindow [] [] O RunRole true
    0 O [] [] [].

(** A port that is open, accepts every write and has nothing to read. *)
Definition healthy_port : port := mkPort true [] [].

(** ** Persistence: the JSON text of a queue

    [json.dump(queue, file, indent=4)] and [json.load(file)], for the
    documents of the persisted format: an array of arrays of strings and
    integers.  The reader accepts these documents in any layout; a text
    that is not JSON, or a JSON document of another shape (an object, a
    fraction, [null]), is reported as undecodable. *)

Definition quote : ascii := "034"%char.
Definition backslash : ascii := "092"%char.

Definition snoc (s : string) (c : ascii) : string := s +++ String c EmptyString.

(** A hexadecimal digit, lower case. *)
Definition hex_digit (n : nat) : ascii :=
  ascii_of_nat (if (n <? 10)%nat then 48 + n else 87 + n).

(** How [json] writes one character of a string ([ensure_ascii]). *)
Definition escape_char (c : ascii) : string :=
  let n := nat_of_ascii c in
  if Ascii.eqb c quote then String backslash (String quote EmptyString)
  else if Ascii.eqb c backslash then String backslash (String backslash EmptyString)
  else if (n =? 8)%nat then String backslash "b"
  else if (n =? 12)%nat then String backslash "f"
  else if (n =? 10)%nat then String backslash "n"
  else if (n =? 13)%nat then String backslash "r"
  else if (n =? 9)%nat then String backslash "t"
  else if ((32 <=? n) && (n <=? 126))%nat then String c EmptyString
  else String backslash
         ("u00" +++ String (hex_digit (n / 16))
                      (String (hex_digit (n mod 16)) EmptyString)).

Fixpoint escape (s : string) : string :=
  match s with
  | EmptyString => EmptyString
  | String c s' => escape_char c +++ escape s'
  end.

Definition dump_value (v : value) : string :=
  match v with
  | VInt n => str_of_int n
  | VStr s => String quote (escape s +++ String quote EmptyString)
  end.

Fixpoint spaces (n : nat) : string :=
  match n with
  | O => EmptyString
  | S n' => String " "%char (spaces n')
  end.

Fixpoint join (sep : string) (items : list string) : string :=
  match items with
  | [] => EmptyString
  | [x] => x
  | x :: rest => x +++ sep +++ join sep rest
  end.

(** An array at nesting depth [level], indented by 4. *)
Definition dump_list (level : nat) (items : list string) : string :=
  match items with
  | [] => "[]"
  | _ =>
      let inner := nl +++ spaces (4 * S level) in
      "[" +++ inner +++ join ("," +++ inner) items
          +++ nl +++ spaces (4 * level) +++ "]"
  end.

Definition json_dump (q : list record) : string :=
  dump_list 0 (map (fun r => dump_list 1 (map dump_value r)) q).

Inductive token : Type :=
| TOpen | TClose | TComma
| TInt (n : Z)
| TStr (s : string).

Inductive lex_state : Type :=
| LexIdle
| LexNumber (text : string)
| LexString (text : string)
| LexEscape (text : string)
| LexUnicode (text : string) (hex : list nat).

Definition is_json_space (c : ascii) : bool :=
  let n := nat_of_ascii c in
  ((n =? 32) || (n =? 9) || (n =? 10) || (n =? 13))%nat.

(** The integer a JSON literal denotes: an optional minus sign, then [0]
    or digits that do not start with [0]. *)
Definition int_literal (text : string) : option Z :=
  let body :=
    match text with
    | String c rest => if Ascii.eqb c "-"%char then rest else text
    | EmptyString => text
    end in
  let well_formed :=
    match body with
    | EmptyString => false
    | String c EmptyString => is_digit c
    | String c rest => is_digit c && negb (Ascii.eqb c "0"%char) && all_digits rest
    end in
  if well_formed
  then option_map Z.of_int (NilZero.int_of_string text)
  else None.

Definition hex_value (c : ascii) : option nat :=
  let n := nat_of_ascii c in
  if ((48 <=? n) && (n <=? 57))%nat then Some (n - 48)%nat
  else if ((97 <=? n) && (n <=? 102))%nat then Some (n - 87)%nat
  else if ((65 <=? n) && (n <=? 70))%nat then Some (n - 55)%nat
  else None.

(** The character after a backslash. *)
Definition unescape (c : ascii) : option ascii :=
  if Ascii.eqb c quote then Some quote
  else if Ascii.eqb c backslash then Some backslash
  else if Ascii.eqb c "/"%char then Some "/"%char
  else if Ascii.eqb c "b"%char then Some (ascii_of_nat 8)
  else if Ascii.eqb c "f"%char then Some (ascii_of_nat 12)
  else if Ascii.eqb c "n"%char then Some (ascii_of_nat 10)
  else if Ascii.eqb c "r"%char then Some (ascii_of_nat 13)
  else if Ascii.eqb c "t"%char then Some (ascii_of_nat 9)
  else None.

Definition idle_step (c : ascii) : option (list token * lex_state) :=
  if is_json_space c then Some ([], LexIdle)
  else if Ascii.eqb c "["%char then Some ([TOpen], LexIdle)
  else if Ascii.eqb c "]"%char then Some ([TClose], LexIdle)
  else if Ascii.eqb c ","%char then Some ([TComma], LexIdle)
  else if Ascii.eqb c quote then Some ([], LexString EmptyString)
  else if Ascii.eqb c "-"%char || is_digit c
       then Some ([], LexNumber (String c EmptyString))
  else None.

Definition lex_step (st : lex_state) (c : ascii)
  : option (list token * lex_state) :=
  match st with
  | LexIdle => idle_step c
  | LexNumber text =>
      if is_digit c then Some ([], LexNumber (snoc text c))
      else
        match int_literal text, idle_step c with
        | Some n, Some (toks, st') => Some (TInt n :: toks, st')
        | _, _ => None
        end
  | LexString text =>
      if Ascii.eqb c quote then Some ([TStr text], LexIdle)
      else if Ascii.eqb c backslash then Some ([], LexEscape text)
      else if (nat_of_ascii c <? 32)%nat then None
      else Some ([], LexString (snoc text c))
  | LexEscape text =>
      match unescape c with
      | Some d => Some ([], LexString (snoc text d))
      | None =>
          if Ascii.eqb c "u"%char then Some ([], LexUnicode text []) else None
      end
  | LexUnicode text hex =>
      match hex_value c, hex with
      | Some h0, [h3; h2; h1] =>
          let code := (((h3 * 16 + h2) * 16 + h1) * 16 + h0)%nat in
          if (code <? 256)%nat
          then Some ([], LexString (snoc text (ascii_of_nat code)))
          else None
      | Some h, _ => Some ([], LexUnicode text (hex ++ [h]))
      | None, _ => None
      end
  end.

Fixpoint lex_run (st : lex_state) (s : string)
  : option (list token * lex_state) :=
  match s with
  | EmptyString => Some ([], st)
  | String c s' =>
      match lex_step st c with
      | Some (toks, st') =>
          match lex_run st' s' with
          | Some (more, st'') => Some (toks ++ more, st'')
          | None => None
          end
      | None => None
      end
  end.

Definition lex (s : string) : option (list token) :=
  match lex_run LexIdle s with
  | Some (toks, LexIdle) => Some toks
  | Some (toks, LexNumber text) =>
      option_map (fun n => toks ++ [TInt n]) (int_literal text)
  | _ => None
  end.

Inductive parse_state : Type :=
| PStart      (* before the document *)
| PTopFirst   (* after the opening bracket of the document *)
| PTopNext    (* after a record *)
| PTopComma   (* after the comma that follows a record *)
| PRecFirst   (* after the opening bracket of a record *)
| PRecNext    (* after a field *)
| PRecComma   (* after the comma that follows a field *)
| PEnd.       (* after the document *)

(** The records of a token sequence; [done] are the finished records and
    [cur] the fields of the record being read. *)
Fixpoint parse (st : parse_state) (done : list record) (cur : record)
    (toks : list token) : option (list record) :=
  match toks with
  | [] => match st with PEnd => Some done | _ => None end
  | t :: toks' =>
      match st, t with
      | PStart, TOpen => parse PTopFirst done cur toks'
      | PTopFirst, TClose => parse PEnd done cur toks'
      | PTopFirst, TOpen => parse PRecFirst done [] toks'
      | PTopNext, TComma => parse PTopComma done cur toks'
      | PTopNext, TClose => parse PEnd done cur toks'
      | PTopComma, TOpen => parse PRecFirst done [] toks'
      | PRecFirst, TClose => parse PTopNext (done ++ [cur]) [] toks'
      | PRecFirst, TInt n => parse PRecNext done (cur ++ [VInt n]) toks'
      | PRecFirst, TStr s => parse PRecNext done (cur ++ [VStr s]) toks'
      | PRecNext, TComma => parse PRecComma done cur toks'
      | PRecNext, TClose => parse PTopNext (done ++ [cur]) [] toks'
      | PRecComma, TInt n => parse PRecNext done (cur ++ [VInt n]) toks'
      | PRecComma, TStr s => parse PRecNext done (cur ++ [VStr s]) toks'
      | _, _ => None
      end
  end.

Definition json_load (text : string) : M (list record) :=
  match lex text with
  | Some toks =>
      match parse PStart [] [] toks with
      | Some q => ret q
      | None => raise JSONDecodeError
      end
  | None => raise JSONDecodeError
  end.

(** The files of the user, by path: the first entry of a path counts. *)
Fixpoint lookup_file (path : string) (fs : list (string * string))
  : option string :=
  match fs with
  | [] => None
  | (p, text) :: fs' => if String.eqb p path then Some text else lookup_file path fs'
  end.

(** [open(path, 'w')] and [file.write]. *)
Definition write_file (path text : string) : M unit :=
  modify (fun s => set_files ((path, text) :: files s) s).

(** [open(path, 'r')] and [file.read]. *)
Definition read_file (path : string) : M string :=
  fs <- gets files ;;
  match lookup_file path fs with
  | Some text => ret text
  | None => raise FileNotFoundError
  end.

(** [save_experiment()]; [file_path] is what the file dialog returned, the
    empty string when the user cancelled. *)
Definition save_experiment (file_path : string) : M unit :=
  q <- gets queue ;;
  match q with
  | [] => messagebox DlgSaveEmpty
  | _ :: _ =>
      if String.eqb file_path EmptyString then ret tt
      else
        try_except
          (write_file file_path (json_dump q) ;;
           messagebox DlgSaved)
          (fun _ => messagebox DlgSaveFailed)
  end.

(** [open_experiment()] *)
Definition open_experiment (file_path : string) : M unit :=
  if String.eqb file_path EmptyString then ret tt
  else
    try_except
      (text <- read_file file_path ;;
       loaded_queue <- json_load text ;;
       modify (fun s => set_queue (queue s ++ loaded_queue) s) ;;
       update_queue_listbox ;;
       messagebox DlgLoaded)
      (fun _ => messagebox DlgOpenFailed).

(** ** The vocabulary of the properties *)

(** The frame that ends a run, a stop or a fault. *)
Definition sentinel : string := "OFF" +++ nl.

(** The frame of a step, after the table of the device protocol. *)
Definition frame_of (st : Step) : string :=
  match st with
  | Continuous d lux => "ON " +++ str_of_int d +++ " " +++ str_of_int lux +++ nl
  | Dark d => "OFF " +++ str_of_int d +++ nl
  | Pulsing d f lux =>
      "PULSING " +++ str_of_int d +++ " " +++ str_of_int f +++ " "
        +++ str_of_int lux +++ nl
  | AdvancedPulsing d on off lux =>
      "ADV_PULSING " +++ str_of_int d +++ " " +++ str_of_int on +++ " "
        +++ str_of_int off +++ " " +++ str_of_int lux +++ nl
  end.

(** The frames that reached the device. *)
Fixpoint writes (tr : list event) : list string :=
  match tr with
  | [] => []
  | EvWrite f :: tr' => f :: writes tr'
  | _ :: tr' => writes tr'
  end.

(** Frames, dialogs and markers: what the claims are about.  The elapsed
    time, the chart and the tracebacks are the rest. *)
Definition observable (e : event) : bool :=
  match e with
  | EvWrite _ | EvDialog _ | EvMark _ _ => true
  | _ => false
  end.

Definition visible (tr : list event) : list event := filter observable tr.

(** Frames and dialogs, in order. *)
Definition io (tr : list event) : list event :=
  filter (fun e => match e with EvWrite _ | EvDialog _ => true | _ => false end) tr.

(** The progress markers: yellow is "in progress", green "completed". *)
Definition progress (tr : list event) : list event :=
  filter (fun e =>
            match e with
            | EvMark _ Yellow | EvMark _ Green => true
            | _ => false
            end) tr.

(** The timers of the playback, as opposed to the ticks of the elapsed
    time and of the sampler. *)
Definition chain_cb (cb : callback) : bool :=
  match cb with
  | CbHighlight _ _ | CbProcessStep _ => true
  | _ => false
  end.

Definition is_chain (t : timer) : bool := chain_cb (t_cb t).

Definition chain (l : list timer) : list timer := filter is_chain l.

Definition ticks (l : list timer) : list timer :=
  filter (fun t => negb (is_chain t)) l.

Fixpoint sorted_by_due (l : list timer) : bool :=
  match l with
  | [] => true
  | t :: l' => forallb (fun u => t_due t <=? t_due u) l' && sorted_by_due l'
  end.

(** The numbers a step carries, in the order of its frame. *)
Definition step_fields (st : Step) : list Z :=
  match st with
  | Continuous d lux => [d; lux]
  | Dark d => [d]
  | Pulsing d f lux => [d; f; lux]
  | AdvancedPulsing d on off lux => [d; on; off; lux]
  end.

(** The queue of the scenario of section 8: two seconds of continuous
    light at 50 lux, then one second of darkness, on a healthy device. *)
Definition scenario : M unit :=
  add_step (Continuous 2 50) ;;
  add_step (Dark 1) ;;
  click_run 4 ;;
  mainloop 8 4.

(** The final state of an outcome: the fuel never ran out and the state
    satisfies [P], whether the function returned or raised. *)
Definition ensures {A : Type} (r : outcome A) (P : state -> Prop) : Prop :=
  match r with
  | Done _ s' | Raised _ s' => P s'
  | OutOfFuel => False
  end.






(** [n] ticks of the sampler: the timer callback [update_graph], run by
    Tk [n] times. *)
Fixpoint poll (n : nat) : M unit :=
  match n with
  | O => ret tt
  | S n' => guarded update_graph ;; poll n'
  end.

(** What the scheduler can tell of a port: whether it is open, and the
    script of its writes. *)
Definition port_out (p : port) : bool * list bool := (p_open p, p_fail p).

(** What one call of [send_to_arduino] shows, by the state of the port. *)
Definition outcome_of_write (opened : bool) (plan : list bool)
    (command : string) : event :=
  if opened then
    match plan with
    | true :: _ => EvDialog DlgSendFailed
    | _ => EvWrite command
    end
  else EvDialog DlgNotConnected.

Definition plan_after (opened : bool) (plan : list bool) : list bool :=
  if opened then tl plan else plan.

(** What a sequence of calls of [send_to_arduino] shows. *)
Fixpoint transmit_log (opened : bool) (plan : list bool)
    (commands : list string) : list event :=
  match commands with
  | [] => []
  | c :: cs =>
      outcome_of_write opened plan c
        :: transmit_log opened (plan_after opened plan) cs
  end.

(** The state after a tick of the elapsed time or of the sampler, seen
    from the playback: nothing of the playback has changed. *)
Record calm (s s' : state) : Prop := mkCalm {
  calm_queue : queue s' = queue s;
  calm_listbox : listbox s' = listbox s;
  calm_running : experiment_running s' = experiment_running s;
  calm_start : start_time s' = start_time s;
  calm_tasks : scheduled_tasks s' = scheduled_tasks s;
  calm_port : option_map port_out (arduino s') = option_map port_out (arduino s);
  calm_button : run_button s' = run_button s;
  calm_placed : buttons_placed s' = buttons_placed s;
  calm_chain : chain (timers s') = chain (timers s);
  calm_visible : visible (trace s') = visible (trace s)
}.

(** What a tick does to the timers: nothing, or one more tick that is not
    due yet, or the ticks of the sampler are gone with its window. *)
Inductive tick_effect (nw : Z) (l : list timer) : list timer -> Prop :=
| tick_same : tick_effect nw l l
| tick_again (t : timer) :
    is_chain t = false -> nw < t_due t -> tick_effect nw l (insert_timer t l)
| tick_gone :
    tick_effect nw l (filter (fun t => negb (is_graph_timer t)) l).

(** The timers that are due at [nw]. *)
Definition due_count (nw : Z) (l : list timer) : nat :=
  List.length (filter (fun t => t_due t <=? nw) l).

(** The due time of the next timer of the playback. *)
Definition horizon (l : list timer) : Z :=
  match chain l with
  | c :: _ => t_due c
  | [] => 0
  end.

(** A bound on the ticks that fire before the next timer of the playback:
    every tick ahead of it counts for the time it has left, plus one. *)
Fixpoint lag (T : Z) (l : list timer) : nat :=
  match l with
  | [] => O
  | t :: l' =>
      if is_chain t then O
      else S (Z.to_nat (T - t_due t) + lag T l')
  end.

(** The markers of the first [n] steps, all completed. *)
Definition alternation (n : nat) : list event :=
  flat_map (fun i => [EvMark i Yellow; EvMark i Green]) (seq 0 n).

(** Where a playback stands: step [i] is in progress, or step [i] is
    completed and the advance to the next step is pending, or the run is
    over. *)
Inductive phase : Type :=
| Marked (i : nat)
| Advancing (i : nat)
| Over.

(** Every occurrence of [y] in [l] comes after an occurrence of [x]. *)
Definition precedes {A : Type} (x y : A) (l : list A) : Prop :=
  forall l1 l2, l = l1 ++ y :: l2 -> In x l1.

(** A playback and what was there when it started: the steps of the queue,
    the port ([pb_opened], [pb_plan]), the markers ([pb_marks]) and the
    frames and dialogs ([pb_io]) seen before the run, and a bound on the
    ticks in the timer queue. *)
Record playback : Type := mkPlayback {
  pb_steps : list Step;
  pb_opened : bool;
  pb_plan : list bool;
  pb_marks : list event;
  pb_io : list event;
  pb_ticks : nat
}.

(** The script of the port after [k] calls of [send_to_arduino]. *)
Definition plan_at (pb : playback) (k : nat) : list bool :=
  Nat.iter k (plan_after (pb_opened pb)) (pb_plan pb).

(** The commands handed to [send_to_arduino] so far. *)
Definition commands_of (pb : playback) (ph : phase) : list string :=
  match ph with
  | Marked i | Advancing i => map frame_of (firstn (S i) (pb_steps pb))
  | Over => map frame_of (pb_steps pb) ++ [sentinel]
  end.

(** The frames and dialogs of the run so far. *)
Definition io_of (pb : playback) (ph : phase) : list event :=
  transmit_log (pb_opened pb) (pb_plan pb) (commands_of pb ph)
    ++ match ph with Over => [EvDialog DlgFinished] | _ => [] end.

(** The progress markers of the run so far. *)
Definition marks_of (pb : playback) (ph : phase) : list event :=
  match ph with
  | Marked i => alternation i ++ [EvMark i Yellow]
  | Advancing i => alternation (S i)
  | Over => alternation (List.length (pb_steps pb))
  end.

(** The timers of the playback that are pending. *)
Definition chain_of (ph : phase) (l : list timer) : Prop :=
  match ph with
  | Marked i =>
      exists a b due,
        l = [mkTimer a due (CbHighlight i Green);
             mkTimer b due (CbProcessStep (S i))]
  | Advancing i => exists b due, l = [mkTimer b due (CbProcessStep (S i))]
  | Over => l = []
  end.

Definition is_over (ph : phase) : bool :=
  match ph with Over => true | _ => false end.

(** The state of the program at a phase of a playback. *)
Record at_phase (pb : playback) (ph : phase) (s : state) : Prop := mkAtPhase {
  ap_index :
    match ph with
    | Marked i | Advancing i => (i < List.length (pb_steps pb))%nat
    | Over => True
    end;
  ap_queue : queue s = map record_of (pb_steps pb);
  ap_rows : List.length (listbox s) = List.length (pb_steps pb);
  ap_port :
    exists p, arduino s = Some p /\ p_open p = pb_opened pb /\
              p_fail p = plan_at pb (List.length (commands_of pb ph));
  ap_running : experiment_running s = negb (is_over ph);
  ap_button : run_button s = if is_over ph then RunRole else StopRole;
  ap_placed : buttons_placed s = is_over ph;
  ap_sorted : sorted_by_due (timers s) = true;
  ap_tracked :
    forall t, In t (chain (timers s)) -> In (t_id t) (scheduled_tasks s);
  ap_ticks : (List.length (ticks (timers s)) <= pb_ticks pb)%nat;
  ap_chain : chain_of ph (chain (timers s));
  ap_marks : progress (trace s) = pb_marks pb ++ marks_of pb ph;
  ap_io : io (trace s) = pb_io pb ++ io_of pb ph
}.

(** How far a phase is from the end of the run, in timers of the
    playback. *)
Definition rank (pb : playback) (ph : phase) : nat :=
  match ph with
  | Marked i => 2 * (List.length (pb_steps pb) - i)
  | Advancing i => 2 * (List.length (pb_steps pb) - i) - 1
  | Over => 0
  end.

(** A state from which [run_experiment] can play the queue [sts]: the
    listbox shows the queue, the device is there, no timer of an earlier
    playback is pending. *)
Record ready (sts : list Step) (s : state) : Prop := mkReady {
  rd_steps : sts <> [];
  rd_queue : queue s = map record_of sts;
  rd_rows : List.length (listbox s) = List.length sts;
  rd_port : arduino s <> None;
  rd_chain : chain (timers s) = [];
  rd_sorted : sorted_by_due (timers s) = true
}.

(** The playback that starts in [s]. *)
Definition playback_of (sts : list Step) (s : state) : playback :=
  match arduino s with
  | Some p =>
      mkPlayback sts (p_open p) (p_fail p) (progress (trace s)) (io (trace s))
        (S (List.length (timers s)))
  | None =>
      mkPlayback sts false [] (progress (trace s)) (io (trace s))
        (S (List.length (timers s)))
  end.

(** The bound [lag] on the ticks ahead of the next timer of the playback. *)
Definition wait (l : list timer) : nat := lag (horizon l) l.

(** A port that is open and whose writes all succeed. *)
Definition healthy (p : port) : Prop :=
  p_open p = true /\ Forall (fun fails => fails = false) (p_fail p).

(** The timers left when the identifiers [ids] are cancelled one by one. *)
Fixpoint cancelled (ids : list nat) (l : list timer) : list timer :=
  match ids with
  | [] => l
  | id :: ids' =>
      cancelled ids' (filter (fun t => negb (Nat.eqb (t_id t) id)) l)
  end.

(** The scenario queue, and the state once its two steps were added on a
    healthy device. *)
Definition demo_queue : list Step := [Continuous 2 50; Dark 1].

Definition demo_state : state :=
  Eval vm_compute in
    match (add_step (Continuous 2 50) ;; add_step (Dark 1))
            (initial (Some healthy_port)) with
    | Done _ s => s
    | _ => initial None
    end.

(** The same queue on a device whose first write fails. *)
Definition faulty_port : port := mkPort true [true] [].

Definition faulty_state : state := set_arduino (Some faulty_port) demo_state.


(** The telemetry of the example of section 8, and the scenario queue
    being played on a device that has these three lines to read. *)
Definition demo_lines : list string := ["12.5" +++ nl; "oops" +++ nl; "13.0" +++ nl].

Definition telemetry_state : state :=
  Eval vm_compute in
    match run_experiment (root_update 4)
            (set_arduino (Some (mkPort true [] demo_lines)) demo_state) with
    | Done _ s => s
    | _ => initial None
    end.

(** The tokens of the JSON text of a value, of a record and of a queue. *)
Definition token_of (v : value) : token :=
  match v with
  | VInt n => TInt n
  | VStr s => TStr s
  end.

Definition more_fields (vs : list value) : list token :=
  flat_map (fun v => [TComma; token_of v]) vs.

Definition record_tokens (r : record) : list token :=
  match r with
  | [] => [TOpen; TClose]
  | v :: vs => TOpen :: token_of v :: more_fields vs ++ [TClose]
  end.

Definition more_records (rs : list record) : list token :=
  flat_map (fun r => TComma :: record_tokens r) rs.

Definition queue_tokens (q : list record) : list token :=
  match q with
  | [] => [TOpen; TClose]
  | r :: rs => TOpen :: record_tokens r ++ more_records rs ++ [TClose]
  end.

(** The tokens of a text that is read up to an idle state of the reader. *)
Definition lexes_to (text : string) (toks : list token) : Prop :=
  lex_run LexIdle text = Some (toks, LexIdle).

(** ** The vocabulary of the edge cases *)

(** A record whose second field is an integer, as [run_experiment] needs
    it for the sum of the durations. *)
Definition has_duration (r : record) : bool :=
  match nth_error r 1 with
  | Some (VInt _) => true
  | _ => false
  end.

(** A record with the two fields the text of a listbox row reads. *)
Definition displayable (r : record) : bool := (2 <=? List.length r)%nat.

(** The rows of the listbox that shows the queue [q]: the grey placeholder
    for an empty queue, else one white row per step. *)
Definition rows_of (q : list record) : list color :=
  match q with
  | [] => [LightGray]
  | _ :: _ => repeat White (List.length q)
  end.

(** The markers [update_queue_listbox] sets for the queue [q]. *)
Definition refresh_marks (q : list record) : list event :=
  match q with
  | [] => [EvMark 0 LightGray]
  | _ :: _ => map (fun i => EvMark i White) (seq 0 (List.length q))
  end.

(** The idle state in which the listbox shows the queue. *)
Record shown (s : state) : Prop := mkShown {
  sh_records : forallb displayable (queue s) = true;
  sh_rows : listbox s = rows_of (queue s)
}.

(** The series of the chart: one index per sample, counted from zero. *)
Record series_ok (s : state) : Prop := mkSeriesOk {
  so_times : times s = seq 0 (time_counter s);
  so_values : List.length (sensor_values s) = time_counter s
}.

(** A run in its twentieth minute: the scenario queue started at time 0,
    the clock at 3725 seconds. *)
Definition late_state : state := set_now 3725000 telemetry_state.

(** The scenario run on a machine with no device attached. *)
Definition deviceless_run : state := set_arduino None telemetry_state.

(** A queue read from a file whose duration is a text, on a healthy
    device. *)
Definition quoted_duration_state : state :=
  set_listbox [White]
    (set_queue [[VStr "No light"; VStr "5"]] (initial (Some healthy_port))).

(** A file whose only record lacks its duration, next to the scenario
    queue. *)
Definition short_record_state : state :=
  set_files [("bad.json", json_dump [[VStr "No light"]])] demo_state.

(** The scenario run with its chart window up. *)
Definition charting_state : state :=
  Eval vm_compute in
    match open_sensor_data_window telemetry_state with
    | Done _ s => s
    | _ => initial None
    end.

(** The same once the run is over, and once the port was closed. *)
Definition charting_after_the_run : state :=
  set_experiment_running false charting_state.

Definition charting_on_a_closed_port : state :=
  set_timers [mkTimer 3 500 CbGraph]
    (set_arduino (Some (mkPort false [] demo_lines)) charting_state).

(** ** The vocabulary of the schedule *)

(** The part of [process_step(idx)] after [root.update()], for a step
    of the queue. *)
Definition step_tail (step : record) (idx : nat) : M unit :=
  cmd <- step_command step ;;
  match cmd with
  | Some command => send_to_arduino command
  | None => ret tt
  end ;;
  d <- item step 1 ;;
  task_id <- after_seconds d (CbHighlight idx Green) ;;
  modify (fun s => set_scheduled_tasks (scheduled_tasks s ++ [task_id]) s) ;;
  d <- item step 1 ;;
  task_id <- after_seconds d (CbProcessStep (S idx)) ;;
  modify (fun s => set_scheduled_tasks (scheduled_tasks s ++ [task_id]) s).

(** The state in which step [idx] was just marked in progress. *)
Definition marked_yellow (idx : nat) (s : state) : state :=
  push_event (EvMark idx Yellow)
    (set_listbox (set_nth (listbox s) idx Yellow) s).

(** The time the timers of a step wait, in milliseconds: Tk counts a
    negative delay as zero. *)
Definition span (st : Step) : Z := Z.max 0 (step_duration st * 1000).

(** The time from the start of a run to the end of its [k]-th step. *)
Definition elapsed_after (sts : list Step) (k : nat) : Z :=
  fold_right Z.add 0 (map span (firstn k sts)).

(** The rows of the listbox at a phase of a run of [n] steps. *)
Definition colours (n : nat) (ph : phase) : list color :=
  match ph with
  | Marked i => repeat Green i ++ Yellow :: repeat White (n - S i)
  | Advancing i => repeat Green (S i) ++ repeat White (n - S i)
  | Over => repeat White n
  end.

(** When the phase ends, the run having started at [t0]. *)
Definition deadline (sts : list Step) (t0 : Z) (ph : phase) : Z :=
  match ph with
  | Marked i | Advancing i => t0 + elapsed_after sts (S i)
  | Over => t0 + elapsed_after sts (List.length sts)
  end.

(** A run that started at [t0] is on schedule: the rows show the phase,
    the timers of the playback are due when the phase ends, and the clock
    has not passed that time before the run is over. *)
Record on_schedule (sts : list Step) (t0 : Z) (ph : phase) (s : state)
  : Prop := mkOnSchedule {
  os_rows : listbox s = colours (List.length sts) ph;
  os_start : start_time s = Some t0;
  os_due : forall t, In t (chain (timers s)) -> t_due t = deadline sts t0 ph;
  os_now : if is_over ph then deadline sts t0 ph <= now s
           else now s <= deadline sts t0 ph
}.

(** ** The vocabulary of the records a file can hold *)

(** A step type the encoder knows. *)
Definition known_type (ty : string) : bool :=
  String.eqb ty "Continuous light" || String.eqb ty "No light"
  || String.eqb ty "Pulsing light" || String.eqb ty "Advanced pulsing light".

(** A record of a known type that lacks a parameter its frame needs,
    while the listbox can show it. *)
Definition incomplete (r : record) : bool :=
  match r with
  | VStr ty :: _ :: params =>
      (String.eqb ty "Continuous light" && (List.length params <? 1)%nat)
      || (String.eqb ty "Pulsing light" && (List.length params <? 2)%nat)
      || (String.eqb ty "Advanced pulsing light" && (List.length params <? 3)%nat)
  | _ => false
  end.

(** The scenario queue before it is run, on a machine with no device. *)
Definition deviceless_state : state := set_arduino None demo_state.

(** The scenario queue followed by a step of a type the encoder does not
    know and by a pulsing step without its intensity; the run is about to
    advance to the first, then to the second of them. *)
Definition odd_queue : list record :=
  map record_of demo_queue
    ++ [[VStr "Strobe"; VInt 3]; [VStr "Pulsing light"; VInt 4; VInt 10]].

Definition odd_state (idx : nat) : state :=
  set_timers [mkTimer 7 3000 (CbProcessStep idx)]
    (set_experiment_running true
       (set_listbox [Green; Green; White; White]
          (set_queue odd_queue demo_state))).

(* ================================================================== *)
(** * Properties *)

(** ** Decimal texts *)

Lemma all_digits_string_of_uint (d : Decimal.uint) :
  all_digits (NilEmpty.string_of_uint d) = true.
Proof. induction d; simpl; auto. Qed.

Lemma to_uint_head (p : positive) :
  exists c rest,
    NilEmpty.string_of_uint (Pos.to_uint p) = String c rest /\
    is_digit c = true /\ Ascii.eqb c "0"%char = false /\
    all_digits rest = true.
Proof.
  pose proof (DecimalPos.Unsigned.to_of (Pos.to_uint p)) as Hn.
  rewrite DecimalPos.Unsigned.of_to in Hn. simpl in Hn.
  pose proof (DecimalPos.Unsigned.to_uint_nonzero p) as Hz.
  pose proof (DecimalFacts.nzhead_nonzero (Pos.to_uint p)) as Hh.
  assert (He : Decimal.nzhead (Pos.to_uint p) = Pos.to_uint p).
  { unfold Decimal.unorm in Hn.
    destruct (Decimal.nzhead (Pos.to_uint p)) eqn:E; try (symmetry; exact Hn).
    exfalso. apply Hz. exact Hn. }
  rewrite He in Hh.
  pose proof (DecimalPos.Unsigned.to_uint_nonnil p) as Hnil.
  destruct (Pos.to_uint p) as [|d|d|d|d|d|d|d|d|d|d] eqn:E;
    try congruence; try (exfalso; apply (Hh d); reflexivity);
    simpl; eexists; eexists; (split; [reflexivity|]);
    repeat split; apply all_digits_string_of_uint.
Qed.

Lemma str_of_int_pos (p : positive) :
  str_of_int (Z.pos p) = NilEmpty.string_of_uint (Pos.to_uint p).
Proof.
  unfold str_of_int. simpl. unfold NilZero.string_of_uint.
  pose proof (DecimalPos.Unsigned.to_uint_nonnil p).
  destruct (Pos.to_uint p); congruence.
Qed.

Lemma str_of_int_neg (p : positive) :
  str_of_int (Z.neg p) = String "-"%char (NilEmpty.string_of_uint (Pos.to_uint p)).
Proof.
  unfold str_of_int. simpl. unfold NilZero.string_of_uint.
  pose proof (DecimalPos.Unsigned.to_uint_nonnil p).
  destruct (Pos.to_uint p); congruence.
Qed.

Lemma int_of_string_str_of_int (n : Z) :
  option_map Z.of_int (NilZero.int_of_string (str_of_int n)) = Some n.
Proof.
  unfold str_of_int. rewrite NilZero.isi.
  - simpl. now rewrite DecimalZ.of_to.
  - destruct n; simpl; try discriminate.
    intros [= H]. now apply (DecimalPos.Unsigned.to_uint_nonnil p).
  - destruct n; simpl; try discriminate.
    intros [= H]. now apply (DecimalPos.Unsigned.to_uint_nonnil p).
Qed.

(** The text of an integer is a JSON literal of that integer: base 10, a
    minus sign for a negative number, no leading zero. *)
Lemma int_literal_str_of_int (n : Z) : int_literal (str_of_int n) = Some n.
Proof.
  unfold int_literal.
  replace (if _ : bool then _ else None)
    with (option_map Z.of_int (NilZero.int_of_string (str_of_int n))).
  - apply int_of_string_str_of_int.
  - destruct n as [|p|p].
    + reflexivity.
    + rewrite str_of_int_pos.
      destruct (to_uint_head p) as (c & rest & -> & Hd & Hz & Hr).
      assert (Hm : Ascii.eqb c "-"%char = false).
      { destruct (Ascii.eqb_spec c "-"%char); [subst; discriminate|reflexivity]. }
      rewrite Hm, Hd, Hz, Hr. now destruct rest.
    + rewrite str_of_int_neg.
      destruct (to_uint_head p) as (c & rest & -> & Hd & Hz & Hr).
      cbn [Ascii.eqb Bool.eqb]. rewrite Hd, Hz, Hr. now destruct rest.
Qed.

Lemma isdigit_str_of_int (n : Z) : 0 <= n -> isdigit (str_of_int n) = true.
Proof.
  intros Hn. destruct n as [|p|p]; [reflexivity| |lia].
  rewrite str_of_int_pos.
  destruct (to_uint_head p) as (c & rest & -> & Hd & _ & Hr).
  simpl. now rewrite Hd, Hr.
Qed.

(** ** The command encoder *)

Lemma step_command_record_of (st : Step) (s : state) :
  step_command (record_of st) s = Done (Some (frame_of st)) s.
Proof. destruct st; reflexivity. Qed.

(** C2. The command of a valid step is the frame of its variant, every
    number in it is printed in base 10 with digits only and no leading
    zero, and the scenario queue [Continuous(2s,50), Dark(1s)] puts
    [ON 2 50], [OFF 1] and [OFF] on the wire, in this order. *)
Theorem encoder_emits_the_frame_of_the_variant :
  (forall st : Step, valid_step st ->
     (forall s, step_command (record_of st) s = Done (Some (frame_of st)) s) /\
     Forall (fun n => isdigit (str_of_int n) = true /\
                      int_literal (str_of_int n) = Some n) (step_fields st)) /\
  (exists s', scenario (initial (Some healthy_port)) = Done tt s' /\
     writes (trace s') = ["ON 2 50" +++ nl; "OFF 1" +++ nl; "OFF" +++ nl]).
Proof.
  split.
  - intros st Hv. split.
    + intros s. apply step_command_record_of.
    + assert (Hf : Forall (fun n => 0 <= n) (step_fields st)).
      { destruct st; simpl in *; repeat constructor; lia. }
      induction Hf; constructor; auto.
      split; [now apply isdigit_str_of_int | apply int_literal_str_of_int].
  - eexists. split; [vm_compute; reflexivity | reflexivity].
Qed.

Lemma encoder_emits_the_frame_of_the_variant_witness :
  valid_step (Pulsing 10 5 60) /\
  step_command (record_of (Pulsing 10 5 60)) (initial None)
    = Done (Some ("PULSING 10 5 60" +++ nl)) (initial None).
Proof.
  assert (Hv : valid_step (Pulsing 10 5 60)) by (simpl; lia).
  split; [exact Hv|].
  exact (proj1 (proj1 encoder_emits_the_frame_of_the_variant _ Hv) (initial None)).
Defined.

(** ** Traces *)

Lemma writes_app (a b : list event) : writes (a ++ b) = writes a ++ writes b.
Proof.
  induction a as [|e a IH]; simpl; [reflexivity|].
  destruct e; simpl; now rewrite IH.
Qed.

Lemma visible_app (a b : list event) : visible (a ++ b) = visible a ++ visible b.
Proof. apply filter_app. Qed.

Lemma io_app (a b : list event) : io (a ++ b) = io a ++ io b.
Proof. apply filter_app. Qed.

Lemma progress_app (a b : list event) :
  progress (a ++ b) = progress a ++ progress b.
Proof. apply filter_app. Qed.

Lemma writes_visible (tr : list event) : writes (visible tr) = writes tr.
Proof.
  induction tr as [|e tr IH]; simpl; [reflexivity|].
  destruct e; simpl; now rewrite ?IH.
Qed.

Lemma io_visible (tr : list event) : io (visible tr) = io tr.
Proof.
  induction tr as [|e tr IH]; simpl; [reflexivity|].
  destruct e; simpl; now rewrite ?IH.
Qed.

Lemma progress_visible (tr : list event) : progress (visible tr) = progress tr.
Proof.
  induction tr as [|e tr IH]; simpl; [reflexivity|].
  destruct e as [| |i c| | |]; simpl; rewrite ?IH; try reflexivity.
Qed.

(** ** Running an empty queue *)

(** C4, as the code has it.  On an empty queue [run_experiment] shows the
    warning and returns: nothing is transmitted, the phase, the start
    time, the queue and the timers of Tk stay as they were; the list
    [scheduled_tasks] is emptied, because the function resets it before it
    looks at the queue. *)
Theorem run_on_empty_queue_only_resets_scheduled_tasks :
  forall (update : M unit) (s : state),
    queue s = [] ->
    run_experiment update s
      = Done tt (push_event (EvDialog DlgNoSteps) (set_scheduled_tasks [] s)) /\
    (forall s', run_experiment update s = Done tt s' ->
       writes (trace s') = writes (trace s) /\
       experiment_running s' = experiment_running s /\
       start_time s' = start_time s /\
       queue s' = queue s /\
       timers s' = timers s /\
       scheduled_tasks s' = []).
Proof.
  intros update s Hq.
  assert (E : run_experiment update s
              = Done tt (push_event (EvDialog DlgNoSteps) (set_scheduled_tasks [] s))).
  { unfold run_experiment, bind, modify, gets. simpl. rewrite Hq. reflexivity. }
  split; [exact E|].
  intros s' H. rewrite E in H. injection H as <-. simpl.
  rewrite writes_app. simpl. rewrite List.app_nil_r. repeat split; reflexivity.
Qed.

Lemma run_on_empty_queue_only_resets_scheduled_tasks_witness :
  queue (initial None) = [] /\
  run_experiment (ret tt) (initial None)
    = Done tt (push_event (EvDialog DlgNoSteps)
                 (set_scheduled_tasks [] (initial None))).
Proof.
  split; [reflexivity|].
  exact (proj1 (run_on_empty_queue_only_resets_scheduled_tasks
                  (ret tt) (initial None) eq_refl)).
Defined.

(** C4 as stated fails: after the scenario has run and the queue was
    cleared, [scheduled_tasks] still holds the four identifiers of that
    run; running the empty queue changes it. *)
Lemma run_on_empty_queue_changes_state :
  exists s s',
    (scenario ;; reset_experiment) (initial (Some healthy_port)) = Done tt s /\
    queue s = [] /\
    run_experiment (root_update 4) s = Done tt s' /\
    scheduled_tasks s = [1; 2; 5; 6]%nat /\
    scheduled_tasks s' = [].
Proof.
  eexists. eexists. split; [vm_compute; reflexivity|].
  split; [reflexivity|]. split; [vm_compute; reflexivity|].
  split; reflexivity.
Qed.

(** ** The timer queue *)

Lemma chain_insert_tick (t : timer) (l : list timer) :
  is_chain t = false -> chain (insert_timer t l) = chain l.
Proof.
  intros Ht. induction l as [|u l IH]; simpl.
  - now rewrite Ht.
  - destruct (t_due t <? t_due u); simpl.
    + now rewrite Ht.
    + now rewrite IH.
Qed.

Lemma chain_filter_graph (l : list timer) :
  chain (filter (fun t => negb (is_graph_timer t)) l) = chain l.
Proof.
  induction l as [|u l IH]; simpl; [reflexivity|].
  assert (H : is_graph_timer u = true /\ is_chain u = false \/
              is_graph_timer u = false).
  { unfold is_graph_timer, is_chain. destruct (t_cb u); auto. }
  destruct H as [[-> Hc] | ->]; simpl.
  - now rewrite Hc.
  - now rewrite IH.
Qed.

(** Two timers set for the same time stay together, in the order of their
    creation. *)
Lemma insert_pair (t1 t2 : timer) (l : list timer) :
  t_due t2 = t_due t1 ->
  exists l1 l2,
    l = l1 ++ l2 /\
    insert_timer t2 (insert_timer t1 l) = l1 ++ t1 :: t2 :: l2.
Proof.
  intros Hd. induction l as [|u l IHl].
  - exists [], []. cbn [insert_timer app].
    rewrite Hd, Z.ltb_irrefl. now split.
  - cbn [insert_timer]. destruct (t_due t1 <? t_due u) eqn:E.
    + exists [], (u :: l). cbn [insert_timer app].
      rewrite Hd, Z.ltb_irrefl, E. now split.
    + destruct IHl as (l1 & l2 & -> & IH).
      exists (u :: l1), l2. cbn [insert_timer app].
      rewrite Hd, E, IH. now split.
Qed.

Lemma chain_app (a b : list timer) : chain (a ++ b) = chain a ++ chain b.
Proof. apply filter_app. Qed.

Lemma ticks_app (a b : list timer) : ticks (a ++ b) = ticks a ++ ticks b.
Proof. apply filter_app. Qed.

Lemma chain_insert_pair (t1 t2 : timer) (l : list timer) :
  t_due t2 = t_due t1 -> is_chain t1 = true -> is_chain t2 = true ->
  chain l = [] ->
  chain (insert_timer t2 (insert_timer t1 l)) = [t1; t2].
Proof.
  intros Hd H1 H2 Hc.
  destruct (insert_pair t1 t2 l Hd) as (l1 & l2 & -> & ->).
  rewrite chain_app in *. apply app_eq_nil in Hc as [Ha Hb].
  simpl. now rewrite Ha, H1, H2, Hb.
Qed.

Lemma sorted_cons (t : timer) (l : list timer) :
  sorted_by_due (t :: l) = true <->
  Forall (fun u => t_due t <= t_due u) l /\ sorted_by_due l = true.
Proof.
  simpl. rewrite andb_true_iff, forallb_forall, Forall_forall.
  split; intros [H1 H2]; split; auto; intros u Hu.
  - apply Z.leb_le. now apply H1.
  - apply Z.leb_le. now apply H1.
Qed.

Lemma Forall_insert (P : timer -> Prop) (t : timer) (l : list timer) :
  P t -> Forall P l -> Forall P (insert_timer t l).
Proof.
  intros Ht Hl. induction Hl as [|u l Hu Hl IH]; simpl.
  - now constructor.
  - destruct (t_due t <? t_due u); repeat constructor; auto.
Qed.

Lemma sorted_insert (t : timer) (l : list timer) :
  sorted_by_due l = true -> sorted_by_due (insert_timer t l) = true.
Proof.
  induction l as [|u l IH]; intros Hs.
  - reflexivity.
  - apply sorted_cons in Hs as [Hu Hs].
    cbn [insert_timer]. destruct (t_due t <? t_due u) eqn:E.
    + apply sorted_cons. split.
      * apply Z.ltb_lt in E. constructor; [lia|].
        eapply Forall_impl; [|exact Hu]. simpl. intros; lia.
      * apply sorted_cons. now split.
    + apply sorted_cons. split.
      * apply Forall_insert; [apply Z.ltb_ge in E; lia | exact Hu].
      * now apply IH.
Qed.

Lemma sorted_filter (f : timer -> bool) (l : list timer) :
  sorted_by_due l = true -> sorted_by_due (filter f l) = true.
Proof.
  induction l as [|u l IH]; intros Hs; [reflexivity|].
  apply sorted_cons in Hs as [Hu Hs]. simpl.
  destruct (f u); [|now apply IH].
  apply sorted_cons. split; [|now apply IH].
  rewrite Forall_forall in *. intros v Hv. apply Hu.
  now apply filter_In in Hv.
Qed.

Lemma sorted_tail (t : timer) (l : list timer) :
  sorted_by_due (t :: l) = true -> sorted_by_due l = true.
Proof. intros H. now apply sorted_cons in H. Qed.

Lemma ticks_insert_tick (t : timer) (l : list timer) :
  is_chain t = false ->
  List.length (ticks (insert_timer t l)) = S (List.length (ticks l)).
Proof.
  intros Ht. induction l as [|u l IH]; unfold ticks in *; simpl.
  - now rewrite Ht.
  - destruct (t_due t <? t_due u); simpl.
    + now rewrite Ht.
    + destruct (is_chain u); simpl; now rewrite IH.
Qed.

Lemma ticks_insert_chain (t : timer) (l : list timer) :
  is_chain t = true -> ticks (insert_timer t l) = ticks l.
Proof.
  intros Ht. induction l as [|u l IH]; unfold ticks in *; simpl.
  - now rewrite Ht.
  - destruct (t_due t <? t_due u); simpl.
    + now rewrite Ht.
    + now rewrite IH.
Qed.

Lemma length_filter_le {A : Type} (f : A -> bool) (l : list A) :
  (List.length (filter f l) <= List.length l)%nat.
Proof.
  induction l as [|x l IH]; simpl; [lia|]. destruct (f x); simpl; lia.
Qed.

Lemma ticks_filter_le (f : timer -> bool) (l : list timer) :
  (List.length (ticks (filter f l)) <= List.length (ticks l))%nat.
Proof.
  induction l as [|u l IH]; unfold ticks in *; simpl; [lia|].
  destruct (f u); simpl; destruct (is_chain u); simpl; lia.
Qed.

Lemma ticks_tick_effect (nw : Z) (l l' : list timer) :
  tick_effect nw l l' ->
  (List.length (ticks l') <= S (List.length (ticks l)))%nat.
Proof.
  intros [| t Ht _ |].
  - lia.
  - rewrite ticks_insert_tick by assumption. lia.
  - pose proof (ticks_filter_le (fun t => negb (is_graph_timer t)) l). lia.
Qed.

Lemma chain_tick_effect (nw : Z) (l l' : list timer) :
  tick_effect nw l l' -> chain l' = chain l.
Proof.
  intros [| t Ht _ |]; [reflexivity| |].
  - now apply chain_insert_tick.
  - apply chain_filter_graph.
Qed.

Lemma sorted_tick_effect (nw : Z) (l l' : list timer) :
  tick_effect nw l l' -> sorted_by_due l = true -> sorted_by_due l' = true.
Proof.
  intros [| t Ht _ |] Hs; [assumption| |].
  - now apply sorted_insert.
  - now apply sorted_filter.
Qed.

Lemma all_ticks_length (l : list timer) :
  chain l = [] -> List.length (ticks l) = List.length l.
Proof.
  induction l as [|u l IH]; unfold chain, ticks in *; simpl; [reflexivity|].
  destruct (is_chain u); simpl; [discriminate|]. intros H. now rewrite IH.
Qed.

(** ** Ticks *)

Lemma calm_refl (s : state) : calm s s.
Proof. constructor; reflexivity. Qed.

Lemma calm_trans (s1 s2 s3 : state) : calm s1 s2 -> calm s2 s3 -> calm s1 s3.
Proof.
  intros [] []. constructor; etransitivity; eassumption.
Qed.

Lemma visible_quiet (tr : list event) (e : event) :
  observable e = false -> visible (tr ++ [e]) = visible tr.
Proof.
  intros He. rewrite visible_app. simpl. rewrite He. apply List.app_nil_r.
Qed.

(** A tick of the elapsed time. *)
Lemma update_time_label_tick (s : state) :
  exists s',
    guarded update_time_label s = Done tt s' /\
    calm s s' /\ now s' = now s /\
    tick_effect (now s) (timers s) (timers s').
Proof.
  unfold guarded, try_except, update_time_label, bind, gets.
  destruct (experiment_running s) eqn:Er.
  - destruct (start_time s) as [t0|] eqn:Es.
    + eexists. split; [reflexivity|]. split; [|split]; [|reflexivity|].
      * constructor; try reflexivity; simpl.
        -- apply chain_insert_tick. reflexivity.
        -- apply visible_quiet. reflexivity.
      * simpl. apply tick_again; [reflexivity|simpl; lia].
    + eexists. split; [reflexivity|]. split; [|split]; [|reflexivity|].
      * constructor; try reflexivity. simpl. apply visible_quiet. reflexivity.
      * apply tick_same.
  - eexists. split; [reflexivity|]. split; [apply calm_refl|].
    split; [reflexivity|apply tick_same].
Qed.

Lemma destroy_sensor_window_tick (s : state) :
  exists s',
    guarded destroy_sensor_window s = Done tt s' /\
    calm s s' /\ now s' = now s /\
    tick_effect (now s) (timers s) (timers s').
Proof.
  unfold guarded, try_except, destroy_sensor_window, bind, gets, modify.
  destruct (sensor_data_window s) eqn:Ew.
  - eexists. split; [reflexivity|]. split; [|split]; [|reflexivity|].
    + constructor; try reflexivity. simpl. apply visible_quiet. reflexivity.
    + apply tick_same.
  - eexists. split; [reflexivity|]. split; [|split]; [|reflexivity|].
    + constructor; try reflexivity. simpl. apply chain_filter_graph.
    + simpl. apply tick_gone.
  - eexists. split; [reflexivity|]. split; [|split]; [|reflexivity|].
    + constructor; try reflexivity. simpl. apply chain_filter_graph.
    + simpl. apply tick_gone.
Qed.

(** Reading a line never fails and touches the series only. *)
Lemma read_sample_tick (p : port) (raw : string) (rest : list string) (s : state) :
  arduino s = Some p ->
  exists s',
    try_except (read_sample p raw rest) (fun _ => ret tt) s = Done tt s' /\
    calm s s' /\ now s' = now s /\ timers s' = timers s /\
    sensor_data_window s' = sensor_data_window s.
Proof.
  intros Ha.
  unfold try_except, read_sample, bind, gets, modify, emit.
  destruct (isdigit (drop_first_dot (strip raw))).
  - eexists. split; [reflexivity|]. repeat split; try reflexivity.
    + simpl. now rewrite Ha.
    + simpl. apply visible_quiet. reflexivity.
  - eexists. split; [reflexivity|]. repeat split; try reflexivity.
    simpl. now rewrite Ha.
Qed.

(** A tick of the sampler. *)
Lemma update_graph_tick (s : state) :
  exists s',
    guarded update_graph s = Done tt s' /\
    calm s s' /\ now s' = now s /\
    tick_effect (now s) (timers s) (timers s').
Proof.
  destruct (experiment_running s) eqn:Er; [destruct (arduino s) as [p|] eqn:Ea|].
  - destruct (p_open p) eqn:Eo.
    + assert (Hread : exists s1,
                (match p_in p with
                 | [] => ret tt
                 | raw :: rest =>
                     try_except (read_sample p raw rest) (fun _ => ret tt)
                 end) s = Done tt s1 /\
                calm s s1 /\ now s1 = now s /\ timers s1 = timers s /\
                sensor_data_window s1 = sensor_data_window s).
      { destruct (p_in p) as [|raw rest].
        - exists s. repeat split; reflexivity.
        - now apply read_sample_tick. }
      destruct Hread as (s1 & E1 & Hc & Hn & Ht & Hw).
      unfold guarded, try_except, update_graph, bind, gets.
      rewrite Er, Ea, Eo. unfold ret at 1. rewrite E1.
      destruct (sensor_data_window s1) eqn:Ew.
      * eexists. split; [reflexivity|]. split; [|split]; [|assumption|].
        -- eapply calm_trans; [exact Hc|].
           constructor; try reflexivity. simpl. apply visible_quiet. reflexivity.
        -- simpl. rewrite Ht. apply tick_same.
      * eexists. split; [reflexivity|]. split; [|split]; [|assumption|].
        -- eapply calm_trans; [exact Hc|].
           constructor; try reflexivity. simpl. apply chain_insert_tick. reflexivity.
        -- simpl. rewrite Ht, Hn. apply tick_again; [reflexivity|simpl; lia].
      * eexists. split; [reflexivity|]. split; [|split]; [|assumption|].
        -- eapply calm_trans; [exact Hc|].
           constructor; try reflexivity. simpl. apply visible_quiet. reflexivity.
        -- simpl. rewrite Ht. apply tick_same.
    + unfold guarded, try_except, update_graph, bind, gets.
      rewrite Er, Ea, Eo. unfold raise.
      eexists. split; [reflexivity|]. split; [|split]; [|reflexivity|].
      * constructor; try reflexivity. simpl. apply visible_quiet. reflexivity.
      * apply tick_same.
  - destruct (destroy_sensor_window_tick s) as (s' & E & H).
    exists s'. split; [|exact H].
    unfold guarded, try_except, update_graph, bind, gets in *.
    now rewrite Er, Ea.
  - destruct (destroy_sensor_window_tick s) as (s' & E & H).
    exists s'. split; [|exact H].
    unfold guarded, try_except, update_graph, bind, gets in *.
    now rewrite Er.
Qed.

(** Whatever fires, a tick leaves the playback alone. *)
Lemma tick_callback (update : M unit) (cb : callback) (s : state) :
  chain_cb cb = false ->
  exists s',
    guarded (dispatch update cb) s = Done tt s' /\
    calm s s' /\ now s' = now s /\
    tick_effect (now s) (timers s) (timers s').
Proof.
  destruct cb; simpl; try discriminate; intros _.
  - apply update_time_label_tick.
  - apply update_graph_tick.
Qed.

Lemma due_count_insert_late (nw : Z) (t : timer) (l : list timer) :
  nw < t_due t -> due_count nw (insert_timer t l) = due_count nw l.
Proof.
  intros Ht. assert (E : (t_due t <=? nw) = false) by (apply Z.leb_gt; lia).
  unfold due_count. induction l as [|u l IH]; simpl.
  - now rewrite E.
  - destruct (t_due t <? t_due u); simpl.
    + now rewrite E.
    + destruct (t_due u <=? nw); simpl; now rewrite IH.
Qed.

Lemma due_count_tick_effect (nw : Z) (l l' : list timer) :
  tick_effect nw l l' -> (due_count nw l' <= due_count nw l)%nat.
Proof.
  intros [| t _ Ht |].
  - lia.
  - rewrite due_count_insert_late by assumption. lia.
  - unfold due_count. induction l as [|u l IH]; simpl; [lia|].
    destruct (negb (is_graph_timer u)); simpl;
      destruct (t_due u <=? nw); simpl; lia.
Qed.

Lemma is_chain_head_of_empty_chain (t : timer) (l : list timer) :
  chain (t :: l) = [] -> is_chain t = false /\ chain l = [].
Proof.
  unfold chain. simpl. destruct (is_chain t); [discriminate|auto].
Qed.

Lemma chain_cons_tick (t : timer) (l : list timer) :
  is_chain t = false -> chain (t :: l) = chain l.
Proof. intros H. unfold chain. simpl. now rewrite H. Qed.

Lemma ticks_cons_tick (t : timer) (l : list timer) :
  is_chain t = false -> ticks (t :: l) = t :: ticks l.
Proof. intros H. unfold ticks. simpl. now rewrite H. Qed.

(** [root.update()] in the middle of a step: the ticks that are due fire,
    and the playback is where it was. *)
Lemma root_update_ticks (n : nat) :
  forall (fuel : nat) (s : state),
    (due_count (now s) (timers s) <= n)%nat -> (n < fuel)%nat ->
    chain (timers s) = [] ->
    exists s',
      root_update fuel s = Done tt s' /\
      calm s s' /\ now s' = now s /\
      (sorted_by_due (timers s) = true -> sorted_by_due (timers s') = true) /\
      (List.length (ticks (timers s')) <= List.length (ticks (timers s)))%nat.
Proof.
  assert (Hstay : forall s : state,
            exists s', Done tt s = Done tt s' /\ calm s s' /\ now s' = now s /\
              (sorted_by_due (timers s) = true -> sorted_by_due (timers s') = true) /\
              (List.length (ticks (timers s')) <= List.length (ticks (timers s)))%nat).
  { intros s. exists s. split; [reflexivity|]. split; [apply calm_refl|].
    repeat split; auto. }
  induction n as [|n IH]; intros fuel s Hd Hf Hc;
    (destruct fuel as [|fuel]; [lia|]); cbn [root_update];
    destruct (timers s) as [|t rest] eqn:Et; try (rewrite <- Et; apply Hstay);
    (destruct (t_due t <=? now s) eqn:E; [|rewrite <- Et; apply Hstay]).
  - unfold due_count in Hd. simpl in Hd. rewrite E in Hd. simpl in Hd. lia.
  - apply is_chain_head_of_empty_chain in Hc as [Ht Hc].
    destruct (tick_callback (root_update fuel) (t_cb t) (set_timers rest s) Ht)
      as (s2 & E2 & Hcalm & Hnow & Heff).
    simpl in Hnow, Heff.
    assert (Hd2 : (due_count (now s2) (timers s2) <= n)%nat).
    { rewrite Hnow. apply due_count_tick_effect in Heff.
      unfold due_count in Hd. simpl in Hd. rewrite E in Hd. simpl in Hd.
      unfold due_count in *. lia. }
    assert (Hc2 : chain (timers s2) = []).
    { rewrite (chain_tick_effect _ _ _ Heff). exact Hc. }
    destruct (IH fuel s2 Hd2 ltac:(lia) Hc2) as (s3 & E3 & Hcalm3 & Hnow3 & Hs3 & Hl3).
    exists s3. unfold bind. rewrite E2. split; [exact E3|].
    split; [|split; [|split]].
    + eapply calm_trans; [|exact Hcalm3].
      eapply calm_trans; [|exact Hcalm].
      constructor; try reflexivity. simpl. rewrite Et.
      symmetry. now apply chain_cons_tick.
    + now rewrite Hnow3, Hnow.
    + intros Hs. apply Hs3. eapply sorted_tick_effect; [exact Heff|].
      eapply sorted_tail; exact Hs.
    + apply ticks_tick_effect in Heff.
      rewrite ticks_cons_tick by assumption. simpl. lia.
Qed.

(** A turn of the main loop whose timer is a tick. *)
Lemma mainloop_step_tick (fuel : nat) (s : state) (t : timer) (rest : list timer) :
  timers s = t :: rest -> is_chain t = false ->
  exists s',
    mainloop_step fuel s = Done tt s' /\ calm s s' /\
    tick_effect (Z.max (now s) (t_due t)) rest (timers s').
Proof.
  intros Et Ht. unfold mainloop_step. rewrite Et.
  destruct (tick_callback (root_update fuel) (t_cb t)
              (set_now (Z.max (now s) (t_due t)) (set_timers rest s)) Ht)
    as (s2 & E2 & Hcalm & Hnow & Heff).
  exists s2. split; [exact E2|]. split; [|exact Heff].
  eapply calm_trans; [|exact Hcalm].
  constructor; try reflexivity. simpl. rewrite Et.
  symmetry. now apply chain_cons_tick.
Qed.

(** ** The ticks ahead of the playback run out *)

Lemma lag_insert_le (T : Z) (t : timer) (l : list timer) :
  (lag T (insert_timer t l) <= lag T l + S (Z.to_nat (T - t_due t)))%nat.
Proof.
  induction l as [|u l IH]; simpl.
  - destruct (is_chain t); lia.
  - destruct (t_due t <? t_due u); simpl.
    + destruct (is_chain t); destruct (is_chain u); lia.
    + destruct (is_chain u); lia.
Qed.

Lemma lag_insert_late (T : Z) (t : timer) (l : list timer) (c : timer)
    (cs : list timer) :
  T < t_due t -> sorted_by_due l = true -> chain l = c :: cs -> t_due c = T ->
  lag T (insert_timer t l) = lag T l.
Proof.
  intros Ht. induction l as [|u l IH]; intros Hs Hc HT; [discriminate|].
  apply sorted_cons in Hs as [Hu Hs].
  unfold chain in Hc. simpl in Hc. simpl.
  destruct (is_chain u) eqn:Eu.
  - injection Hc as -> _.
    assert (E : (t_due t <? t_due c) = false) by (apply Z.ltb_ge; lia).
    rewrite E. simpl. now rewrite Eu.
  - assert (Hin : In c l).
    { assert (H : In c (filter is_chain l)) by (rewrite Hc; now left).
      now apply filter_In in H. }
    rewrite Forall_forall in Hu. specialize (Hu c Hin).
    assert (E : (t_due t <? t_due u) = false) by (apply Z.ltb_ge; lia).
    rewrite E. simpl. rewrite Eu. now rewrite (IH Hs Hc HT).
Qed.

Lemma lag_filter_graph (T : Z) (l : list timer) :
  (lag T (filter (fun t => negb (is_graph_timer t)) l) <= lag T l)%nat.
Proof.
  induction l as [|u l IH]; simpl; [lia|].
  assert (H : is_graph_timer u = true /\ is_chain u = false \/
              is_graph_timer u = false).
  { unfold is_graph_timer, is_chain. destruct (t_cb u); auto. }
  destruct H as [[-> Hc] | ->]; simpl.
  - rewrite Hc. lia.
  - destruct (is_chain u); lia.
Qed.

(** Firing the tick at the head of the queue brings the next timer of the
    playback closer. *)
Lemma lag_tick_effect (nw : Z) (b c : timer) (rest cs l' : list timer) :
  sorted_by_due (b :: rest) = true -> is_chain b = false ->
  chain rest = c :: cs -> t_due b <= nw ->
  tick_effect nw rest l' ->
  (lag (t_due c) l' < lag (t_due c) (b :: rest))%nat.
Proof.
  intros Hs Hb Hc Hnw Heff.
  assert (Hbc : t_due b <= t_due c).
  { apply sorted_cons in Hs as [Hu _]. rewrite Forall_forall in Hu. apply Hu.
    assert (H : In c (filter is_chain rest)) by (unfold chain in Hc; rewrite Hc; now left).
    now apply filter_In in H. }
  simpl. rewrite Hb. destruct Heff as [| t Ht Hlate |].
  - lia.
  - destruct (Z_le_gt_dec (t_due t) (t_due c)) as [Hle|Hgt].
    + pose proof (lag_insert_le (t_due c) t rest).
      assert ((Z.to_nat (t_due c - t_due t) < Z.to_nat (t_due c - t_due b))%nat) by lia.
      lia.
    + rewrite (lag_insert_late (t_due c) t rest c cs); try lia; auto.
      eapply sorted_tail; exact Hs.
  - pose proof (lag_filter_graph (t_due c) rest). lia.
Qed.

(** ** The primitives of a step *)

Lemma set_arduino_same (s : state) (p : port) :
  arduino s = Some p -> set_arduino (Some p) s = s.
Proof. destruct s. simpl. now intros ->. Qed.

Lemma send_to_arduino_spec (command : string) (s : state) (p : port) :
  arduino s = Some p ->
  exists p',
    send_to_arduino command s
      = Done tt (push_event (outcome_of_write (p_open p) (p_fail p) command)
                   (set_arduino (Some p') s)) /\
    p_open p' = p_open p /\
    p_fail p' = plan_after (p_open p) (p_fail p) /\
    p_in p' = p_in p.
Proof.
  intros Ha. unfold send_to_arduino, bind, gets. rewrite Ha.
  destruct p as [o pl inb]. simpl.
  destruct o; [destruct pl as [|[|] pl]|]; simpl.
  - exists (mkPort true [] inb). rewrite (set_arduino_same _ _ Ha). now split.
  - exists (mkPort true pl inb). now split.
  - exists (mkPort true pl inb). now split.
  - exists (mkPort false pl inb). rewrite (set_arduino_same _ _ Ha). now split.
Qed.

Lemma length_set_nth {A : Type} (l : list A) (i : nat) (a : A) :
  List.length (set_nth l i a) = List.length l.
Proof.
  revert i. induction l as [|x l IH]; intros [|i]; simpl; auto.
Qed.

Lemma itemconfig_spec (idx : nat) (c : color) (s : state) :
  (idx < List.length (listbox s))%nat ->
  itemconfig idx c s
    = Done tt (push_event (EvMark idx c)
                 (set_listbox (set_nth (listbox s) idx c) s)).
Proof.
  intros H. unfold itemconfig, bind, gets.
  apply Nat.ltb_lt in H. now rewrite H.
Qed.

Lemma whiten_rows (n : nat) :
  forall (a : nat) (s : state),
    (a + n <= List.length (listbox s))%nat ->
    exists rows,
      List.length rows = List.length (listbox s) /\
      for_each (seq a n) (fun idx => itemconfig idx White) s
        = Done tt (set_trace (trace s ++ map (fun i => EvMark i White) (seq a n))
                     (set_listbox rows s)).
Proof.
  induction n as [|n IH]; intros a s Hn.
  - exists (listbox s). split; [reflexivity|]. simpl.
    rewrite List.app_nil_r. now destruct s.
  - cbn [seq for_each]. unfold bind.
    rewrite itemconfig_spec by lia.
    destruct (IH (S a) (push_event (EvMark a White)
                          (set_listbox (set_nth (listbox s) a White) s)))
      as (rows & Hl & E).
    { simpl. rewrite length_set_nth. lia. }
    exists rows. split.
    + rewrite Hl. simpl. apply length_set_nth.
    + rewrite E. simpl. now rewrite <- List.app_assoc.
Qed.

Lemma reset_step_colors_spec (s : state) :
  List.length (listbox s) = List.length (queue s) ->
  exists rows,
    List.length rows = List.length (listbox s) /\
    reset_step_colors s
      = Done tt (set_trace (trace s ++ map (fun i => EvMark i White)
                                         (seq 0 (List.length (queue s))))
                   (set_listbox rows s)).
Proof.
  intros H. unfold reset_step_colors, bind, gets.
  apply whiten_rows. simpl. lia.
Qed.

Lemma io_whites (l : list nat) : io (map (fun i => EvMark i White) l) = [].
Proof. induction l; simpl; auto. Qed.

Lemma progress_whites (l : list nat) :
  progress (map (fun i => EvMark i White) l) = [].
Proof. induction l; simpl; auto. Qed.

Lemma item_record_duration (st : Step) (s : state) :
  item (record_of st) 1 s = Done (VInt (step_duration st)) s.
Proof. destruct st; reflexivity. Qed.

Lemma sum_durations_record_of (sts : list Step) :
  forall (acc : Z) (s : state),
    exists total, sum_durations acc (map record_of sts) s = Done total s.
Proof.
  induction sts as [|st sts IH]; intros acc s; simpl.
  - now exists acc.
  - unfold bind. rewrite item_record_duration. apply IH.
Qed.

Lemma length_timers (l : list timer) :
  List.length l = (List.length (chain l) + List.length (ticks l))%nat.
Proof.
  induction l as [|u l IH]; unfold chain, ticks in *; simpl; [reflexivity|].
  destruct (is_chain u); simpl; lia.
Qed.

Lemma due_count_le (nw : Z) (l : list timer) :
  (due_count nw l <= List.length l)%nat.
Proof. apply length_filter_le. Qed.

(** ** One step of the playback *)

Lemma calm_port_some (s s' : state) (p : port) :
  calm s s' -> arduino s = Some p ->
  exists p', arduino s' = Some p' /\ p_open p' = p_open p /\ p_fail p' = p_fail p.
Proof.
  intros Hc Ha. pose proof (calm_port _ _ Hc) as H. rewrite Ha in H.
  destruct (arduino s') as [p'|]; [|discriminate].
  exists p'. simpl in H. unfold port_out in H. injection H as H1 H2. auto.
Qed.

(** [process_step(idx)] on a step of the queue: the step is marked, the
    ticks that are due fire, the command goes to the device, and the two
    timers of the step are set for the same time and recorded. *)
Lemma process_step_plays (fuel : nat) (sts : list Step) (i : nat) (st : Step)
    (s : state) (p : port) :
  queue s = map record_of sts -> nth_error sts i = Some st ->
  (i < List.length (listbox s))%nat -> arduino s = Some p ->
  chain (timers s) = [] -> (List.length (timers s) < fuel)%nat ->
  exists s' p' a b due,
    process_step (root_update fuel) i s = Done tt s' /\
    queue s' = queue s /\
    List.length (listbox s') = List.length (listbox s) /\
    experiment_running s' = experiment_running s /\
    run_button s' = run_button s /\
    buttons_placed s' = buttons_placed s /\
    arduino s' = Some p' /\ p_open p' = p_open p /\
    p_fail p' = plan_after (p_open p) (p_fail p) /\
    chain (timers s') = [mkTimer a due (CbHighlight i Green);
                         mkTimer b due (CbProcessStep (S i))] /\
    scheduled_tasks s' = scheduled_tasks s ++ [a; b] /\
    (sorted_by_due (timers s) = true -> sorted_by_due (timers s') = true) /\
    (List.length (ticks (timers s')) <= List.length (ticks (timers s)))%nat /\
    visible (trace s') = visible (trace s)
      ++ [EvMark i Yellow;
          outcome_of_write (p_open p) (p_fail p) (frame_of st)].
Proof.
  intros Hq Hst Hrow Ha Hc Hfuel.
  assert (Hi : (i < List.length sts)%nat) by (apply nth_error_Some; congruence).
  unfold process_step.
  unfold bind at 1. unfold gets at 1. rewrite Hq.
  assert (E0 : (List.length (map record_of sts) <=? i)%nat = false).
  { apply Nat.leb_gt. now rewrite length_map. }
  rewrite E0.
  unfold bind at 1. unfold item at 1.
  rewrite (map_nth_error record_of _ _ Hst). unfold ret at 1.
  unfold bind at 1. unfold highlight_step. rewrite itemconfig_spec by assumption.
  set (sy := push_event (EvMark i Yellow)
               (set_listbox (set_nth (listbox s) i Yellow) s)).
  destruct (root_update_ticks (List.length (timers sy)) fuel sy)
    as (s1 & E1 & Hcalm & Hnow & Hsort & Hticks).
  { apply due_count_le. } { exact Hfuel. } { exact Hc. }
  unfold bind at 1. rewrite E1.
  unfold bind at 1. rewrite step_command_record_of.
  destruct (calm_port_some sy s1 p Hcalm Ha) as (p1 & Ha1 & Ho1 & Hf1).
  destruct (send_to_arduino_spec (frame_of st) s1 p1 Ha1) as (p2 & E2 & Ho2 & Hf2 & _).
  unfold bind at 1. rewrite E2.
  unfold bind at 1. rewrite item_record_duration.
  unfold bind at 1. unfold after_seconds at 1, after at 1.
  unfold bind at 1. unfold modify at 1.
  unfold bind at 1. rewrite item_record_duration.
  unfold bind at 1. unfold after_seconds at 1, after at 1.
  unfold modify.
  eexists. exists p2. eexists. eexists. eexists.
  split; [reflexivity|].
  cbn [queue listbox experiment_running run_button buttons_placed arduino
       timers scheduled_tasks trace next_id now
       set_queue set_listbox set_experiment_running set_arduino set_timers
       set_scheduled_tasks set_trace set_next_id set_now push_event].
  pose proof (calm_chain _ _ Hcalm) as Hch. simpl in Hch.
  repeat split.
  - now rewrite (calm_queue _ _ Hcalm).
  - rewrite (calm_listbox _ _ Hcalm). simpl. apply length_set_nth.
  - now rewrite (calm_running _ _ Hcalm).
  - now rewrite (calm_button _ _ Hcalm).
  - now rewrite (calm_placed _ _ Hcalm).
  - congruence.
  - rewrite Hf2, Ho1, Hf1. reflexivity.
  - apply chain_insert_pair; try reflexivity. now rewrite Hch.
  - rewrite (calm_tasks _ _ Hcalm). simpl. now rewrite <- List.app_assoc.
  - intros Hs. apply sorted_insert, sorted_insert, Hsort. exact Hs.
  - rewrite !ticks_insert_chain by reflexivity. exact Hticks.
  - rewrite visible_app. rewrite (calm_visible _ _ Hcalm). unfold sy. simpl.
    rewrite visible_app. simpl. rewrite Ho1, Hf1, <- List.app_assoc.
    f_equal. simpl. f_equal.
    destruct (p_open p); [destruct (p_fail p) as [|[|] ?]|]; reflexivity.
Qed.

(** [process_step(idx)] past the last step: the sentinel goes to the
    device, the run is reported finished, the rows are reset and the phase
    is idle again. *)
Lemma process_step_ends (update : M unit) (i : nat) (s : state) (p : port) :
  (List.length (queue s) <= i)%nat ->
  List.length (listbox s) = List.length (queue s) ->
  arduino s = Some p ->
  exists s' p',
    process_step update i s = Done tt s' /\
    queue s' = queue s /\
    List.length (listbox s') = List.length (listbox s) /\
    experiment_running s' = false /\
    run_button s' = RunRole /\
    buttons_placed s' = true /\
    arduino s' = Some p' /\ p_open p' = p_open p /\
    p_fail p' = plan_after (p_open p) (p_fail p) /\
    timers s' = timers s /\
    scheduled_tasks s' = scheduled_tasks s /\
    trace s' = trace s
      ++ [outcome_of_write (p_open p) (p_fail p) sentinel; EvDialog DlgFinished]
      ++ map (fun k => EvMark k White) (seq 0 (List.length (queue s))).
Proof.
  intros Hi Hrows Ha.
  unfold process_step.
  unfold bind at 1. unfold gets at 1.
  apply Nat.leb_le in Hi. rewrite Hi.
  destruct (send_to_arduino_spec sentinel s p Ha) as (p2 & E2 & Ho2 & Hf2 & _).
  unfold bind at 1. fold sentinel. rewrite E2.
  unfold bind at 1. unfold messagebox at 1, emit at 1, modify at 1.
  unfold bind at 1.
  match goal with
  | |- context [reset_step_colors ?x] =>
      destruct (reset_step_colors_spec x) as (rows & Hl & E3);
      [exact Hrows|]
  end.
  rewrite E3.
  unfold bind, modify, show_buttons_after_experiment, modify.
  eexists. exists p2. split; [reflexivity|].
  simpl. repeat split; auto.
  rewrite <- !List.app_assoc. reflexivity.
Qed.

(** ** The invariant of a playback *)

Lemma alternation_S (n : nat) :
  alternation (S n) = alternation n ++ [EvMark n Yellow; EvMark n Green].
Proof.
  unfold alternation. rewrite seq_S, flat_map_app. simpl. reflexivity.
Qed.

Lemma transmit_log_app (opened : bool) (a b : list string) :
  forall plan,
    transmit_log opened plan (a ++ b)
    = transmit_log opened plan a
        ++ transmit_log opened
             (Nat.iter (List.length a) (plan_after opened) plan) b.
Proof.
  induction a as [|c a IH]; intros plan; simpl; [reflexivity|].
  rewrite IH. f_equal. f_equal. f_equal.
  clear. induction (List.length a) as [|n IHn]; simpl; [reflexivity|].
  now rewrite IHn.
Qed.

Lemma firstn_S_nth {A : Type} (l : list A) (i : nat) (x : A) :
  nth_error l i = Some x -> firstn (S i) l = firstn i l ++ [x].
Proof.
  revert i. induction l as [|y l IH]; intros [|i] H; simpl in *; try discriminate.
  - now injection H as ->.
  - now rewrite (IH i H).
Qed.

Lemma length_commands_playing (pb : playback) (i : nat) :
  (i < List.length (pb_steps pb))%nat ->
  List.length (map frame_of (firstn (S i) (pb_steps pb))) = S i.
Proof. intros H. rewrite length_map, length_firstn. lia. Qed.

Lemma progress_of_io (e : event) :
  (match e with EvWrite _ | EvDialog _ => True | _ => False end) ->
  progress [e] = [].
Proof. destruct e; simpl; tauto. Qed.

Lemma outcome_of_write_io (o : bool) (pl : list bool) (c : string) :
  io [outcome_of_write o pl c] = [outcome_of_write o pl c] /\
  progress [outcome_of_write o pl c] = [].
Proof. destruct o; [destruct pl as [|[|] ?]|]; simpl; auto. Qed.

(** A tick keeps the playback at its phase. *)
Lemma at_phase_calm (pb : playback) (ph : phase) (s s' : state) :
  at_phase pb ph s -> calm s s' ->
  sorted_by_due (timers s') = true ->
  (List.length (ticks (timers s')) <= pb_ticks pb)%nat ->
  at_phase pb ph s'.
Proof.
  intros [Hidx Hq Hrows (p & Ha & Ho & Hf) Hrun Hbut Hpl Hsort Htr Htk Hch Hm Hio]
         Hc Hs Ht.
  destruct (calm_port_some s s' p Hc Ha) as (p' & Ha' & Ho' & Hf').
  destruct Hc as [Cq Cl Cr Cs Ct Cp Cb Cpl Cch Cv].
  constructor; try congruence.
  - exists p'. repeat split; congruence.
  - rewrite Cch, Ct. assumption.
  - rewrite <- progress_visible, Cv, progress_visible. assumption.
  - rewrite <- io_visible, Cv, io_visible. assumption.
Qed.

Lemma chain_cons_chain (t : timer) (l : list timer) :
  is_chain t = true -> chain (t :: l) = t :: chain l.
Proof. intros H. unfold chain. simpl. now rewrite H. Qed.

Lemma ticks_cons_chain (t : timer) (l : list timer) :
  is_chain t = true -> ticks (t :: l) = ticks l.
Proof. intros H. unfold ticks. simpl. now rewrite H. Qed.

(** A turn whose timer is a tick. *)
Lemma step_tick (pb : playback) (ph : phase) (fuel : nat) (s : state)
    (t : timer) (rest : list timer) :
  at_phase pb ph s -> timers s = t :: rest -> is_chain t = false ->
  exists s',
    mainloop_step fuel s = Done tt s' /\ at_phase pb ph s' /\ calm s s' /\
    tick_effect (Z.max (now s) (t_due t)) rest (timers s').
Proof.
  intros Hat Et Ht.
  destruct (mainloop_step_tick fuel s t rest Et Ht) as (s' & E & Hc & Heff).
  exists s'. split; [exact E|]. split; [|split; assumption].
  apply (at_phase_calm pb ph s s' Hat Hc).
  - eapply sorted_tick_effect; [exact Heff|].
    eapply sorted_tail. rewrite <- Et. apply (ap_sorted _ _ _ Hat).
  - pose proof (ap_ticks _ _ _ Hat) as H. rewrite Et in H.
    rewrite ticks_cons_tick in H by assumption. simpl in H.
    apply ticks_tick_effect in Heff. lia.
Qed.

(** The turn that marks step [i] completed. *)
Lemma step_mark (pb : playback) (i : nat) (fuel : nat) (s : state)
    (t : timer) (rest : list timer) :
  at_phase pb (Marked i) s -> timers s = t :: rest -> is_chain t = true ->
  exists s',
    mainloop_step fuel s = Done tt s' /\ at_phase pb (Advancing i) s'.
Proof.
  intros [Hidx Hq Hrows (p & Ha & Ho & Hf) Hrun Hbut Hpl Hsort Htr Htk Hch Hm Hio]
         Et Ht.
  rewrite Et in *. rewrite chain_cons_chain in Hch, Htr by assumption.
  destruct Hch as (a & b & due & Hch). injection Hch as -> Hrest.
  unfold mainloop_step. rewrite Et. cbn [t_cb dispatch].
  unfold guarded, try_except, highlight_step.
  rewrite itemconfig_spec by (simpl; lia).
  eexists. split; [reflexivity|].
  constructor; simpl.
  - exact Hidx.
  - exact Hq.
  - rewrite length_set_nth. exact Hrows.
  - exists p. auto.
  - exact Hrun.
  - exact Hbut.
  - exact Hpl.
  - eapply sorted_tail; exact Hsort.
  - intros u Hu. apply Htr. now right.
  - rewrite ticks_cons_chain in Htk by assumption. exact Htk.
  - rewrite Hrest. now exists b, due.
  - rewrite progress_app, Hm. simpl. rewrite alternation_S.
    now rewrite <- !List.app_assoc.
  - rewrite io_app, Hio. simpl. now rewrite List.app_nil_r.
Qed.

(** The turn that advances past step [i]: the next step starts, or the
    run ends. *)
Lemma step_advance (pb : playback) (i : nat) (fuel : nat) (s : state)
    (t : timer) (rest : list timer) :
  at_phase pb (Advancing i) s -> timers s = t :: rest -> is_chain t = true ->
  (pb_ticks pb < fuel)%nat ->
  exists s' ph',
    mainloop_step fuel s = Done tt s' /\ at_phase pb ph' s' /\
    (ph' = Marked (S i) \/ ph' = Over).
Proof.
  intros [Hidx Hq Hrows (p & Ha & Ho & Hf) Hrun Hbut Hpl Hsort Htr Htk Hch Hm Hio]
         Et Ht Hfuel.
  rewrite Et in *. rewrite chain_cons_chain in Hch, Htr by assumption.
  rewrite ticks_cons_chain in Htk by assumption.
  destruct Hch as (b & due & Hch). injection Hch as -> Hrest.
  unfold mainloop_step. rewrite Et. cbn [t_cb t_due dispatch].
  set (s1 := set_now (Z.max (now s) due) (set_timers rest s)).
  cbn [commands_of] in Hf. rewrite length_commands_playing in Hf by assumption.
  destruct (Nat.lt_ge_cases (S i) (List.length (pb_steps pb))) as [Hlt|Hge].
  - destruct (nth_error (pb_steps pb) (S i)) as [st|] eqn:Est;
      [|apply nth_error_None in Est; lia].
    destruct (process_step_plays fuel (pb_steps pb) (S i) st s1 p)
      as (s' & p' & a & c & d & E & Hq' & Hl' & Hr' & Hb' & Hp' & Ha' & Ho' & Hf'
          & Hc' & Ht' & Hs' & Hk' & Hv'); auto.
    { simpl. lia. }
    { simpl. rewrite <- (all_ticks_length rest Hrest). lia. }
    subst s1. simpl in Hq', Hl', Hr', Hb', Hp', Ht', Hs', Hk', Hv'.
    exists s', (Marked (S i)). unfold guarded, try_except. rewrite E.
    split; [reflexivity|]. split; [|now left].
    constructor; cbn [commands_of marks_of is_over negb].
    + exact Hlt.
    + congruence.
    + rewrite Hl'. exact Hrows.
    + exists p'. repeat split; auto; try congruence.
      rewrite length_commands_playing by assumption.
      rewrite Hf', Ho, Hf. reflexivity.
    + rewrite Hr'. exact Hrun.
    + rewrite Hb'. exact Hbut.
    + rewrite Hp'. exact Hpl.
    + apply Hs'. simpl. eapply sorted_tail; exact Hsort.
    + rewrite Hc', Ht'. intros u [<-|[<-|[]]]; apply in_or_app; right; simpl; auto.
    + simpl in Hk'. lia.
    + rewrite Hc'. now exists a, c, d.
    + rewrite <- progress_visible, Hv', progress_app, progress_visible.
      cbn [marks_of] in Hm. rewrite Hm.
      destruct (outcome_of_write_io (p_open p) (p_fail p) (frame_of st)) as [_ Hp].
      change (progress [EvMark (S i) Yellow; ?e])
        with (EvMark (S i) Yellow :: progress [e]).
      rewrite Hp. now rewrite <- List.app_assoc.
    + rewrite <- io_visible, Hv', io_app, io_visible.
      rewrite Hio.
      destruct (outcome_of_write_io (p_open p) (p_fail p) (frame_of st)) as [Hp _].
      change (io [EvMark (S i) Yellow; ?e]) with (io [e]).
      rewrite Hp, <- List.app_assoc. f_equal.
      unfold io_of. cbn [commands_of]. rewrite !List.app_nil_r.
      rewrite (firstn_S_nth _ _ _ Est), map_app, transmit_log_app.
      rewrite length_commands_playing by assumption.
      simpl. rewrite Ho, Hf. reflexivity.
  - assert (Hlen : S i = List.length (pb_steps pb)) by lia.
    destruct (process_step_ends (root_update fuel) (S i) s1 p)
      as (s' & p' & E & Hq' & Hl' & Hr' & Hb' & Hp' & Ha' & Ho' & Hf'
          & Ht' & Hk' & Htrace); auto.
    { simpl. rewrite Hq, length_map. lia. }
    { simpl. rewrite Hq, length_map. exact Hrows. }
    subst s1. simpl in Hq', Hl', Hr', Hb', Hp', Ht', Hk'.
    cbn [trace queue set_now set_timers] in Htrace.
    exists s', Over. unfold guarded, try_except. rewrite E.
    split; [reflexivity|]. split; [|now right].
    rewrite Hq, length_map in Htrace.
    constructor; cbn [commands_of marks_of is_over negb].
    + exact I.
    + congruence.
    + rewrite Hl'. exact Hrows.
    + exists p'. repeat split; auto; try congruence.
      rewrite length_app, length_map. simpl.
      rewrite Hf', Ho, Hf, <- Hlen, Nat.add_1_r. reflexivity.
    + exact Hr'.
    + exact Hb'.
    + exact Hp'.
    + rewrite Ht'. simpl. eapply sorted_tail; exact Hsort.
    + rewrite Ht'. simpl. rewrite Hrest. intros u [].
    + rewrite Ht'. simpl. exact Htk.
    + rewrite Ht'. simpl. exact Hrest.
    + rewrite Htrace.
      change [outcome_of_write (p_open p) (p_fail p) sentinel; EvDialog DlgFinished]
        with ([outcome_of_write (p_open p) (p_fail p) sentinel] ++ [EvDialog DlgFinished]).
      rewrite !progress_app, progress_whites, Hm. cbn [marks_of].
      destruct (outcome_of_write_io (p_open p) (p_fail p) sentinel) as [_ Hp].
      rewrite Hp, Hlen. simpl. now rewrite !List.app_nil_r.
    + rewrite Htrace.
      change [outcome_of_write (p_open p) (p_fail p) sentinel; EvDialog DlgFinished]
        with ([outcome_of_write (p_open p) (p_fail p) sentinel] ++ [EvDialog DlgFinished]).
      rewrite !io_app, io_whites, Hio.
      destruct (outcome_of_write_io (p_open p) (p_fail p) sentinel) as [Hp _].
      rewrite Hp, List.app_nil_r, <- List.app_assoc. f_equal.
      change (io [EvDialog DlgFinished]) with [EvDialog DlgFinished].
      unfold io_of. cbn [commands_of]. rewrite List.app_nil_r.
      rewrite transmit_log_app, length_map. cbn [transmit_log].
      rewrite Hlen, firstn_all, <- List.app_assoc. cbn [app].
      rewrite Ho, Hf, Hlen. reflexivity.
Qed.

(** ** The start of a run *)

Lemma length_insert_timer (t : timer) (l : list timer) :
  List.length (insert_timer t l) = S (List.length l).
Proof.
  induction l as [|u l IH]; simpl; [reflexivity|].
  destruct (t_due t <? t_due u); simpl; now rewrite ?IH.
Qed.

Lemma update_time_label_running (s : state) (t0 : Z) :
  experiment_running s = true -> start_time s = Some t0 ->
  exists e,
    observable e = false /\
    update_time_label s
      = Done tt (set_timers
                   (insert_timer (mkTimer (next_id s) (now s + 1000) CbTimeLabel)
                      (timers s))
                   (set_next_id (S (next_id s)) (push_event e s))).
Proof.
  intros Hr Hs. unfold update_time_label, bind, gets. rewrite Hr, Hs.
  eexists. split; [|reflexivity]. reflexivity.
Qed.

(** [run_experiment()] on a queue of steps: the first step is in
    progress. *)
Lemma run_experiment_starts (fuel : nat) (sts : list Step) (s : state) :
  ready sts s -> (S (List.length (timers s)) < fuel)%nat ->
  exists s',
    run_experiment (root_update fuel) s = Done tt s' /\
    at_phase (playback_of sts s) (Marked 0) s'.
Proof.
  intros [Hne Hq Hrows Hport Hchain Hsorted] Hfuel.
  destruct (arduino s) as [p|] eqn:Ha; [clear Hport|congruence].
  destruct (nth_error sts 0) as [st|] eqn:Est;
    [|destruct sts; [congruence|discriminate]].
  unfold run_experiment.
  unfold bind at 1. unfold modify at 1.
  unfold bind at 1. unfold gets at 1.
  cbn [queue set_scheduled_tasks]. rewrite Hq.
  destruct (map record_of sts) as [|r q'] eqn:Em;
    [apply map_eq_nil in Em; congruence|]. cbv iota. rewrite <- Em.
  set (s0 := set_scheduled_tasks [] s).
  set (sa := set_start_time (Some (now s0)) (set_experiment_running true s0)).
  destruct (sum_durations_record_of sts 0 sa) as (total & Esum).
  destruct (update_time_label_running sa (now s0) eq_refl eq_refl)
    as (e & He & Elabel).
  set (sb := set_run_button StopRole
               (set_buttons_placed false
                  (set_timers
                     (insert_timer (mkTimer (next_id sa) (now sa + 1000) CbTimeLabel)
                        (timers sa))
                     (set_next_id (S (next_id sa)) (push_event e sa))))).
  destruct (process_step_plays fuel sts 0 st sb p)
    as (s' & p' & a & c & d & E & Hq' & Hl' & Hr' & Hb' & Hp' & Ha' & Ho' & Hf'
        & Hc' & Ht' & Hs' & Hk' & Hv').
  { simpl. congruence. }
  { exact Est. }
  { simpl. destruct sts; [congruence|]. simpl in Hrows. lia. }
  { exact Ha. }
  { simpl. rewrite chain_insert_tick by reflexivity. exact Hchain. }
  { simpl. rewrite length_insert_timer. exact Hfuel. }
  exists s'. split.
  - unfold try_except.
    unfold bind at 1. unfold modify at 1.
    unfold bind at 1. unfold gets at 1.
    unfold bind at 1. unfold modify at 1.
    change (set_start_time _ (set_experiment_running true _)) with sa.
    unfold bind at 1. rewrite Esum.
    unfold bind at 1. rewrite Elabel.
    unfold bind at 1. unfold hide_buttons_except_stop, modify at 1.
    unfold bind at 1. unfold modify at 1.
    fold sb. rewrite E. reflexivity.
  - subst sb sa s0. simpl in Hq', Hl', Hr', Hb', Hp', Ht', Hs', Hk', Hv'.
    unfold playback_of. rewrite Ha.
    constructor; cbn [pb_steps pb_opened pb_plan pb_marks pb_io pb_ticks
                      commands_of marks_of is_over negb].
    + destruct sts; [congruence|simpl; lia].
    + congruence.
    + congruence.
    + exists p'. repeat split; auto.
      rewrite (firstn_S_nth _ _ _ Est). simpl. unfold plan_at. simpl.
      exact Hf'.
    + exact Hr'.
    + exact Hb'.
    + exact Hp'.
    + apply Hs'. now apply sorted_insert.
    + rewrite Hc', Ht'. simpl. intros u [<-|[<-|[]]]; simpl; auto.
    + rewrite ticks_insert_tick in Hk' by reflexivity.
      pose proof (length_filter_le (fun t => negb (is_chain t)) (timers s)).
      unfold ticks in *. lia.
    + rewrite Hc'. now exists a, c, d.
    + rewrite <- progress_visible, Hv', progress_app.
      rewrite (visible_quiet _ _ He), progress_visible.
      destruct (outcome_of_write_io (p_open p) (p_fail p) (frame_of st)) as [_ Hp].
      change (progress [EvMark 0 Yellow; ?x])
        with (EvMark 0 Yellow :: progress [x]).
      rewrite Hp. reflexivity.
    + rewrite <- io_visible, Hv', io_app.
      rewrite (visible_quiet _ _ He), io_visible.
      destruct (outcome_of_write_io (p_open p) (p_fail p) (frame_of st)) as [Hp _].
      change (io [EvMark 0 Yellow; ?x]) with (io [x]).
      rewrite Hp. f_equal. unfold io_of. cbn [commands_of pb_steps].
      rewrite (firstn_S_nth _ _ _ Est). simpl. reflexivity.
Qed.

(** ** Every turn of the main loop keeps the invariant *)

Lemma mainloop_step_at_phase (pb : playback) (ph : phase) (fuel : nat) (s : state) :
  at_phase pb ph s -> (pb_ticks pb < fuel)%nat ->
  exists s' ph',
    mainloop_step fuel s = Done tt s' /\ at_phase pb ph' s' /\
    ((rank pb ph' < rank pb ph)%nat \/
     (ph' = ph /\ (ph = Over \/ (wait (timers s') < wait (timers s))%nat))).
Proof.
  intros Hat Hfuel.
  destruct (timers s) as [|t rest] eqn:Et.
  - exists s, ph. split; [unfold mainloop_step; now rewrite Et|].
    split; [exact Hat|]. right. split; [reflexivity|]. left.
    pose proof (ap_chain _ _ _ Hat) as Hc. rewrite Et in Hc.
    destruct ph as [i|i|]; [| |reflexivity]; simpl in Hc.
    + destruct Hc as (a & b & d & Hc). discriminate.
    + destruct Hc as (b & d & Hc). discriminate.
  - destruct (is_chain t) eqn:Ht.
    + pose proof (ap_index _ _ _ Hat) as Hidx.
      destruct ph as [i|i|].
      * destruct (step_mark pb i fuel s t rest Hat Et Ht) as (s' & E & Hat').
        exists s', (Advancing i). split; [exact E|]. split; [exact Hat'|].
        left. simpl. lia.
      * destruct (step_advance pb i fuel s t rest Hat Et Ht Hfuel)
          as (s' & ph' & E & Hat' & [-> | ->]).
        -- exists s', (Marked (S i)). split; [exact E|]. split; [exact Hat'|].
           left. simpl. lia.
        -- exists s', Over. split; [exact E|]. split; [exact Hat'|].
           left. simpl. lia.
      * pose proof (ap_chain _ _ _ Hat) as Hc. rewrite Et in Hc.
        rewrite chain_cons_chain in Hc by assumption. discriminate.
    + destruct (step_tick pb ph fuel s t rest Hat Et Ht)
        as (s' & E & Hat' & Hcalm & Heff).
      exists s', ph. split; [exact E|]. split; [exact Hat'|].
      right. split; [reflexivity|].
      destruct ph as [i|i|]; [right|right|now left].
      * pose proof (ap_chain _ _ _ Hat) as Hc. destruct Hc as (a & b & d & Hc).
        unfold wait, horizon. rewrite (calm_chain _ _ Hcalm), Et.
        rewrite Et, chain_cons_tick in Hc by assumption.
        rewrite chain_cons_tick by assumption. rewrite Hc.
        eapply (lag_tick_effect _ t _ rest); eauto.
        -- rewrite <- Et. apply (ap_sorted _ _ _ Hat).
        -- lia.
      * pose proof (ap_chain _ _ _ Hat) as Hc. destruct Hc as (b & d & Hc).
        unfold wait, horizon. rewrite (calm_chain _ _ Hcalm), Et.
        rewrite Et, chain_cons_tick in Hc by assumption.
        rewrite chain_cons_tick by assumption. rewrite Hc.
        eapply (lag_tick_effect _ t _ rest); eauto.
        -- rewrite <- Et. apply (ap_sorted _ _ _ Hat).
        -- lia.
Qed.

(** At every turn the playback is at one of its phases. *)
Lemma mainloop_at_phase (pb : playback) (fuel : nat) (turns : nat) :
  forall (ph : phase) (s : state),
    at_phase pb ph s -> (pb_ticks pb < fuel)%nat ->
    exists s' ph', mainloop turns fuel s = Done tt s' /\ at_phase pb ph' s'.
Proof.
  induction turns as [|n IH]; intros ph s Hat Hfuel.
  - exists s, ph. now split.
  - destruct (mainloop_step_at_phase pb ph fuel s Hat Hfuel)
      as (s1 & ph1 & E1 & Hat1 & _).
    destruct (IH ph1 s1 Hat1 Hfuel) as (s2 & ph2 & E2 & Hat2).
    exists s2, ph2. split; [|exact Hat2].
    cbn [mainloop]. unfold bind. now rewrite E1.
Qed.

(** The playback reaches its end. *)
Lemma mainloop_reaches_over (pb : playback) (fuel : nat) :
  (pb_ticks pb < fuel)%nat ->
  forall (r w : nat) (ph : phase) (s : state),
    (rank pb ph <= r)%nat -> (wait (timers s) <= w)%nat -> at_phase pb ph s ->
    exists turns s', mainloop turns fuel s = Done tt s' /\ at_phase pb Over s'.
Proof.
  intros Hfuel r. induction r as [r IHr] using lt_wf_ind.
  intros w. induction w as [w IHw] using lt_wf_ind.
  intros ph s Hr Hw Hat.
  destruct ph as [i|i|] eqn:Eph;
    [| |now exists O, s].
  all: destruct (mainloop_step_at_phase pb _ fuel s Hat Hfuel)
      as (s1 & ph1 & E1 & Hat1 & Hprog).
  all: assert (Hgo : exists turns s', mainloop turns fuel s1 = Done tt s' /\
                       at_phase pb Over s').
  1, 3: destruct Hprog as [Hlt | [-> [Hov | Hlt]]]; try discriminate;
      [ eapply (IHr (rank pb ph1)); [lia| | |exact Hat1]; eauto
      | eapply (IHw (wait (timers s1))); [lia| | |exact Hat1]; eauto ].
  all: destruct Hgo as (turns & s' & E & Hover);
    exists (S turns), s'; split; [|exact Hover];
    cbn [mainloop]; unfold bind; now rewrite E1.
Qed.

(** ** A run from its start *)

Lemma playback_at_phase (sts : list Step) (s : state) (fuel turns : nat) :
  ready sts s -> (S (List.length (timers s)) < fuel)%nat ->
  exists s' ph,
    (run_experiment (root_update fuel) ;; mainloop turns fuel) s = Done tt s' /\
    at_phase (playback_of sts s) ph s'.
Proof.
  intros Hr Hfuel.
  destruct (run_experiment_starts fuel sts s Hr Hfuel) as (s1 & E1 & Hat1).
  assert (Hf : (pb_ticks (playback_of sts s) < fuel)%nat).
  { unfold playback_of. destruct (arduino s); exact Hfuel. }
  destruct (mainloop_at_phase _ fuel turns _ s1 Hat1 Hf) as (s2 & ph & E2 & Hat2).
  exists s2, ph. split; [|exact Hat2]. unfold bind. now rewrite E1.
Qed.

Lemma playback_reaches_over (sts : list Step) (s : state) (fuel : nat) :
  ready sts s -> (S (List.length (timers s)) < fuel)%nat ->
  exists turns s',
    (run_experiment (root_update fuel) ;; mainloop turns fuel) s = Done tt s' /\
    at_phase (playback_of sts s) Over s'.
Proof.
  intros Hr Hfuel.
  destruct (run_experiment_starts fuel sts s Hr Hfuel) as (s1 & E1 & Hat1).
  assert (Hf : (pb_ticks (playback_of sts s) < fuel)%nat).
  { unfold playback_of. destruct (arduino s); exact Hfuel. }
  destruct (mainloop_reaches_over _ fuel Hf _ _ _ s1 (le_n _) (le_n _) Hat1)
    as (turns & s2 & E2 & Hat2).
  exists turns, s2. split; [|exact Hat2]. unfold bind. now rewrite E1.
Qed.

Lemma writes_io (tr : list event) : writes (io tr) = writes tr.
Proof.
  induction tr as [|e tr IH]; simpl; [reflexivity|].
  destruct e; simpl; now rewrite ?IH.
Qed.

Lemma writes_map_EvWrite (l : list string) : writes (map EvWrite l) = l.
Proof. induction l; simpl; now rewrite ?IHl. Qed.

Lemma transmit_log_healthy (commands : list string) :
  forall plan,
    Forall (fun fails => fails = false) plan ->
    transmit_log true plan commands = map EvWrite commands.
Proof.
  induction commands as [|c cs IH]; intros plan Hp; simpl; [reflexivity|].
  destruct Hp as [|b plan Hb Hp]; simpl.
  - f_equal. apply IH. constructor.
  - subst b. f_equal. apply IH. exact Hp.
Qed.

(** C1. A run of a non-empty queue on a healthy device, left to itself,
    comes to its end: the frames of the steps have gone to the device, one
    per step and in the order of the queue, then the sentinel once, then
    the run was reported finished, and the phase is idle again. *)
Theorem run_transmits_every_step_then_the_sentinel :
  forall (sts : list Step) (s : state) (p : port),
    ready sts s -> arduino s = Some p -> healthy p ->
    exists turns fuel s',
      (run_experiment (root_update fuel) ;; mainloop turns fuel) s = Done tt s' /\
      writes (trace s') = writes (trace s) ++ map frame_of sts ++ [sentinel] /\
      io (trace s')
        = io (trace s) ++ map EvWrite (map frame_of sts)
            ++ [EvWrite sentinel; EvDialog DlgFinished] /\
      experiment_running s' = false /\
      run_button s' = RunRole /\
      chain (timers s') = [].
Proof.
  intros sts s p Hr Ha [Ho Hp].
  destruct (playback_reaches_over sts s (S (S (List.length (timers s)))) Hr)
    as (turns & s' & E & Hat); [lia|].
  exists turns, (S (S (List.length (timers s)))), s'. split; [exact E|].
  destruct Hat as [_ _ _ _ Hrun Hbut _ _ _ _ Hch _ Hio].
  unfold playback_of in Hio. rewrite Ha in Hio.
  unfold io_of in Hio. cbn [pb_io pb_opened pb_plan commands_of pb_steps] in Hio.
  rewrite Ho, (transmit_log_healthy _ _ Hp), map_app in Hio. simpl in Hio.
  rewrite <- List.app_assoc in Hio. simpl in Hio.
  assert (Hio' : io (trace s')
                 = io (trace s) ++ map EvWrite (map frame_of sts)
                     ++ [EvWrite sentinel; EvDialog DlgFinished]) by exact Hio.
  repeat split; auto.
  rewrite <- writes_io, Hio', !writes_app, writes_io, writes_map_EvWrite.
  reflexivity.
Qed.

Lemma demo_state_ready : ready demo_queue demo_state.
Proof. constructor; try reflexivity; discriminate. Qed.


Lemma run_transmits_every_step_then_the_sentinel_witness :
  ready demo_queue demo_state /\
  exists turns fuel s',
    (run_experiment (root_update fuel) ;; mainloop turns fuel) demo_state
      = Done tt s' /\
    writes (trace s') = writes (trace demo_state)
                          ++ map frame_of demo_queue ++ [sentinel].
Proof.
  split; [exact demo_state_ready|].
  destruct (run_transmits_every_step_then_the_sentinel
              demo_queue demo_state healthy_port demo_state_ready eq_refl
              (conj eq_refl (Forall_nil _)))
    as (turns & fuel & s' & E & Hw & _).
  exists turns, fuel, s'. now split.
Defined.

(** ** A write that fails *)




(** C10. A write that raises, or a port that is not open, makes
    [send_to_arduino] show an error dialog and return: nothing else of the
    state changes.  A step played on such a port still sets and records
    its two timers, so the run stays in its phase and goes on to the next
    step. *)
Theorem send_failure_never_reaches_the_scheduler :
  forall (command : string) (s : state) (p : port),
    arduino s = Some p ->
    (p_open p = false \/ exists plan, p_fail p = true :: plan) ->
    (exists s' d,
       send_to_arduino command s = Done tt s' /\
       trace s' = trace s ++ [EvDialog d] /\
       (d = DlgSendFailed \/ d = DlgNotConnected) /\
       experiment_running s' = experiment_running s /\
       queue s' = queue s /\
       timers s' = timers s /\
       scheduled_tasks s' = scheduled_tasks s) /\
    (forall (sts : list Step) (i : nat) (st : Step) (fuel : nat),
       queue s = map record_of sts -> nth_error sts i = Some st ->
       (i < List.length (listbox s))%nat ->
       chain (timers s) = [] -> (List.length (timers s) < fuel)%nat ->
       exists s' a b due,
         process_step (root_update fuel) i s = Done tt s' /\
         experiment_running s' = experiment_running s /\
         writes (trace s') = writes (trace s) /\
         chain (timers s')
           = [mkTimer a due (CbHighlight i Green);
              mkTimer b due (CbProcessStep (S i))] /\
         scheduled_tasks s' = scheduled_tasks s ++ [a; b]).
Proof.
  intros command s p Ha Hfail.
  assert (Hdlg : forall c, exists d,
             outcome_of_write (p_open p) (p_fail p) c = EvDialog d /\
             (d = DlgSendFailed \/ d = DlgNotConnected)).
  { intros c. unfold outcome_of_write.
    destruct Hfail as [-> | (plan & ->)].
    - exists DlgNotConnected. auto.
    - destruct (p_open p); [exists DlgSendFailed|exists DlgNotConnected]; auto. }
  split.
  - destruct (send_to_arduino_spec command s p Ha) as (p' & E & _).
    destruct (Hdlg command) as (d & Hd & Hor).
    eexists. exists d. split; [exact E|]. rewrite Hd. repeat split; auto.
  - intros sts i st fuel Hq Hst Hrow Hc Hfuel.
    destruct (process_step_plays fuel sts i st s p Hq Hst Hrow Ha Hc Hfuel)
      as (s' & p' & a & b & due & E & _ & _ & Hr & _ & _ & _ & _ & _
          & Hch & Hts & _ & _ & Hv).
    exists s', a, b, due. repeat split; auto.
    rewrite <- writes_visible, Hv, writes_app, writes_visible.
    destruct (Hdlg (frame_of st)) as (d & -> & _). simpl.
    now rewrite List.app_nil_r.
Qed.

Lemma send_failure_never_reaches_the_scheduler_witness :
  exists s' d,
    send_to_arduino sentinel faulty_state = Done tt s' /\
    trace s' = trace faulty_state ++ [EvDialog d] /\
    (d = DlgSendFailed \/ d = DlgNotConnected) /\
    experiment_running s' = experiment_running faulty_state /\
    queue s' = queue faulty_state /\
    timers s' = timers faulty_state /\
    scheduled_tasks s' = scheduled_tasks faulty_state.
Proof.
  exact (proj1 (send_failure_never_reaches_the_scheduler
                  sentinel faulty_state faulty_port eq_refl
                  (or_intror (ex_intro _ [] eq_refl)))).
Defined.

(** ** Stopping a run *)

Lemma set_timers_same (s : state) : set_timers (timers s) s = s.
Proof. now destruct s. Qed.

Lemma for_each_after_cancel (ids : list nat) :
  forall s : state,
    for_each ids after_cancel s
      = Done tt (set_timers (cancelled ids (timers s)) s).
Proof.
  induction ids as [|id ids IH]; intros s; cbn [for_each cancelled].
  - unfold ret. now rewrite set_timers_same.
  - unfold bind, after_cancel, modify. rewrite IH. reflexivity.
Qed.





(** With no timer of a playback pending, the main loop only ticks. *)
Lemma idle_forever (fuel turns : nat) :
  forall s : state,
    chain (timers s) = [] ->
    exists s', mainloop turns fuel s = Done tt s' /\ calm s s'.
Proof.
  induction turns as [|n IH]; intros s Hc.
  - exists s. split; [reflexivity|apply calm_refl].
  - cbn [mainloop]. unfold bind.
    destruct (timers s) as [|t rest] eqn:Et.
    + unfold mainloop_step at 1. rewrite Et.
      destruct (IH s) as (s' & E & Hcalm); [now rewrite Et|]. now exists s'.
    + apply is_chain_head_of_empty_chain in Hc as [Ht Hc].
      destruct (mainloop_step_tick fuel s t rest Et Ht) as (s1 & E1 & Hc1 & Heff).
      rewrite E1.
      destruct (IH s1) as (s' & E & Hcalm).
      { rewrite (calm_chain _ _ Hc1), Et. now rewrite chain_cons_tick. }
      exists s'. split; [exact E|]. eapply calm_trans; eassumption.
Qed.





(** ** The order of the markers *)

Lemma precedes_prefix {A : Type} (x y : A) (l l' : list A) :
  precedes x y (l ++ l') -> precedes x y l.
Proof.
  intros H l1 l2 E. apply (H l1 (l2 ++ l')).
  rewrite E, <- List.app_assoc. reflexivity.
Qed.

Lemma In_alternation_green (i n : nat) :
  (i < n)%nat -> In (EvMark i Green) (alternation n).
Proof.
  intros H. unfold alternation. apply in_flat_map. exists i. split.
  - apply in_seq. lia.
  - simpl. auto.
Qed.

Lemma alternation_order (n : nat) :
  forall (i : nat) (x : event) (l1 l2 : list event),
    alternation n = l1 ++ x :: l2 ->
    (x = EvMark i Green -> In (EvMark i Yellow) l1) /\
    (x = EvMark (S i) Yellow -> In (EvMark i Green) l1).
Proof.
  induction n as [|n IH]; intros i x l1 l2 E.
  - destruct l1; discriminate.
  - rewrite alternation_S in E.
    apply app_eq_app in E as (l & [[Ea Eb] | [Ea Eb]]).
    + destruct l as [|y l].
      * rewrite List.app_nil_r in Ea. subst l1.
        injection Eb as -> _. split; [discriminate|].
        intros [= ->]. apply In_alternation_green. lia.
      * injection Eb as -> _. apply (IH i y l1 l Ea).
    + subst l1. destruct l as [|y [|z [|? ?]]]; simpl in Eb.
      * injection Eb as <- _. split; [discriminate|].
        intros [= ->]. apply in_or_app. left. apply In_alternation_green. lia.
      * injection Eb as <- <- _. split.
        -- intros [= ->]. apply in_or_app. right. now left.
        -- discriminate.
      * discriminate.
      * discriminate.
Qed.

Lemma marks_of_order (pb : playback) (ph : phase) (i : nat) :
  precedes (EvMark i Yellow) (EvMark i Green) (marks_of pb ph) /\
  precedes (EvMark i Green) (EvMark (S i) Yellow) (marks_of pb ph).
Proof.
  assert (Hall : forall n,
             precedes (EvMark i Yellow) (EvMark i Green) (alternation n) /\
             precedes (EvMark i Green) (EvMark (S i) Yellow) (alternation n)).
  { intros n. split; intros l1 l2 E;
      now apply (alternation_order n i _ l1 l2 E). }
  destruct ph as [k|k|]; cbn [marks_of]; try apply Hall.
  destruct (Hall (S k)) as [H1 H2]. rewrite alternation_S in H1, H2.
  change [EvMark k Yellow; EvMark k Green]
    with ([EvMark k Yellow] ++ [EvMark k Green]) in H1, H2.
  rewrite List.app_assoc in H1, H2.
  split; eapply precedes_prefix; eassumption.
Qed.

(** C5. At every turn of a run, the markers the run has shown are in
    order: step [i] is marked completed only after it was marked in
    progress, and step [i+1] is marked in progress only after step [i] was
    marked completed, although the two timers of a step are due at the
    same time. *)
Theorem completed_marker_follows_in_progress_marker :
  forall (sts : list Step) (s : state) (fuel turns : nat),
    ready sts s -> (S (List.length (timers s)) < fuel)%nat ->
    exists s' shown,
      (run_experiment (root_update fuel) ;; mainloop turns fuel) s = Done tt s' /\
      progress (trace s') = progress (trace s) ++ shown /\
      forall i,
        precedes (EvMark i Yellow) (EvMark i Green) shown /\
        precedes (EvMark i Green) (EvMark (S i) Yellow) shown.
Proof.
  intros sts s fuel turns Hr Hfuel.
  destruct (playback_at_phase sts s fuel turns Hr Hfuel) as (s' & ph & E & Hat).
  exists s', (marks_of (playback_of sts s) ph). split; [exact E|]. split.
  - rewrite (ap_marks _ _ _ Hat). unfold playback_of.
    destruct (arduino s); reflexivity.
  - intros i. apply marks_of_order.
Qed.

Lemma completed_marker_follows_in_progress_marker_witness :
  ready demo_queue demo_state /\
  exists s' shown,
    (run_experiment (root_update 4) ;; mainloop 5 4) demo_state = Done tt s' /\
    progress (trace s') = progress (trace demo_state) ++ shown /\
    forall i,
      precedes (EvMark i Yellow) (EvMark i Green) shown /\
      precedes (EvMark i Green) (EvMark (S i) Yellow) shown.
Proof.
  split; [exact demo_state_ready|].
  exact (completed_marker_follows_in_progress_marker
           demo_queue demo_state 4%nat 5%nat demo_state_ready
           ltac:(simpl; lia)).
Defined.

(** ** Editing the queue during a run *)

Lemma itemconfig_frame (idx : nat) (c : color) (s : state) :
  ensures (itemconfig idx c s)
    (fun s' => queue s' = queue s /\
               experiment_running s' = experiment_running s).
Proof.
  unfold itemconfig, bind, gets, modify, emit, raise.
  destruct (idx <? List.length (listbox s))%nat; simpl; auto.
Qed.

Lemma fill_listbox_frame (q : list record) :
  forall (idx : nat) (s : state),
    ensures (fill_listbox idx q s)
      (fun s' => queue s' = queue s /\
                 experiment_running s' = experiment_running s).
Proof.
  induction q as [|step q IH]; intros idx s; cbn [fill_listbox].
  - simpl. auto.
  - unfold bind at 1. unfold item at 1.
    destruct (nth_error step 0); [|simpl; auto]. unfold ret at 1.
    unfold bind at 1. unfold item at 1.
    destruct (nth_error step 1); [|simpl; auto]. unfold ret at 1.
    unfold bind at 1. unfold modify at 1.
    unfold bind at 1.
    pose proof (itemconfig_frame idx White
                  (set_listbox (listbox s ++ [White]) s)) as H.
    destruct (itemconfig idx White (set_listbox (listbox s ++ [White]) s))
      as [[] s1|e s1|]; simpl in H; [|simpl; auto|contradiction].
    pose proof (IH (S idx) s1) as H1.
    destruct (fill_listbox (S idx) q s1); simpl in *; intuition congruence.
Qed.

Lemma update_queue_listbox_frame (s : state) :
  ensures (update_queue_listbox s)
    (fun s' => queue s' = queue s /\
               experiment_running s' = experiment_running s).
Proof.
  unfold update_queue_listbox.
  unfold bind at 1. unfold modify at 1.
  unfold bind at 1. unfold gets at 1. cbn [queue set_listbox].
  destruct (queue s) as [|r q] eqn:Eq.
  - simpl. rewrite Eq. auto.
  - pose proof (fill_listbox_frame (r :: q) 0 (set_listbox [] s)) as H.
    destruct (fill_listbox 0 (r :: q) (set_listbox [] s)); simpl in *;
      rewrite <- ?Eq; auto.
Qed.

(** Each callback of the add-step window appends the record of its step
    to the queue and leaves the phase alone. *)
Lemma add_step_appends (st : Step) (s : state) :
  ensures (add_step st s)
    (fun s' => queue s' = queue s ++ [record_of st] /\
               experiment_running s' = experiment_running s).
Proof.
  pose proof (update_queue_listbox_frame
                (set_queue (queue s ++ [record_of st]) s)) as H.
  destruct st; unfold add_step, add_step_to_queue;
    unfold bind at 1; unfold modify at 1; cbn [app record_of] in *;
    exact H.
Qed.




(** ** The sampler *)















(** ** Reading back what was written *)

Lemma append_assoc (a b c : string) : (a +++ b) +++ c = a +++ (b +++ c).
Proof. induction a as [|x a IH]; simpl; now rewrite ?IH. Qed.

Lemma append_nil_r (a : string) : a +++ EmptyString = a.
Proof. induction a as [|x a IH]; simpl; now rewrite ?IH. Qed.

Lemma lex_run_app (a b : string) :
  forall st,
    lex_run st (a +++ b)
    = match lex_run st a with
      | Some (toks, st') =>
          match lex_run st' b with
          | Some (more, st'') => Some (toks ++ more, st'')
          | None => None
          end
      | None => None
      end.
Proof.
  induction a as [|c a IH]; intros st; simpl.
  - destruct (lex_run st b) as [[more st'']|]; reflexivity.
  - destruct (lex_step st c) as [[toks st']|]; [|reflexivity].
    rewrite IH. destruct (lex_run st' a) as [[t1 st1]|]; [|reflexivity].
    destruct (lex_run st1 b) as [[t2 st2]|]; [|reflexivity].
    now rewrite List.app_assoc.
Qed.

(** Reading a text and then another. *)
Lemma lexes_to_app (a b : string) (ta tb : list token) :
  lexes_to a ta -> lexes_to b tb -> lexes_to (a +++ b) (ta ++ tb).
Proof.
  unfold lexes_to. intros Ha Hb. now rewrite lex_run_app, Ha, Hb.
Qed.

Lemma lexes_to_spaces (n : nat) : lexes_to (spaces n) [].
Proof.
  unfold lexes_to. induction n as [|n IH]; simpl; [reflexivity|].
  now rewrite IH.
Qed.

Lemma lexes_to_indent (n : nat) : lexes_to (nl +++ spaces n) [].
Proof.
  apply (lexes_to_app nl (spaces n) [] []); [reflexivity|apply lexes_to_spaces].
Qed.

(** One character of a string, as [json] writes it, is read back as that
    character. *)
Lemma lex_run_escape_char (c : ascii) (text : string) :
  lex_run (LexString text) (escape_char c)
  = Some ([], LexString (snoc text c)).
Proof.
  destruct c as [[] [] [] [] [] [] [] []]; reflexivity.
Qed.

Lemma snoc_append (text : string) (c : ascii) (s : string) :
  snoc text c +++ s = text +++ String c s.
Proof. unfold snoc. now rewrite append_assoc. Qed.

Lemma lex_run_escape (s : string) :
  forall text,
    lex_run (LexString text) (escape s)
    = Some ([], LexString (text +++ s)).
Proof.
  induction s as [|c s IH]; intros text; cbn [escape].
  - simpl. now rewrite append_nil_r.
  - rewrite lex_run_app, lex_run_escape_char, IH, snoc_append. reflexivity.
Qed.

Lemma lexes_to_string (s : string) : lexes_to (dump_value (VStr s)) [TStr s].
Proof.
  unfold lexes_to, dump_value.
  change (String quote (escape s +++ String quote EmptyString))
    with (String quote EmptyString +++ (escape s +++ String quote EmptyString)).
  rewrite lex_run_app.
  change (lex_run LexIdle (String quote EmptyString))
    with (Some (@nil token, LexString EmptyString)).
  cbv beta iota. rewrite lex_run_app, lex_run_escape. reflexivity.
Qed.

Lemma lex_run_digits (d : string) :
  forall text,
    all_digits d = true ->
    lex_run (LexNumber text) d = Some ([], LexNumber (text +++ d)).
Proof.
  induction d as [|c d IH]; intros text H; simpl.
  - now rewrite append_nil_r.
  - simpl in H. apply andb_true_iff in H as [Hc Hd].
    rewrite Hc, (IH _ Hd), snoc_append. reflexivity.
Qed.

Lemma idle_step_digit (c : ascii) :
  is_digit c = true ->
  idle_step c = Some ([], LexNumber (String c EmptyString)).
Proof.
  destruct c as [[] [] [] [] [] [] [] []]; simpl; intros H;
    first [reflexivity | discriminate H].
Qed.

Lemma lex_run_digits_from_idle (c : ascii) (rest : string) :
  is_digit c = true -> all_digits rest = true ->
  lex_run LexIdle (String c rest) = Some ([], LexNumber (String c rest)).
Proof.
  intros Hc Hr. cbn [lex_run lex_step].
  rewrite (idle_step_digit c Hc), (lex_run_digits rest _ Hr). reflexivity.
Qed.

(** The text of an integer is read as the digits of one number. *)
Lemma lex_run_int (n : Z) :
  lex_run LexIdle (str_of_int n) = Some ([], LexNumber (str_of_int n)).
Proof.
  destruct n as [|p|p].
  - reflexivity.
  - rewrite str_of_int_pos.
    destruct (to_uint_head p) as (c & rest & -> & Hc & _ & Hr).
    now apply lex_run_digits_from_idle.
  - rewrite str_of_int_neg.
    destruct (to_uint_head p) as (c & rest & -> & Hc & _ & Hr).
    change (String "-"%char (String c rest))
      with (String "-"%char EmptyString +++ String c rest).
    rewrite lex_run_app.
    change (lex_run LexIdle (String "-"%char EmptyString))
      with (Some (@nil token, LexNumber (String "-"%char EmptyString))).
    cbv beta iota.
    rewrite (lex_run_digits (String c rest)); [reflexivity|].
    simpl. now rewrite Hc, Hr.
Qed.

(** A value followed by a comma or a line feed. *)
Lemma lexes_value_then (v : value) (c : ascii) (rest : string)
    (tk toks : list token) :
  is_digit c = false -> idle_step c = Some (tk, LexIdle) ->
  lexes_to rest toks ->
  lexes_to (dump_value v +++ String c rest) (token_of v :: tk ++ toks).
Proof.
  intros Hc Hidle Hrest.
  assert (Hdelim : lexes_to (String c rest) (tk ++ toks)).
  { unfold lexes_to in *. cbn [lex_run lex_step]. now rewrite Hidle, Hrest. }
  destruct v as [n|s].
  - unfold lexes_to in *. cbn [dump_value token_of].
    rewrite lex_run_app, lex_run_int. cbn [lex_run lex_step].
    rewrite Hc, int_literal_str_of_int, Hidle, Hrest. reflexivity.
  - apply (lexes_to_app _ _ [TStr s] (tk ++ toks)); [|exact Hdelim].
    apply lexes_to_string.
Qed.

Lemma lexes_join_values (inner : string) (vs : list value) :
  forall (v : value) (tail : string) (tk : list token),
    lexes_to inner [] -> lexes_to tail tk ->
    lexes_to (join ("," +++ inner) (map dump_value (v :: vs))
                +++ String "010"%char tail)
      (token_of v :: more_fields vs ++ tk).
Proof.
  induction vs as [|w ws IH]; intros v tail tk Hinner Htail.
  - cbn [map join more_fields flat_map app].
    apply (lexes_value_then v "010"%char tail [] tk); auto.
  - change (join ("," +++ inner) (map dump_value (v :: w :: ws)))
      with (dump_value v +++ ("," +++ inner)
              +++ join ("," +++ inner) (map dump_value (w :: ws))).
    rewrite !append_assoc.
    change ("," +++ ?x) with (String ","%char x).
    change (more_fields (w :: ws)) with (TComma :: token_of w :: more_fields ws).
    apply (lexes_value_then v ","%char _ [TComma]
             (token_of w :: more_fields ws ++ tk)); auto.
    apply (lexes_to_app inner _ [] _ Hinner). now apply IH.
Qed.

Lemma lexes_record (r : record) :
  lexes_to (dump_list 1 (map dump_value r)) (record_tokens r).
Proof.
  destruct r as [|v vs]; [reflexivity|].
  change (lexes_to
            ("[" +++ (nl +++ spaces (4 * 2))
               +++ (join ("," +++ (nl +++ spaces (4 * 2)))
                      (map dump_value (v :: vs))
                      +++ String "010"%char (spaces (4 * 1) +++ "]")))
            ([TOpen] ++ [] ++ (token_of v :: more_fields vs ++ [TClose]))).
  apply lexes_to_app; [reflexivity|].
  apply lexes_to_app; [apply lexes_to_indent|].
  apply lexes_join_values; [apply lexes_to_indent|].
  apply (lexes_to_app (spaces (4 * 1)) "]" [] [TClose]);
    [apply lexes_to_spaces|reflexivity].
Qed.

Lemma lexes_join_records (rs : list record) :
  forall r : record,
    lexes_to (join ("," +++ nl +++ spaces 4)
                (map (fun r => dump_list 1 (map dump_value r)) (r :: rs)))
      (record_tokens r ++ more_records rs).
Proof.
  induction rs as [|r' rs IH]; intros r.
  - cbn [map join more_records flat_map]. rewrite List.app_nil_r.
    apply lexes_record.
  - change (join ?sep (map ?f (r :: r' :: rs)))
      with (f r +++ sep +++ join sep (map f (r' :: rs))).
    apply lexes_to_app; [apply lexes_record|].
    change (more_records (r' :: rs))
      with ([TComma] ++ (record_tokens r' ++ more_records rs)).
    apply lexes_to_app; [|apply IH].
    apply (lexes_to_app "," (nl +++ spaces 4) [TComma] []);
      [reflexivity|apply lexes_to_indent].
Qed.

(** The text [json.dump] writes for a queue is read as the tokens of the
    queue. *)
Lemma lex_json_dump (q : list record) : lex (json_dump q) = Some (queue_tokens q).
Proof.
  assert (H : lexes_to (json_dump q) (queue_tokens q)).
  { destruct q as [|r rs]; [reflexivity|].
    change (queue_tokens (r :: rs))
      with ([TOpen] ++ [] ++ (record_tokens r ++ (more_records rs ++ [TClose]))).
    rewrite (List.app_assoc (record_tokens r)).
    change (json_dump (r :: rs))
      with ("[" +++ (nl +++ spaces (4 * 1))
              +++ join ("," +++ nl +++ spaces 4)
                    (map (fun r => dump_list 1 (map dump_value r)) (r :: rs))
              +++ (nl +++ spaces (4 * 0) +++ "]")).
    apply lexes_to_app; [reflexivity|].
    apply lexes_to_app; [apply lexes_to_indent|].
    apply lexes_to_app; [apply lexes_join_records|reflexivity]. }
  unfold lex. unfold lexes_to in H. now rewrite H.
Qed.

Lemma parse_more_fields (vs : list value) :
  forall (done : list record) (cur : record) (rest : list token),
    parse PRecNext done cur (more_fields vs ++ TClose :: rest)
    = parse PTopNext (done ++ [cur ++ vs]) [] rest.
Proof.
  induction vs as [|v vs IH]; intros done cur rest.
  - simpl. now rewrite List.app_nil_r.
  - change (more_fields (v :: vs)) with (TComma :: token_of v :: more_fields vs).
    cbn [app parse].
    destruct v as [n|s]; cbn [token_of]; rewrite IH, <- List.app_assoc;
      reflexivity.
Qed.

Lemma parse_record (r : record) (st : parse_state) :
  st = PTopFirst \/ st = PTopComma ->
  forall (done : list record) (cur : record) (rest : list token),
    parse st done cur (record_tokens r ++ rest)
    = parse PTopNext (done ++ [r]) [] rest.
Proof.
  intros Hst done cur rest.
  destruct r as [|v vs].
  - destruct Hst as [-> | ->]; reflexivity.
  - cbn [record_tokens].
    assert (E : parse st done cur
                  ((TOpen :: token_of v :: more_fields vs ++ [TClose]) ++ rest)
                = parse PRecNext done [v] (more_fields vs ++ TClose :: rest)).
    { rewrite <- !List.app_comm_cons, <- List.app_assoc.
      destruct Hst as [-> | ->]; destruct v; reflexivity. }
    rewrite E. apply parse_more_fields.
Qed.

Lemma parse_more_records (rs : list record) :
  forall done : list record,
    parse PTopNext done [] (more_records rs ++ [TClose]) = Some (done ++ rs).
Proof.
  induction rs as [|r rs IH]; intros done.
  - simpl. now rewrite List.app_nil_r.
  - change (more_records (r :: rs))
      with ((TComma :: record_tokens r) ++ more_records rs).
    rewrite <- List.app_assoc, <- List.app_comm_cons. cbn [parse].
    rewrite (parse_record r PTopComma (or_intror eq_refl)), IH.
    now rewrite <- List.app_assoc.
Qed.

Lemma parse_queue_tokens (q : list record) :
  parse PStart [] [] (queue_tokens q) = Some q.
Proof.
  destruct q as [|r rs]; [reflexivity|].
  cbn [queue_tokens parse].
  rewrite (parse_record r PTopFirst (or_introl eq_refl)).
  apply (parse_more_records rs [r]).
Qed.

(** [json.load] gives back the queue [json.dump] wrote. *)
Lemma json_load_dump (q : list record) (s : state) :
  json_load (json_dump q) s = Done q s.
Proof.
  unfold json_load. now rewrite lex_json_dump, parse_queue_tokens.
Qed.

Lemma lookup_file_written (path text : string) (fs : list (string * string)) :
  lookup_file path ((path, text) :: fs) = Some text.
Proof. simpl. now rewrite String.eqb_refl. Qed.

(** C7. Saving a queue of steps and opening the saved file appends the
    steps of the file, field for field and in order, to the queue that is
    there; on an empty queue the steps of the file are the queue.  (An
    empty queue is not saved: with no file at the path, opening it leaves
    the queue as it is.) *)
Theorem save_then_open_appends_the_saved_steps :
  forall (sts : list Step) (s : state) (path : string),
    queue s = map record_of sts ->
    path <> EmptyString ->
    sts <> [] \/ lookup_file path (files s) = None ->
    exists s1,
      save_experiment path s = Done tt s1 /\
      forall t : state,
        files t = files s1 ->
        exists t',
          open_experiment path t = Done tt t' /\
          queue t' = queue t ++ map record_of sts /\
          (queue t = [] -> queue t' = map record_of sts).
Proof.
  intros sts s path Hq Hpath Hsaved.
  assert (Hne : String.eqb path EmptyString = false)
    by now apply String.eqb_neq.
  assert (Hopen : forall t text,
             lookup_file path (files t) = Some text ->
             json_load text t = Done (map record_of sts) t ->
             exists t', open_experiment path t = Done tt t' /\
                        queue t' = queue t ++ map record_of sts).
  { intros t text Hfile Hload.
    unfold open_experiment. rewrite Hne. unfold try_except.
    unfold bind at 1. unfold read_file, bind, gets. rewrite Hfile.
    unfold ret at 1. rewrite Hload. unfold modify at 1.
    match goal with
    | |- context [update_queue_listbox ?x] =>
        pose proof (update_queue_listbox_frame x) as Hf;
        destruct (update_queue_listbox x) as [[] t1|e t1|];
        simpl in Hf; [| |contradiction]
    end.
    - eexists. split; [reflexivity|]. simpl. tauto.
    - eexists. split; [reflexivity|]. simpl. tauto. }
  unfold save_experiment, bind, gets. rewrite Hq.
  destruct sts as [|st sts'].
  - destruct Hsaved as [H|Hnone]; [congruence|].
    eexists. split; [reflexivity|]. intros t Ht. simpl in Ht.
    exists (push_event (EvDialog DlgOpenFailed) t).
    unfold open_experiment. rewrite Hne.
    unfold try_except, bind, read_file, bind, gets. rewrite Ht, Hnone.
    simpl. rewrite List.app_nil_r. auto.
  - cbn [map]. rewrite Hne. unfold try_except, bind, write_file, modify.
    eexists. split; [reflexivity|]. intros t Ht. simpl in Ht.
    destruct (Hopen t (json_dump (map record_of (st :: sts')))) as (t' & E & Hq').
    + rewrite Ht. apply lookup_file_written.
    + apply json_load_dump.
    + exists t'. split; [exact E|]. split; [exact Hq'|].
      intros Hempty. now rewrite Hq', Hempty.
Qed.

Lemma save_then_open_appends_the_saved_steps_witness :
  queue demo_state = map record_of demo_queue /\
  exists s1,
    save_experiment "run.json" demo_state = Done tt s1 /\
    forall t : state,
      files t = files s1 ->
      exists t',
        open_experiment "run.json" t = Done tt t' /\
        queue t' = queue t ++ map record_of demo_queue /\
        (queue t = [] -> queue t' = map record_of demo_queue).
Proof.
  split; [reflexivity|].
  apply (save_then_open_appends_the_saved_steps demo_queue demo_state "run.json");
    [reflexivity | discriminate | left; discriminate].
Defined.

(* ================================================================== *)
(** * Further properties of the code *)

(** ** The elapsed time *)

Lemma update_time_label_idle (s : state) :
  experiment_running s = false -> update_time_label s = Done tt s.
Proof. intros H. unfold update_time_label, bind, gets. now rewrite H. Qed.

(** X1. While a run is on, [update_time_label] shows the whole seconds
    since the start split into hours, minutes below 60 and seconds below
    60, and arms itself again one second later; outside a run it does
    nothing and arms no timer. *)
Theorem elapsed_time_is_split_and_rearmed :
  (forall (s : state) (t0 : Z),
     experiment_running s = true -> start_time s = Some t0 ->
     exists h m sec,
       update_time_label s
         = Done tt (set_timers
                      (insert_timer (mkTimer (next_id s) (now s + 1000) CbTimeLabel)
                         (timers s))
                      (set_next_id (S (next_id s))
                         (push_event (EvElapsed h m sec) s))) /\
       h * 3600 + m * 60 + sec = Z.quot (now s - t0) 1000 /\
       0 <= m < 60 /\ 0 <= sec < 60 /\
       (t0 <= now s -> 0 <= h)) /\
  (forall s : state,
     experiment_running s = false -> update_time_label s = Done tt s).
Proof.
  split; [|exact update_time_label_idle].
  intros s t0 Hr Ht.
  set (e := Z.quot (now s - t0) 1000).
  exists (e / 3600), ((e mod 3600) / 60), ((e mod 3600) mod 60).
  split.
  - unfold update_time_label, bind, gets. rewrite Hr, Ht.
    unfold emit, modify, after, ret. simpl. reflexivity.
  - pose proof (Z.div_mod e 3600 ltac:(lia)) as H1.
    pose proof (Z.div_mod (e mod 3600) 60 ltac:(lia)) as H2.
    pose proof (Z.mod_pos_bound e 3600 ltac:(lia)) as H3.
    pose proof (Z.mod_pos_bound (e mod 3600) 60 ltac:(lia)) as H4.
    split; [lia|]. split; [|split; [lia|]].
    + split; [apply Z.div_pos; lia | apply Z.div_lt_upper_bound; lia].
    + intros Hle. apply Z.div_pos; [|lia].
      unfold e. apply Z.quot_pos; lia.
Qed.

Lemma elapsed_time_is_split_and_rearmed_witness :
  exists h m sec,
    update_time_label late_state
      = Done tt (set_timers
                   (insert_timer
                      (mkTimer (next_id late_state) (now late_state + 1000) CbTimeLabel)
                      (timers late_state))
                   (set_next_id (S (next_id late_state))
                      (push_event (EvElapsed h m sec) late_state))) /\
    h * 3600 + m * 60 + sec = Z.quot (now late_state - 0) 1000 /\
    0 <= m < 60 /\ 0 <= sec < 60 /\
    (0 <= now late_state -> 0 <= h).
Proof.
  destruct elapsed_time_is_split_and_rearmed as [H _].
  apply (H late_state 0); reflexivity.
Defined.

(** ** Runs that cannot end *)

(** X2. Without a device ([arduino] is [None]) a confirmed stop cancels
    the recorded timers and then fails in [send_to_arduino]: the exception
    leaves [stop_experiment] before the phase is reset, so the run stays
    on, the run button keeps its role and nothing is written. *)
Theorem stop_without_a_device_leaves_the_run_on :
  forall s : state,
    experiment_running s = true -> arduino s = None ->
    exists s',
      stop_experiment true s = Raised AttributeError s' /\
      experiment_running s' = true /\
      run_button s' = run_button s /\
      buttons_placed s' = buttons_placed s /\
      timers s' = cancelled (scheduled_tasks s) (timers s) /\
      trace s' = trace s ++ [EvDialog (DlgStop true)].
Proof.
  intros s Hr Ha.
  unfold stop_experiment.
  unfold bind at 1. unfold gets at 1. rewrite Hr. cbn [negb].
  unfold bind at 1. unfold messagebox at 1, emit at 1, modify at 1.
  unfold bind at 1. unfold gets at 1.
  unfold bind at 1. rewrite for_each_after_cancel.
  unfold bind at 1. unfold send_to_arduino at 1.
  unfold bind at 1. unfold gets at 1. cbn [arduino set_timers push_event set_trace].
  rewrite Ha. unfold raise.
  eexists. split; [reflexivity|]. simpl. rewrite Hr. auto.
Qed.

Lemma stop_without_a_device_leaves_the_run_on_witness :
  exists s',
    stop_experiment true deviceless_run = Raised AttributeError s' /\
    experiment_running s' = true /\
    run_button s' = run_button deviceless_run /\
    buttons_placed s' = buttons_placed deviceless_run /\
    timers s' = cancelled (scheduled_tasks deviceless_run) (timers deviceless_run) /\
    trace s' = trace deviceless_run ++ [EvDialog (DlgStop true)].
Proof.
  apply (stop_without_a_device_leaves_the_run_on deviceless_run); reflexivity.
Defined.

Lemma sum_durations_fails (q : list record) :
  forall (acc : Z) (s : state),
    forallb has_duration q = false ->
    exists e, sum_durations acc q s = Raised e s.
Proof.
  induction q as [|r q IH]; intros acc s H; [discriminate|].
  cbn [forallb] in H. cbn [sum_durations].
  unfold bind, item. unfold has_duration in H.
  destruct (nth_error r 1) as [[n|t]|] eqn:E.
  - simpl in H. unfold ret. apply IH. exact H.
  - unfold ret, raise. now exists TypeError.
  - unfold raise. now exists IndexError.
Qed.

(** X3. When a record of the queue has no integer duration (a file can
    hold one), [run_experiment] fails while it adds the durations up: the
    handler sends the sentinel and gives the run button and the button row
    back, no timer is armed and no step is played, but
    [experiment_running] stays set. *)
Theorem run_on_a_record_without_duration_stays_on :
  forall (update : M unit) (s : state) (p : port),
    queue s <> [] -> forallb has_duration (queue s) = false ->
    arduino s = Some p ->
    exists s',
      run_experiment update s = Done tt s' /\
      experiment_running s' = true /\
      run_button s' = RunRole /\
      buttons_placed s' = true /\
      start_time s' = Some (now s) /\
      timers s' = timers s /\
      scheduled_tasks s' = [] /\
      listbox s' = listbox s /\
      trace s' = trace s ++ [outcome_of_write (p_open p) (p_fail p) sentinel].
Proof.
  intros update s p Hq Hd Ha.
  unfold run_experiment.
  unfold bind at 1. unfold modify at 1.
  unfold bind at 1. unfold gets at 1. cbn [queue set_scheduled_tasks].
  destruct (queue s) as [|r q] eqn:Eq; [congruence|].
  unfold try_except.
  unfold bind at 1. unfold modify at 1.
  unfold bind at 1. unfold gets at 1.
  unfold bind at 1. unfold modify at 1.
  unfold bind at 1.
  match goal with
  | |- context [sum_durations 0 (r :: q) ?x] =>
      destruct (sum_durations_fails (r :: q) 0 x Hd) as (e & E); rewrite E
  end.
  unfold bind at 1.
  match goal with
  | |- context [send_to_arduino _ ?x] =>
      destruct (send_to_arduino_spec ("OFF" +++ nl) x p Ha) as (p' & E2 & _)
  end.
  rewrite E2.
  unfold bind, modify, show_buttons_after_experiment, modify.
  eexists. split; [reflexivity|]. simpl. repeat split; reflexivity.
Qed.

Lemma run_on_a_record_without_duration_stays_on_witness :
  exists s',
    run_experiment (root_update 1) quoted_duration_state = Done tt s' /\
    experiment_running s' = true /\
    run_button s' = RunRole /\
    buttons_placed s' = true /\
    start_time s' = Some (now quoted_duration_state) /\
    timers s' = timers quoted_duration_state /\
    scheduled_tasks s' = [] /\
    listbox s' = listbox quoted_duration_state /\
    trace s' = trace quoted_duration_state
                 ++ [outcome_of_write (p_open healthy_port) (p_fail healthy_port)
                       sentinel].
Proof.
  apply (run_on_a_record_without_duration_stays_on (root_update 1)
           quoted_duration_state healthy_port);
    [discriminate | reflexivity | reflexivity].
Defined.

(** ** The listbox shows the queue *)

Lemma set_nth_last {A : Type} (l : list A) (a : A) :
  set_nth (l ++ [a]) (List.length l) a = l ++ [a].
Proof. induction l as [|x l IH]; simpl; [reflexivity|]. now rewrite IH. Qed.

Lemma displayable_items (r : record) (s : state) :
  displayable r = true ->
  exists a b, item r 0 s = Done a s /\ item r 1 s = Done b s.
Proof.
  destruct r as [|a [|b r]]; try discriminate. intros _. now exists a, b.
Qed.

Lemma set_listbox_trace_same (s : state) :
  set_trace (trace s) (set_listbox (listbox s) s) = s.
Proof. now destruct s. Qed.

(** The loop of [update_queue_listbox] over records that can be shown. *)
Lemma fill_listbox_spec (q : list record) :
  forall (idx : nat) (s : state),
    forallb displayable q = true -> List.length (listbox s) = idx ->
    fill_listbox idx q s
      = Done tt (set_trace
                   (trace s ++ map (fun i => EvMark i White) (seq idx (List.length q)))
                   (set_listbox (listbox s ++ repeat White (List.length q)) s)).
Proof.
  induction q as [|r q IH]; intros idx s Hq Hl.
  - simpl. rewrite !List.app_nil_r. now rewrite set_listbox_trace_same.
  - cbn [forallb] in Hq. apply andb_true_iff in Hq as [Hr Hq].
    cbn [fill_listbox].
    destruct (displayable_items r s Hr) as (a & b & E0 & E1).
    unfold bind at 1. rewrite E0.
    unfold bind at 1. rewrite E1.
    unfold bind at 1. unfold modify at 1.
    unfold bind at 1. rewrite itemconfig_spec
      by (cbn [listbox set_listbox]; rewrite length_app; simpl; lia).
    cbn [listbox set_listbox push_event set_trace].
    subst idx. rewrite set_nth_last.
    rewrite (IH (S (List.length (listbox s))));
      [|exact Hq|simpl; rewrite length_app; simpl; lia].
    f_equal. destruct s; simpl. now rewrite <- !List.app_assoc.
Qed.

(** The loop stops at the first record that cannot be shown. *)
Lemma fill_listbox_stops (good : list record) :
  forall (idx : nat) (s : state) (bad : record) (rest : list record),
    forallb displayable good = true -> displayable bad = false ->
    List.length (listbox s) = idx ->
    fill_listbox idx (good ++ bad :: rest) s
      = Raised IndexError
          (set_trace
             (trace s ++ map (fun i => EvMark i White) (seq idx (List.length good)))
             (set_listbox (listbox s ++ repeat White (List.length good)) s)).
Proof.
  induction good as [|r q IH]; intros idx s bad rest Hq Hb Hl.
  - simpl. rewrite !List.app_nil_r, set_listbox_trace_same.
    unfold bind, item.
    destruct bad as [|a [|b r]]; try discriminate; reflexivity.
  - cbn [forallb] in Hq. apply andb_true_iff in Hq as [Hr Hq].
    cbn [fill_listbox app].
    destruct (displayable_items r s Hr) as (a & b & E0 & E1).
    unfold bind at 1. rewrite E0.
    unfold bind at 1. rewrite E1.
    unfold bind at 1. unfold modify at 1.
    unfold bind at 1. rewrite itemconfig_spec
      by (cbn [listbox set_listbox]; rewrite length_app; simpl; lia).
    cbn [listbox set_listbox push_event set_trace].
    subst idx. rewrite set_nth_last.
    rewrite (IH (S (List.length (listbox s))) _ bad rest);
      [|exact Hq|exact Hb|simpl; rewrite length_app; simpl; lia].
    f_equal. destruct s; simpl. now rewrite <- !List.app_assoc.
Qed.

Lemma update_queue_listbox_spec (s : state) :
  forallb displayable (queue s) = true ->
  update_queue_listbox s
    = Done tt (set_trace (trace s ++ refresh_marks (queue s))
                 (set_listbox (rows_of (queue s)) s)).
Proof.
  intros Hq. unfold update_queue_listbox.
  unfold bind at 1. unfold modify at 1.
  unfold bind at 1. unfold gets at 1. cbn [queue set_listbox].
  destruct (queue s) as [|r q] eqn:Eq.
  - unfold bind, modify. rewrite itemconfig_spec by (simpl; lia).
    now destruct s.
  - rewrite fill_listbox_spec; [|exact Hq|reflexivity].
    now destruct s.
Qed.

(** X4. A refresh of the listbox, whatever its rows were, leaves one
    white row per step of the queue, or the grey placeholder when the
    queue is empty, provided every record has the two fields the text of
    a row reads. *)
Theorem refresh_shows_one_white_row_per_step :
  forall s : state,
    forallb displayable (queue s) = true ->
    exists s',
      update_queue_listbox s = Done tt s' /\
      listbox s' = rows_of (queue s) /\
      List.length (listbox s') = Nat.max 1 (List.length (queue s)) /\
      queue s' = queue s /\
      trace s' = trace s ++ refresh_marks (queue s).
Proof.
  intros s Hq. eexists. split; [now apply update_queue_listbox_spec|].
  simpl. repeat split.
  destruct (queue s) as [|r q]; simpl; [reflexivity|].
  now rewrite repeat_length.
Qed.

Lemma refresh_shows_one_white_row_per_step_witness :
  exists s',
    update_queue_listbox demo_state = Done tt s' /\
    listbox s' = rows_of (queue demo_state) /\
    List.length (listbox s') = Nat.max 1 (List.length (queue demo_state)) /\
    queue s' = queue demo_state /\
    trace s' = trace demo_state ++ refresh_marks (queue demo_state).
Proof.
  apply (refresh_shows_one_white_row_per_step demo_state). reflexivity.
Defined.

Lemma refresh_is_cut_off_at_a_short_record_general
    (s : state) (good rest : list record) (bad : record) :
  queue s = good ++ bad :: rest ->
  forallb displayable good = true -> displayable bad = false ->
  exists s',
    update_queue_listbox s = Raised IndexError s' /\
    listbox s' = repeat White (List.length good) /\
    queue s' = queue s /\
    trace s' = trace s ++ map (fun i => EvMark i White) (seq 0 (List.length good)).
Proof.
  intros Eq Hg Hb. unfold update_queue_listbox.
  unfold bind at 1. unfold modify at 1.
  unfold bind at 1. unfold gets at 1. cbn [queue set_listbox].
  rewrite Eq.
  assert (E : match good ++ bad :: rest with
              | [] =>
                  modify (fun s => set_listbox (listbox s ++ [White]) s) ;;
                  itemconfig 0 LightGray
              | _ :: _ => fill_listbox 0 (good ++ bad :: rest)
              end = fill_listbox 0 (good ++ bad :: rest)).
  { destruct good; reflexivity. }
  rewrite E. rewrite (fill_listbox_stops good 0 _ bad rest Hg Hb); [|reflexivity].
  eexists. split; [reflexivity|]. simpl. auto.
Qed.

(** X5. A record with fewer than two fields makes the refresh fail with
    [IndexError]: the listbox is left with the rows of the records before
    it and nothing for the rest of the queue. *)
Theorem refresh_is_cut_off_at_a_short_record :
  forall (s : state) (good rest : list record) (bad : record),
    queue s = good ++ bad :: rest ->
    forallb displayable good = true -> displayable bad = false ->
    exists s',
      update_queue_listbox s = Raised IndexError s' /\
      listbox s' = repeat White (List.length good) /\
      queue s' = queue s.
Proof.
  intros s good rest bad Eq Hg Hb.
  destruct (refresh_is_cut_off_at_a_short_record_general s good rest bad Eq Hg Hb)
    as (s' & E & Hrows & Hq & _).
  exists s'. auto.
Qed.

Lemma refresh_is_cut_off_at_a_short_record_witness :
  exists s',
    update_queue_listbox
      (set_queue (queue demo_state ++ [[VStr "No light"]]) demo_state)
      = Raised IndexError s' /\
    listbox s' = repeat White (List.length (queue demo_state)) /\
    queue s' = queue demo_state ++ [[VStr "No light"]].
Proof.
  apply (refresh_is_cut_off_at_a_short_record
           (set_queue (queue demo_state ++ [[VStr "No light"]]) demo_state)
           (queue demo_state) [] [VStr "No light"]); reflexivity.
Defined.

Lemma displayable_record_of (st : Step) : displayable (record_of st) = true.
Proof. now destruct st. Qed.

Lemma forallb_remove_nth {A : Type} (f : A -> bool) (l : list A) :
  forall i, forallb f l = true -> forallb f (remove_nth l i) = true.
Proof.
  induction l as [|x l IH]; intros [|i] H; simpl in *; auto;
    apply andb_true_iff in H as [Hx Hl]; auto.
  rewrite Hx. simpl. now apply IH.
Qed.

Lemma remove_nth_last {A : Type} (l : list A) (x : A) :
  remove_nth (l ++ [x]) (List.length l) = l.
Proof. induction l as [|y l IH]; simpl; [reflexivity|]. now rewrite IH. Qed.

Lemma shown_refresh (s : state) :
  forallb displayable (queue s) = true ->
  exists s',
    update_queue_listbox s = Done tt s' /\ queue s' = queue s /\ shown s' /\
    files s' = files s.
Proof.
  intros H. eexists. split; [now apply update_queue_listbox_spec|].
  split; [reflexivity|]. split; [|reflexivity]. now constructor.
Qed.

Lemma add_step_to_queue_spec (st : Step) (s : state) :
  add_step st s
    = update_queue_listbox (set_queue (queue s ++ [record_of st]) s).
Proof. now destruct st. Qed.

(** X6. Every edit of the queue from the window keeps the listbox in
    step with it: when the window comes up, and after a step is added,
    a step is deleted, the queue is cleared or a saved file is opened,
    the listbox has one white row per step (or the placeholder), and the
    queue is the edited one. *)
Theorem queue_edits_keep_the_listbox_in_step :
  (forall device, shown (initial device)) /\
  (forall s : state,
     shown s ->
     (forall st,
        exists s', add_step st s = Done tt s' /\
                   queue s' = queue s ++ [record_of st] /\ shown s') /\
     (forall idx,
        (idx < List.length (queue s))%nat ->
        exists s', delete_step (Some idx) true s = Done tt s' /\
                   queue s' = remove_nth (queue s) idx /\ shown s') /\
     (exists s', reset_experiment s = Done tt s' /\ queue s' = [] /\ shown s') /\
     (forall path loaded,
        path <> EmptyString ->
        lookup_file path (files s) = Some (json_dump loaded) ->
        forallb displayable loaded = true ->
        exists s', open_experiment path s = Done tt s' /\
                   queue s' = queue s ++ loaded /\ shown s')).
Proof.
  split; [intros device; now constructor|].
  intros s [Hq Hrows]. split; [|split; [|split]].
  - intros st. rewrite add_step_to_queue_spec.
    destruct (shown_refresh (set_queue (queue s ++ [record_of st]) s))
      as (s' & E & Hq' & Hs & _).
    { simpl. rewrite forallb_app, Hq. simpl. now rewrite displayable_record_of. }
    exists s'. auto.
  - intros idx Hidx. unfold delete_step.
    unfold bind at 1. unfold gets at 1.
    destruct (queue s) as [|r q] eqn:Eq; [simpl in Hidx; lia|].
    assert (E : match idx, r :: q with
                | O, [] => messagebox DlgCannotDelete
                | _, _ =>
                    messagebox (DlgConfirmDeletion true) ;;
                    (if true then
                       q0 <- gets queue ;;
                       (if (idx <? List.length q0)%nat then ret tt
                        else raise IndexError) ;;
                       modify (set_queue (remove_nth q0 idx)) ;;
                       update_queue_listbox
                     else ret tt)
                end
                = (messagebox (DlgConfirmDeletion true) ;;
                   q0 <- gets queue ;;
                   (if (idx <? List.length q0)%nat then ret tt
                    else raise IndexError) ;;
                   modify (set_queue (remove_nth q0 idx)) ;;
                   update_queue_listbox)).
    { destruct idx; reflexivity. }
    rewrite E.
    unfold bind at 1. unfold messagebox at 1, emit at 1, modify at 1.
    unfold bind at 1. unfold gets at 1. cbn [queue push_event set_trace].
    rewrite Eq. apply Nat.ltb_lt in Hidx. unfold bind at 1. rewrite Hidx.
    unfold ret at 1. unfold bind at 1. unfold modify at 1.
    match goal with
    | |- context [update_queue_listbox ?x] =>
        destruct (shown_refresh x) as (s' & E' & Hq' & Hs & _)
    end.
    { cbn [queue set_queue push_event set_trace]. now apply forallb_remove_nth. }
    exists s'. cbn [queue set_queue push_event set_trace] in Hq'. auto.
  - unfold reset_experiment. unfold bind at 1. unfold modify at 1.
    destruct (shown_refresh (set_queue [] s)) as (s' & E & Hq' & Hs & _);
      [reflexivity|].
    exists s'. auto.
  - intros path loaded Hp Hf Hl. unfold open_experiment.
    apply String.eqb_neq in Hp. rewrite Hp.
    unfold try_except.
    unfold bind at 1. unfold read_file at 1.
    unfold bind at 1. unfold gets at 1. rewrite Hf. unfold ret at 1.
    unfold bind at 1. rewrite json_load_dump.
    unfold bind at 1. unfold modify at 1.
    destruct (shown_refresh (set_queue (queue s ++ loaded) s))
      as (s' & E & Hq' & [Hs1 Hs2] & _).
    { simpl. now rewrite forallb_app, Hq, Hl. }
    unfold bind at 1. rewrite E.
    unfold messagebox, emit, modify.
    eexists. split; [reflexivity|]. split; [exact Hq'|].
    constructor; simpl; assumption.
Qed.

Lemma queue_edits_keep_the_listbox_in_step_witness :
  shown demo_state /\
  exists s', add_step (Dark 3) demo_state = Done tt s' /\
             queue s' = queue demo_state ++ [record_of (Dark 3)] /\ shown s'.
Proof.
  assert (H : shown demo_state) by (now constructor).
  split; [exact H|].
  destruct queue_edits_keep_the_listbox_in_step as [_ K].
  destruct (K demo_state H) as [Ka _]. apply Ka.
Defined.

(** X7. Adding a step and deleting the last row gives the queue and the
    listbox back. *)
Theorem deleting_the_added_step_restores_the_queue :
  forall (s : state) (st : Step),
    shown s ->
    exists s',
      (add_step st ;; delete_step (Some (List.length (queue s))) true) s
        = Done tt s' /\
      queue s' = queue s /\ listbox s' = listbox s.
Proof.
  intros s st [Hq Hrows].
  unfold bind. rewrite add_step_to_queue_spec.
  rewrite update_queue_listbox_spec
    by (simpl; rewrite forallb_app, Hq; simpl; now rewrite displayable_record_of).
  unfold delete_step.
  unfold bind at 1. unfold gets at 1. cbn [queue set_queue set_listbox set_trace].
  assert (E : forall (q : list record) (k : M unit),
            q <> [] ->
            match List.length (queue s), q with
            | O, [] => messagebox DlgCannotDelete
            | _, _ => k
            end = k).
  { intros [|r q] k H; [congruence|]. now destruct (List.length (queue s)). }
  rewrite E by (destruct (queue s); discriminate).
  unfold bind at 1. unfold messagebox at 1, emit at 1, modify at 1.
  unfold bind at 1. unfold gets at 1. cbn [queue push_event set_queue set_listbox set_trace].
  assert (Hlt : (List.length (queue s) <? List.length (queue s ++ [record_of st]))%nat = true).
  { apply Nat.ltb_lt. rewrite length_app. simpl. lia. }
  unfold bind at 1. rewrite Hlt. unfold ret at 1.
  unfold bind at 1. unfold modify at 1.
  rewrite remove_nth_last.
  rewrite update_queue_listbox_spec by (simpl; exact Hq).
  eexists. split; [reflexivity|]. simpl. auto.
Qed.

Lemma deleting_the_added_step_restores_the_queue_witness :
  exists s',
    (add_step (Dark 3) ;; delete_step (Some (List.length (queue demo_state))) true)
      demo_state = Done tt s' /\
    queue s' = queue demo_state /\ listbox s' = listbox demo_state.
Proof.
  apply (deleting_the_added_step_restores_the_queue demo_state (Dark 3)).
  now constructor.
Defined.

(** ** Files that cannot be opened, queues that cannot be saved *)

(** X8. [open_experiment] reports a failure in two ways.  When the
    dialog is cancelled nothing happens, and when the file does not
    exist the error dialog is all that happens.  But when the file holds
    a record with fewer than two fields, the records are already in the
    queue when the refresh of the listbox fails: the error dialog is
    shown, the queue keeps every record of the file and the listbox is
    cut off before the short record. *)
Theorem failed_open_can_still_extend_the_queue :
  forall (s : state) (path : string),
    open_experiment EmptyString s = Done tt s /\
    (path <> EmptyString -> lookup_file path (files s) = None ->
     open_experiment path s = Done tt (push_event (EvDialog DlgOpenFailed) s)) /\
    (forall loaded good rest bad,
       path <> EmptyString ->
       lookup_file path (files s) = Some (json_dump loaded) ->
       queue s ++ loaded = good ++ bad :: rest ->
       forallb displayable good = true -> displayable bad = false ->
       exists s',
         open_experiment path s = Done tt s' /\
         queue s' = queue s ++ loaded /\
         listbox s' = repeat White (List.length good) /\
         io (trace s') = io (trace s) ++ [EvDialog DlgOpenFailed]).
Proof.
  intros s path. split; [reflexivity|]. split.
  - intros Hp Hf. unfold open_experiment.
    apply String.eqb_neq in Hp. rewrite Hp.
    unfold try_except, bind, read_file, bind, gets. rewrite Hf.
    reflexivity.
  - intros loaded good rest bad Hp Hf Eq Hg Hb. unfold open_experiment.
    apply String.eqb_neq in Hp. rewrite Hp.
    unfold try_except.
    unfold bind at 1. unfold read_file at 1.
    unfold bind at 1. unfold gets at 1. rewrite Hf. unfold ret at 1.
    unfold bind at 1. rewrite json_load_dump.
    unfold bind at 1. unfold modify at 1.
    destruct (refresh_is_cut_off_at_a_short_record_general
                (set_queue (queue s ++ loaded) s) good rest bad Eq Hg Hb)
      as (s' & E & Hrows & Hq' & Htr).
    unfold bind at 1. rewrite E.
    unfold messagebox, emit, modify.
    eexists. split; [reflexivity|]. simpl. split; [exact Hq'|].
    split; [exact Hrows|].
    rewrite io_app, Htr, io_app, io_whites. simpl. now rewrite List.app_nil_r.
Qed.

Lemma failed_open_can_still_extend_the_queue_witness :
  exists s',
    open_experiment "bad.json" short_record_state = Done tt s' /\
    queue s' = queue short_record_state ++ [[VStr "No light"]] /\
    listbox s' = repeat White 2 /\
    io (trace s') = io (trace short_record_state) ++ [EvDialog DlgOpenFailed].
Proof.
  destruct (failed_open_can_still_extend_the_queue short_record_state "bad.json")
    as (_ & _ & H).
  apply (H [[VStr "No light"]] (queue short_record_state) [] [VStr "No light"]);
    [discriminate | reflexivity | reflexivity | reflexivity | reflexivity].
Defined.



(** ** The sampler and its window *)

Lemma guarded_ensures (c : M unit) (s : state) (P : state -> Prop) :
  ensures (c s) P ->
  (forall e s', P s' -> P (push_event (EvTraceback e) s')) ->
  ensures (guarded c s) P.
Proof.
  unfold guarded, try_except. intros H K.
  destruct (c s) as [[] s'|e s'|]; simpl in *; auto.
Qed.

Lemma update_graph_series (s : state) :
  series_ok s -> ensures (update_graph s) series_ok.
Proof.
  intros [Ht Hv]. unfold update_graph, bind, gets.
  destruct (experiment_running s); [destruct (arduino s) as [p|]|].
  - destruct (p_open p); [|now constructor].
    unfold ret at 1.
    assert (H : exists s1,
               (match p_in p with
                | [] => ret tt
                | raw :: rest =>
                    try_except (read_sample p raw rest) (fun _ => ret tt)
                end) s = Done tt s1 /\ series_ok s1 /\
               sensor_data_window s1 = sensor_data_window s).
    { destruct (p_in p) as [|raw rest].
      - exists s. repeat split; auto.
      - unfold try_except, read_sample, bind, gets, modify, emit.
        destruct (isdigit (drop_first_dot (strip raw))).
        + eexists. split; [reflexivity|]. split; [|reflexivity].
          constructor;
            cbn [times time_counter sensor_values set_times set_time_counter
                 set_sensor_values set_trace set_arduino push_event].
          * rewrite seq_S, Ht. reflexivity.
          * rewrite length_app, Hv. simpl. lia.
        + eexists. split; [reflexivity|]. split; [|reflexivity].
          now constructor. }
    destruct H as (s1 & E & [Ht1 Hv1] & Hw). rewrite E.
    destruct (sensor_data_window s1); simpl; now constructor.
  - unfold destroy_sensor_window, bind, gets, modify.
    destruct (sensor_data_window s); simpl; now constructor.
  - unfold destroy_sensor_window, bind, gets, modify.
    destruct (sensor_data_window s); simpl; now constructor.
Qed.

Lemma series_ok_traceback (e : exn) (s : state) :
  series_ok s -> series_ok (push_event (EvTraceback e) s).
Proof. intros [H1 H2]. now constructor. Qed.

Lemma poll_series (n : nat) :
  forall s : state, series_ok s -> ensures (poll n s) series_ok.
Proof.
  induction n as [|n IH]; intros s H; [exact H|].
  cbn [poll]. unfold bind.
  pose proof (guarded_ensures update_graph s series_ok
                (update_graph_series s H)
                (fun e s' => series_ok_traceback e s')) as G.
  unfold guarded, try_except in *.
  destruct (update_graph s) as [[] s'|e s'|]; simpl in G; [|auto|contradiction].
  - now apply IH.
  - unfold emit, modify. now apply IH.
Qed.

(** X10. The two series of the chart always fit: from the moment the
    sensor window is opened, after any number of ticks of the sampler,
    whatever the device sent and whether or not the run, the port or the
    window is still there, [times] is 0, 1, ..., n-1 and [sensor_values]
    has n values. *)
Theorem chart_series_have_one_index_per_sample :
  (forall device, series_ok (initial device)) /\
  (forall (s : state) (n : nat),
     series_ok s \/ sensor_data_window s <> WinOpen ->
     ensures ((open_sensor_data_window ;; poll n) s) series_ok) /\
  (forall s : state,
     series_ok s -> ensures (guarded update_graph s) series_ok).
Proof.
  split; [intros device; now constructor|]. split.
  - intros s n H. unfold bind at 1. unfold open_sensor_data_window.
    unfold bind at 1. unfold gets at 1.
    assert (K : forall s0 : state,
              series_ok s0 ->
              ensures (match update_graph s0 with
                       | Done _ s' => poll n s'
                       | Raised e s' => Raised e s'
                       | OutOfFuel => OutOfFuel
                       end) series_ok).
    { intros s0 H0. pose proof (update_graph_series s0 H0) as G.
      destruct (update_graph s0) as [[] s'|e s'|]; simpl in G; auto.
      now apply poll_series. }
    destruct (sensor_data_window s) eqn:Ew.
    + unfold bind, modify. apply K. now constructor.
    + destruct H as [H|H]; [|congruence]. unfold ret. now apply poll_series.
    + unfold bind, modify. apply K. now constructor.
  - intros s H. apply guarded_ensures; [now apply update_graph_series|].
    intros e s'. apply series_ok_traceback.
Qed.

Lemma chart_series_have_one_index_per_sample_witness :
  ensures ((open_sensor_data_window ;; poll 5) telemetry_state) series_ok.
Proof.
  destruct chart_series_have_one_index_per_sample as (_ & H & _).
  apply (H telemetry_state 5%nat). right. discriminate.
Defined.

(** X11. Once the run is over (or when there is no device), the next
    tick of the sampler destroys the sensor window instead of arming
    itself again: no timer of the sampler is left, and the series are
    kept as they were. *)
Theorem sampler_closes_its_window_when_the_run_is_over :
  forall s : state,
    sensor_data_window s = WinOpen ->
    experiment_running s = false \/ arduino s = None ->
    exists s',
      guarded update_graph s = Done tt s' /\
      sensor_data_window s' = WinGone /\
      (forall t, In t (timers s') <-> In t (timers s) /\ is_graph_timer t = false) /\
      sensor_values s' = sensor_values s /\ times s' = times s /\
      trace s' = trace s.
Proof.
  intros s Hw H.
  assert (E : update_graph s = destroy_sensor_window s).
  { unfold update_graph, bind, gets.
    destruct H as [-> | ->]; [reflexivity|].
    now destruct (experiment_running s). }
  unfold guarded, try_except. rewrite E.
  unfold destroy_sensor_window, bind, gets, modify. rewrite Hw.
  eexists. split; [reflexivity|]. simpl. repeat split; auto.
  - apply filter_In in H0. tauto.
  - apply filter_In in H0. destruct H0 as [_ H0].
    now destruct (is_graph_timer t).
  - intros [H1 H2]. apply filter_In. now rewrite H2.
Qed.

Lemma sampler_closes_its_window_when_the_run_is_over_witness :
  exists s',
    guarded update_graph charting_after_the_run = Done tt s' /\
    sensor_data_window s' = WinGone /\
    (forall t, In t (timers s') <->
               In t (timers charting_after_the_run) /\ is_graph_timer t = false) /\
    sensor_values s' = sensor_values charting_after_the_run /\
    times s' = times charting_after_the_run /\
    trace s' = trace charting_after_the_run.
Proof.
  apply (sampler_closes_its_window_when_the_run_is_over charting_after_the_run);
    [reflexivity | left; reflexivity].
Defined.

(** X12. A port that is no longer open ends the sampling for good: the
    tick of the sampler fails before it reads or arms itself again, so no
    timer of the sampler is left, while the window stays up; and with the
    window up, the button that opens it does nothing. *)
Theorem closed_port_ends_the_sampling_for_good :
  forall (fuel : nat) (s : state) (t : timer) (rest : list timer) (p : port),
    timers s = t :: rest -> t_cb t = CbGraph ->
    experiment_running s = true -> arduino s = Some p -> p_open p = false ->
    sensor_data_window s = WinOpen ->
    exists s',
      mainloop_step fuel s = Done tt s' /\
      timers s' = rest /\
      sensor_data_window s' = WinOpen /\
      arduino s' = Some p /\
      sensor_values s' = sensor_values s /\
      open_sensor_data_window s' = Done tt s'.
Proof.
  intros fuel s t rest p Et Ecb Hr Ha Ho Hw.
  unfold mainloop_step. rewrite Et, Ecb. cbn [dispatch].
  unfold guarded, try_except, update_graph, bind, gets.
  cbn [experiment_running arduino set_now set_timers].
  rewrite Hr, Ha, Ho. unfold raise, emit, modify.
  eexists. split; [reflexivity|].
  unfold open_sensor_data_window, bind, gets. simpl. rewrite Hw. auto.
Qed.

Lemma closed_port_ends_the_sampling_for_good_witness :
  exists s',
    mainloop_step 4 charting_on_a_closed_port = Done tt s' /\
    timers s' = [] /\
    sensor_data_window s' = WinOpen /\
    arduino s' = Some (mkPort false [] demo_lines) /\
    sensor_values s' = sensor_values charting_on_a_closed_port /\
    open_sensor_data_window s' = Done tt s'.
Proof.
  apply (closed_port_ends_the_sampling_for_good 4 charting_on_a_closed_port
           (mkTimer 3 500 CbGraph) [] (mkPort false [] demo_lines));
    reflexivity.
Defined.

(** ** Stopping *)

Lemma firstn_set_nth {A : Type} (l : list A) (a : A) :
  forall i, (i < List.length l)%nat ->
            firstn (S i) (set_nth l i a) = firstn i l ++ [a].
Proof.
  induction l as [|x l IH]; intros [|i] H; simpl in *; try lia; auto.
  f_equal. apply IH. lia.
Qed.

Lemma skipn_set_nth {A : Type} (l : list A) (a : A) :
  forall i k, (i < k)%nat -> skipn k (set_nth l i a) = skipn k l.
Proof.
  induction l as [|x l IH]; intros [|i] [|k] H; simpl; try lia; auto.
  apply IH. lia.
Qed.

(** The loop of [reset_step_colors]: the rows it visits are white, the
    others are as they were. *)
Lemma whiten_rows_exact (n : nat) :
  forall (a : nat) (s : state),
    (a + n <= List.length (listbox s))%nat ->
    for_each (seq a n) (fun idx => itemconfig idx White) s
      = Done tt (set_trace (trace s ++ map (fun i => EvMark i White) (seq a n))
                   (set_listbox
                      (firstn a (listbox s) ++ repeat White n
                         ++ skipn (a + n) (listbox s)) s)).
Proof.
  induction n as [|n IH]; intros a s Hn.
  - simpl. rewrite List.app_nil_r, Nat.add_0_r, firstn_skipn.
    now destruct s.
  - cbn [seq for_each]. unfold bind.
    rewrite itemconfig_spec by lia.
    rewrite IH by (simpl; rewrite length_set_nth; lia).
    cbn [listbox trace push_event set_trace set_listbox].
    rewrite firstn_set_nth by lia.
    rewrite skipn_set_nth by lia.
    f_equal. destruct s; simpl.
    rewrite <- !List.app_assoc. simpl. now rewrite Nat.add_succ_r.
Qed.

Lemma reset_step_colors_exact (s : state) :
  (List.length (queue s) <= List.length (listbox s))%nat ->
  reset_step_colors s
    = Done tt (set_trace
                 (trace s ++ map (fun i => EvMark i White)
                                 (seq 0 (List.length (queue s))))
                 (set_listbox
                    (repeat White (List.length (queue s))
                       ++ skipn (List.length (queue s)) (listbox s)) s)).
Proof.
  intros H. unfold reset_step_colors, bind, gets.
  now rewrite whiten_rows_exact.
Qed.

Lemma In_cancelled_iff (t : timer) (ids : list nat) :
  forall l, In t (cancelled ids l) <-> In t l /\ ~ In (t_id t) ids.
Proof.
  induction ids as [|id ids IH]; intros l; simpl.
  - tauto.
  - rewrite IH, filter_In. split.
    + intros [[H1 H3] H2]. split; [exact H1|].
      intros [->|H4]; [now rewrite Nat.eqb_refl in H3|now apply H2].
    + intros [H1 H2]. split; [split; [exact H1|]|].
      * destruct (Nat.eqb_spec (t_id t) id) as [E|]; [|reflexivity].
        exfalso. apply H2. left. now symmetry.
      * intros H. apply H2. now right.
Qed.

(** X13. A confirmed stop cancels the timers whose identifiers were
    recorded in [scheduled_tasks] and, when the sensor window is up, the
    timers of the sampler, and no other timer: the tick of the elapsed
    time, which is not recorded, stays pending.  The rows of the queue
    are white again, the sensor window is gone, the phase is idle, and
    [scheduled_tasks] keeps the stale identifiers. *)
Theorem stop_cancels_the_recorded_timers_and_no_other :
  forall (s : state) (p : port),
    experiment_running s = true -> arduino s = Some p ->
    (List.length (queue s) <= List.length (listbox s))%nat ->
    exists s',
      stop_experiment true s = Done tt s' /\
      experiment_running s' = false /\
      run_button s' = RunRole /\
      buttons_placed s' = true /\
      sensor_data_window s' = NoWindow /\
      scheduled_tasks s' = scheduled_tasks s /\
      queue s' = queue s /\
      listbox s'
        = repeat White (List.length (queue s))
            ++ skipn (List.length (queue s)) (listbox s) /\
      (forall t,
         In t (timers s') <->
         In t (timers s) /\ ~ In (t_id t) (scheduled_tasks s) /\
         (sensor_data_window s = NoWindow \/ is_graph_timer t = false)).
Proof.
  intros s p Hrun Ha Hrows.
  unfold stop_experiment.
  unfold bind at 1. unfold gets at 1. rewrite Hrun. cbn [negb].
  unfold bind at 1. unfold messagebox at 1, emit at 1, modify at 1.
  unfold bind at 1. unfold gets at 1.
  unfold bind at 1. rewrite for_each_after_cancel.
  cbn [scheduled_tasks timers push_event set_trace].
  set (sc := set_timers _ _).
  destruct (send_to_arduino_spec sentinel sc p Ha) as (p2 & E2 & _).
  unfold bind at 1. fold sentinel. rewrite E2.
  unfold bind at 1.
  rewrite reset_step_colors_exact by exact Hrows.
  unfold bind, modify, gets, show_buttons_after_experiment,
    close_sensor_data_window, destroy_sensor_window, bind, modify, gets, ret.
  subst sc. simpl.
  destruct (sensor_data_window s) eqn:Ew; simpl; rewrite ?Ew; simpl;
    (eexists; split; [reflexivity|]); simpl;
    (do 7 (split; [first [reflexivity | exact Ew]|])); intros t.
  - rewrite In_cancelled_iff. tauto.
  - rewrite filter_In, In_cancelled_iff. split.
    + intros [[H1 H2] H3]. repeat split; auto. right.
      now destruct (is_graph_timer t).
    + intros (H1 & H2 & [H3|H3]); [discriminate|]. now rewrite H3.
  - rewrite filter_In, In_cancelled_iff. split.
    + intros [[H1 H2] H3]. repeat split; auto. right.
      now destruct (is_graph_timer t).
    + intros (H1 & H2 & [H3|H3]); [discriminate|]. now rewrite H3.
Qed.

Lemma stop_cancels_the_recorded_timers_and_no_other_witness :
  exists s',
    stop_experiment true charting_state = Done tt s' /\
    experiment_running s' = false /\
    timers s' = [mkTimer 0 1000 CbTimeLabel] /\
    listbox s' = [White; White].
Proof.
  destruct (stop_cancels_the_recorded_timers_and_no_other charting_state
              (mkPort true [] (tl demo_lines)))
    as (s' & E & Hr & _ & _ & _ & _ & _ & Hl & _);
    [reflexivity | reflexivity | simpl; lia |].
  exists s'. split; [exact E|]. split; [exact Hr|].
  split; [|exact Hl].
  vm_compute in E. injection E as <-. reflexivity.
Defined.

(** ** The add-step window *)

Lemma add_step_shown (st : Step) (s : state) :
  shown s ->
  exists s',
    add_step st s = Done tt s' /\
    queue s' = queue s ++ [record_of st] /\ shown s'.
Proof.
  intros [Hq Hrows]. rewrite add_step_to_queue_spec.
  destruct (shown_refresh (set_queue (queue s ++ [record_of st]) s))
    as (s' & E & Hq' & Hs & _).
  { simpl. rewrite forallb_app, Hq. simpl. now rewrite displayable_record_of. }
  exists s'. auto.
Qed.

Lemma validate_and_add_step_spec (w : add_step_window) (callback : M unit)
    (h_var m_var s_var rate_var on_var off_var : option IntVar)
    (s : state) (total : Z) (rate_zero on_zero off_zero : bool) :
  get_total_duration w h_var m_var s_var s = Done total s ->
  given_and_zero rate_var s = Done rate_zero s ->
  given_and_zero on_var s = Done on_zero s ->
  given_and_zero off_var s = Done off_zero s ->
  validate_and_add_step w callback h_var m_var s_var rate_var on_var off_var s
    = if total =? 0 then Done (Invalid DurationZero) s
      else if rate_zero then Done (Invalid PulseRateZero) s
      else if on_zero then Done (Invalid TimeOnZero) s
      else if off_zero then Done (Invalid TimeOffZero) s
      else (callback ;; ret Added) s.
Proof.
  intros Ht Hr Hon Hoff. unfold validate_and_add_step.
  unfold bind at 1. rewrite Ht.
  destruct (total =? 0); [reflexivity|].
  unfold bind at 1. rewrite Hr.
  destruct rate_zero; [reflexivity|].
  unfold bind at 1. rewrite Hon.
  destruct on_zero; [reflexivity|].
  unfold bind at 1. rewrite Hoff.
  destruct off_zero; reflexivity.
Qed.

Lemma added_after (c : M unit) (s s' : state) :
  c s = Done tt s' -> (c ;; ret Added) s = Done Added s'.
Proof. intros E. unfold bind. now rewrite E. Qed.

(** X14. The forms for continuous light, no light and pulsing light,
    whose entries take digits only, add valid steps and nothing else: a
    duration of zero, or a pulse rate of zero, is answered by a warning
    and leaves the program as it was; otherwise the step with the total
    duration [3600 h + 60 m + s] is appended to the queue and shown. *)
Theorem basic_forms_add_valid_steps_only :
  forall (s : state) (h m sec rate lux : Z),
    shown s -> 0 <= h -> 0 <= m -> 0 <= sec -> 0 <= rate -> 0 <= lux <= 100 ->
    let w := filled_window h m sec rate in
    let total := h * 3600 + m * 60 + sec in
    (total = 0 ->
     press_add_continuous w lux s = Done (Invalid DurationZero) s /\
     press_add_no_light w s = Done (Invalid DurationZero) s /\
     press_add_pulsing w lux s = Done (Invalid DurationZero) s) /\
    (total <> 0 -> rate = 0 ->
     press_add_pulsing w lux s = Done (Invalid PulseRateZero) s) /\
    (total <> 0 ->
     (exists s',
        press_add_continuous w lux s = Done Added s' /\
        queue s' = queue s ++ [record_of (Continuous total lux)] /\
        shown s' /\ valid_step (Continuous total lux)) /\
     (exists s',
        press_add_no_light w s = Done Added s' /\
        queue s' = queue s ++ [record_of (Dark total)] /\
        shown s' /\ valid_step (Dark total)) /\
     (rate <> 0 ->
      exists s',
        press_add_pulsing w lux s = Done Added s' /\
        queue s' = queue s ++ [record_of (Pulsing total rate lux)] /\
        shown s' /\ valid_step (Pulsing total rate lux))).
Proof.
  intros s h m sec rate lux Hs Hh Hm Hsec Hrate Hlux w total.
  assert (Ec : press_add_continuous w lux s
               = if total =? 0 then Done (Invalid DurationZero) s
                 else (add_step (Continuous total lux) ;; ret Added) s).
  { unfold press_add_continuous.
    now rewrite (validate_and_add_step_spec w _ None None None None None None
                   s total false false false). }
  assert (En : press_add_no_light w s
               = if total =? 0 then Done (Invalid DurationZero) s
                 else (add_step (Dark total) ;; ret Added) s).
  { unfold press_add_no_light.
    now rewrite (validate_and_add_step_spec w _ None None None None None None
                   s total false false false). }
  assert (Ep : press_add_pulsing w lux s
               = if total =? 0 then Done (Invalid DurationZero) s
                 else if rate =? 0 then Done (Invalid PulseRateZero) s
                 else (add_step (Pulsing total rate lux) ;; ret Added) s).
  { unfold press_add_pulsing.
    now rewrite (validate_and_add_step_spec w _ None None None
                   (Some (pulse_rate_var w)) None None
                   s total (rate =? 0) false false). }
  rewrite Ec, En, Ep. clear Ec En Ep.
  split; [|split].
  - intros H0. rewrite H0. auto.
  - intros H0 Hr. apply Z.eqb_neq in H0. now rewrite H0, Hr.
  - intros H0. assert (Hpos : 0 < total) by (unfold total in *; lia).
    apply Z.eqb_neq in H0. rewrite H0.
    split; [|split].
    + destruct (add_step_shown (Continuous total lux) s Hs) as (s' & E & Hq & Hs').
      exists s'. split; [now apply added_after|].
      split; [exact Hq|split; [exact Hs'|simpl; lia]].
    + destruct (add_step_shown (Dark total) s Hs) as (s' & E & Hq & Hs').
      exists s'. split; [now apply added_after|].
      split; [exact Hq|split; [exact Hs'|simpl; lia]].
    + intros Hr.
      destruct (add_step_shown (Pulsing total rate lux) s Hs) as (s' & E & Hq & Hs').
      apply Z.eqb_neq in Hr. rewrite Hr.
      exists s'. split; [now apply added_after|].
      split; [exact Hq|split; [exact Hs'|simpl; apply Z.eqb_neq in Hr; lia]].
Qed.

Lemma basic_forms_add_valid_steps_only_witness :
  exists s',
    press_add_pulsing (filled_window 0 1 30 5) 40 demo_state = Done Added s' /\
    queue s' = queue demo_state ++ [record_of (Pulsing 90 5 40)] /\
    shown s' /\ valid_step (Pulsing 90 5 40).
Proof.
  assert (Hs : shown demo_state) by (now constructor).
  destruct (basic_forms_add_valid_steps_only demo_state 0 1 30 5 40 Hs)
    as (_ & _ & H); try lia.
  destruct (H ltac:(discriminate)) as (_ & _ & K). apply K. discriminate.
Defined.

(** X15. The form of the advanced settings checks its values against
    zero only, in the order duration, time on and time off, and its
    entries take any text: every other combination of integers, negative
    ones included, is appended to the queue as an advanced pulsing
    step. *)
Theorem advanced_form_rejects_zero_only :
  forall (s : state) (w : add_step_window) (h m sec on off lux : Z),
    shown s ->
    let total := h * 3600 + m * 60 + sec in
    let press :=
      press_add_advanced w (Some h) (Some m) (Some sec) (Some on) (Some off) lux in
    (total = 0 -> press s = Done (Invalid DurationZero) s) /\
    (total <> 0 -> on = 0 -> press s = Done (Invalid TimeOnZero) s) /\
    (total <> 0 -> on <> 0 -> off = 0 -> press s = Done (Invalid TimeOffZero) s) /\
    (total <> 0 -> on <> 0 -> off <> 0 ->
     exists s',
       press s = Done Added s' /\
       queue s' = queue s ++ [record_of (AdvancedPulsing total on off lux)] /\
       shown s').
Proof.
  intros s w h m sec on off lux Hs total press.
  assert (E : press s
              = if total =? 0 then Done (Invalid DurationZero) s
                else if on =? 0 then Done (Invalid TimeOnZero) s
                else if off =? 0 then Done (Invalid TimeOffZero) s
                else (add_step (AdvancedPulsing total on off lux) ;; ret Added) s).
  { unfold press, press_add_advanced.
    now rewrite (validate_and_add_step_spec w _ (Some (Some h)) (Some (Some m))
                   (Some (Some sec)) None (Some (Some on)) (Some (Some off))
                   s total false (on =? 0) (off =? 0)). }
  rewrite E. clear E.
  split; [|split; [|split]].
  - intros H0. now rewrite H0.
  - intros H0 H1. apply Z.eqb_neq in H0. now rewrite H0, H1.
  - intros H0 H1 H2. apply Z.eqb_neq in H0. apply Z.eqb_neq in H1.
    now rewrite H0, H1, H2.
  - intros H0 H1 H2. apply Z.eqb_neq in H0. apply Z.eqb_neq in H1.
    apply Z.eqb_neq in H2. rewrite H0, H1, H2.
    destruct (add_step_shown (AdvancedPulsing total on off lux) s Hs)
      as (s' & E & Hq & Hs').
    exists s'. split; [now apply added_after|]. auto.
Qed.

Lemma advanced_form_rejects_zero_only_witness :
  exists s',
    press_add_advanced (filled_window 0 0 0 0)
      (Some 0) (Some 0) (Some (-5)) (Some (-1)) (Some 7) 50 demo_state
      = Done Added s' /\
    queue s' = queue demo_state ++ [record_of (AdvancedPulsing (-5) (-1) 7 50)] /\
    shown s'.
Proof.
  assert (Hs : shown demo_state) by (now constructor).
  destruct (advanced_form_rejects_zero_only demo_state (filled_window 0 0 0 0)
              0 0 (-5) (-1) 7 50 Hs) as (_ & _ & _ & H).
  apply H; discriminate.
Defined.

(** ** A step of the playback, in detail *)

Lemma calm_port_none (s s' : state) :
  calm s s' -> arduino s = None -> arduino s' = None.
Proof.
  intros Hc Ha. pose proof (calm_port _ _ Hc) as H. rewrite Ha in H.
  now destruct (arduino s').
Qed.

(** [process_step(idx)] up to [root.update()]: the row is yellow and the
    ticks that were due have fired. *)
Lemma process_step_enters (fuel : nat) (i : nat) (step : record) (s : state) :
  nth_error (queue s) i = Some step ->
  (i < List.length (listbox s))%nat ->
  chain (timers s) = [] -> (List.length (timers s) < fuel)%nat ->
  exists s1,
    process_step (root_update fuel) i s = step_tail step i s1 /\
    calm (marked_yellow i s) s1 /\ now s1 = now s /\
    (sorted_by_due (timers s) = true -> sorted_by_due (timers s1) = true) /\
    (List.length (ticks (timers s1)) <= List.length (ticks (timers s)))%nat.
Proof.
  intros Hst Hrow Hc Hfuel.
  assert (Hi : (i < List.length (queue s))%nat) by (apply nth_error_Some; congruence).
  unfold process_step.
  unfold bind at 1. unfold gets at 1.
  assert (E0 : (List.length (queue s) <=? i)%nat = false) by now apply Nat.leb_gt.
  rewrite E0.
  unfold bind at 1. unfold item at 1. rewrite Hst. unfold ret at 1.
  unfold bind at 1. unfold highlight_step. rewrite itemconfig_spec by assumption.
  fold (marked_yellow i s).
  destruct (root_update_ticks (List.length (timers (marked_yellow i s))) fuel
              (marked_yellow i s))
    as (s1 & E1 & Hcalm & Hnow & Hsort & Hticks).
  { apply due_count_le. } { exact Hfuel. } { exact Hc. }
  exists s1. unfold bind at 1. rewrite E1.
  split; [reflexivity|]. split; [exact Hcalm|]. split; [exact Hnow|].
  split; [exact Hsort|exact Hticks].
Qed.

(** The rest of the step on a device: the command goes out and the two
    timers are set for the end of the step. *)
Lemma step_tail_plays (st : Step) (i : nat) (s : state) (p : port) :
  arduino s = Some p -> chain (timers s) = [] ->
  exists s' p' a b,
    step_tail (record_of st) i s = Done tt s' /\
    queue s' = queue s /\ listbox s' = listbox s /\
    start_time s' = start_time s /\ now s' = now s /\
    experiment_running s' = experiment_running s /\
    arduino s' = Some p' /\
    chain (timers s')
      = [mkTimer a (now s + span st) (CbHighlight i Green);
         mkTimer b (now s + span st) (CbProcessStep (S i))] /\
    trace s' = trace s ++ [outcome_of_write (p_open p) (p_fail p) (frame_of st)].
Proof.
  intros Ha Hc. unfold step_tail.
  unfold bind at 1. rewrite step_command_record_of.
  destruct (send_to_arduino_spec (frame_of st) s p Ha) as (p2 & E2 & _).
  unfold bind at 1. rewrite E2.
  unfold bind at 1. rewrite item_record_duration.
  unfold bind at 1. unfold after_seconds at 1, after at 1.
  unfold bind at 1. unfold modify at 1.
  unfold bind at 1. rewrite item_record_duration.
  unfold bind at 1. unfold after_seconds at 1, after at 1.
  unfold modify.
  eexists. exists p2. eexists. eexists.
  split; [reflexivity|].
  cbn [queue listbox experiment_running run_button buttons_placed arduino
       timers scheduled_tasks trace next_id now start_time
       set_queue set_listbox set_experiment_running set_arduino set_timers
       set_scheduled_tasks set_trace set_next_id set_now push_event].
  repeat split.
  apply chain_insert_pair; try reflexivity. exact Hc.
Qed.

(** The turn that marks step [i] completed, in detail. *)
Lemma step_mark_detail (pb : playback) (i : nat) (fuel : nat) (s : state)
    (t : timer) (rest : list timer) :
  at_phase pb (Marked i) s -> timers s = t :: rest -> is_chain t = true ->
  mainloop_step fuel s
    = Done tt (push_event (EvMark i Green)
                 (set_listbox (set_nth (listbox s) i Green)
                    (set_now (Z.max (now s) (t_due t)) (set_timers rest s)))).
Proof.
  intros [Hidx Hq Hrows (p & Ha & Ho & Hf) Hrun Hbut Hpl Hsort Htr Htk Hch Hm Hio]
         Et Ht.
  rewrite Et in *. rewrite chain_cons_chain in Hch by assumption.
  destruct Hch as (a & b & due & Hch). injection Hch as -> Hrest.
  unfold mainloop_step. rewrite Et. cbn [t_cb dispatch].
  unfold guarded, try_except, highlight_step.
  rewrite itemconfig_spec by (simpl; lia).
  reflexivity.
Qed.

(** A turn whose timer is a tick moves the clock to the due time of the
    tick and leaves the playback alone. *)
Lemma mainloop_step_tick_detail (fuel : nat) (s : state) (t : timer)
    (rest : list timer) :
  timers s = t :: rest -> is_chain t = false ->
  exists s',
    mainloop_step fuel s = Done tt s' /\ calm s s' /\
    now s' = Z.max (now s) (t_due t).
Proof.
  intros Et Ht. unfold mainloop_step. rewrite Et.
  destruct (tick_callback (root_update fuel) (t_cb t)
              (set_now (Z.max (now s) (t_due t)) (set_timers rest s)) Ht)
    as (s2 & E2 & Hcalm & Hnow & Heff).
  exists s2. split; [exact E2|]. split; [|exact Hnow].
  eapply calm_trans; [|exact Hcalm].
  constructor; try reflexivity. simpl. rewrite Et.
  symmetry. now apply chain_cons_tick.
Qed.

(** [process_step(idx)] past the last step, in detail. *)
Lemma process_step_ends_detail (update : M unit) (i : nat) (s : state) (p : port) :
  (List.length (queue s) <= i)%nat ->
  List.length (listbox s) = List.length (queue s) ->
  arduino s = Some p ->
  exists s',
    process_step update i s = Done tt s' /\
    listbox s' = repeat White (List.length (queue s)) /\
    now s' = now s /\ start_time s' = start_time s /\ timers s' = timers s.
Proof.
  intros Hi Hrows Ha.
  unfold process_step.
  unfold bind at 1. unfold gets at 1.
  apply Nat.leb_le in Hi. rewrite Hi.
  destruct (send_to_arduino_spec sentinel s p Ha) as (p2 & E2 & Ho2 & Hf2 & _).
  unfold bind at 1. fold sentinel. rewrite E2.
  unfold bind at 1. unfold messagebox at 1, emit at 1, modify at 1.
  unfold bind at 1.
  rewrite reset_step_colors_exact by (simpl; lia).
  unfold bind, modify, show_buttons_after_experiment, modify.
  eexists. split; [reflexivity|].
  simpl. repeat split.
  rewrite <- Hrows, skipn_all. apply List.app_nil_r.
Qed.

(** ** The rows at each phase *)

Lemma repeat_snoc {A : Type} (a : A) (n : nat) :
  repeat a n ++ [a] = repeat a (S n).
Proof. induction n as [|n IH]; simpl; [reflexivity|]. now rewrite IH. Qed.

Lemma colours_start (n : nat) :
  (0 < n)%nat -> set_nth (repeat White n) 0 Yellow = colours n (Marked 0).
Proof. destruct n; [lia|]. intros _. simpl. now rewrite Nat.sub_0_r. Qed.

Lemma set_nth_after_repeat {A : Type} (a x b : A) (l : list A) :
  forall i, set_nth (repeat a i ++ x :: l) i b = repeat a i ++ b :: l.
Proof. induction i as [|i IH]; simpl; [reflexivity|]. now rewrite IH. Qed.

Lemma colours_mark (n i : nat) :
  set_nth (colours n (Marked i)) i Green = colours n (Advancing i).
Proof.
  cbn [colours]. rewrite set_nth_after_repeat.
  change (Green :: repeat White (n - S i)) with ([Green] ++ repeat White (n - S i)).
  now rewrite List.app_assoc, repeat_snoc.
Qed.

Lemma colours_next (n i : nat) :
  (S i < n)%nat ->
  set_nth (colours n (Advancing i)) (S i) Yellow = colours n (Marked (S i)).
Proof.
  intros H. cbn [colours].
  replace (n - S i)%nat with (S (n - S (S i))) by lia.
  change (repeat White (S (n - S (S i))))
    with (White :: repeat White (n - S (S i))).
  apply set_nth_after_repeat.
Qed.

(** ** The schedule *)

Lemma span_nonneg (st : Step) : 0 <= span st.
Proof. unfold span. lia. Qed.

Lemma elapsed_after_S (sts : list Step) (i : nat) (st : Step) :
  nth_error sts i = Some st ->
  elapsed_after sts (S i) = elapsed_after sts i + span st.
Proof.
  intros H. unfold elapsed_after. rewrite (firstn_S_nth _ _ _ H), map_app.
  change (map span [st]) with [span st].
  generalize (map span (firstn i sts)). intros l.
  induction l as [|x l IH]; simpl; [lia|]. rewrite IH. lia.
Qed.

Lemma elapsed_after_all (sts : list Step) (k : nat) :
  (List.length sts <= k)%nat ->
  elapsed_after sts k = elapsed_after sts (List.length sts).
Proof.
  intros H. unfold elapsed_after. now rewrite firstn_all2, firstn_all.
Qed.


Lemma pb_steps_playback_of (sts : list Step) (s : state) :
  pb_steps (playback_of sts s) = sts.
Proof. unfold playback_of. now destruct (arduino s). Qed.

Lemma In_chain_tail (u t : timer) (rest : list timer) :
  In u (chain rest) -> In u (chain (t :: rest)).
Proof.
  unfold chain. simpl. destruct (is_chain t); simpl; auto.
Qed.

Lemma head_before_chain (t c : timer) (rest : list timer) :
  sorted_by_due (t :: rest) = true -> In c (chain rest) -> t_due t <= t_due c.
Proof.
  intros Hs Hc. apply sorted_cons in Hs as [Hu _].
  rewrite Forall_forall in Hu. apply Hu.
  unfold chain in Hc. now apply filter_In in Hc.
Qed.

(** The turn that advances past step [i], in detail. *)
Lemma step_advance_detail (pb : playback) (i : nat) (fuel : nat) (s : state)
    (t : timer) (rest : list timer) :
  at_phase pb (Advancing i) s -> timers s = t :: rest -> is_chain t = true ->
  (pb_ticks pb < fuel)%nat ->
  exists s',
    mainloop_step fuel s = Done tt s' /\
    start_time s' = start_time s /\
    now s' = Z.max (now s) (t_due t) /\
    match nth_error (pb_steps pb) (S i) with
    | Some st =>
        listbox s' = set_nth (listbox s) (S i) Yellow /\
        exists a b,
          chain (timers s')
            = [mkTimer a (now s' + span st) (CbHighlight (S i) Green);
               mkTimer b (now s' + span st) (CbProcessStep (S (S i)))]
    | None => listbox s' = repeat White (List.length (pb_steps pb))
    end.
Proof.
  intros [Hidx Hq Hrows (p & Ha & Ho & Hf) Hrun Hbut Hpl Hsort Htr Htk Hch Hm Hio]
         Et Ht Hfuel.
  rewrite Et in *. rewrite chain_cons_chain in Hch by assumption.
  rewrite ticks_cons_chain in Htk by assumption.
  destruct Hch as (b & due & Hch). injection Hch as -> Hrest.
  unfold mainloop_step. rewrite Et. cbn [t_cb t_due dispatch].
  set (s1 := set_now (Z.max (now s) due) (set_timers rest s)).
  destruct (nth_error (pb_steps pb) (S i)) as [st|] eqn:Est.
  - destruct (process_step_enters fuel (S i) (record_of st) s1)
      as (s2 & E & Hcalm & Hnow & _ & _).
    { cbn [queue s1 set_now set_timers]. rewrite Hq. now apply map_nth_error. }
    { cbn [listbox s1 set_now set_timers]. rewrite Hrows.
      apply nth_error_Some. congruence. }
    { exact Hrest. }
    { simpl. rewrite <- (all_ticks_length rest Hrest). lia. }
    destruct (calm_port_some _ s2 p Hcalm Ha) as (p2 & Ha2 & _).
    destruct (step_tail_plays st (S i) s2 p2 Ha2)
      as (s' & p' & a & c & E' & _ & Hl' & Hs' & Hn' & _ & _ & Hc' & _).
    { rewrite (calm_chain _ _ Hcalm). exact Hrest. }
    exists s'. unfold guarded, try_except. rewrite E, E'.
    split; [reflexivity|].
    split; [rewrite Hs', (calm_start _ _ Hcalm); reflexivity|].
    split; [rewrite Hn', Hnow; reflexivity|].
    split; [rewrite Hl', (calm_listbox _ _ Hcalm); reflexivity|].
    exists a, c. rewrite Hn'. exact Hc'.
  - destruct (process_step_ends_detail (root_update fuel) (S i) s1 p)
      as (s' & E & Hl & Hn & Hs & _).
    { simpl. rewrite Hq, length_map. now apply nth_error_None. }
    { simpl. rewrite Hq, length_map. exact Hrows. }
    { exact Ha. }
    exists s'. unfold guarded, try_except. rewrite E.
    split; [reflexivity|]. split; [exact Hs|]. split; [exact Hn|].
    rewrite Hl. simpl. now rewrite Hq, length_map.
Qed.

Lemma Done_inj (s1 s2 : state) : Done tt s1 = Done tt s2 -> s1 = s2.
Proof. now intros [= ->]. Qed.

(** Every turn of the main loop keeps the run on schedule. *)
Lemma mainloop_step_on_schedule (pb : playback) (t0 : Z) (ph : phase)
    (fuel : nat) (s : state) :
  at_phase pb ph s -> on_schedule (pb_steps pb) t0 ph s ->
  (pb_ticks pb < fuel)%nat ->
  exists s' ph',
    mainloop_step fuel s = Done tt s' /\ at_phase pb ph' s' /\
    on_schedule (pb_steps pb) t0 ph' s' /\
    ((rank pb ph' < rank pb ph)%nat \/
     (ph' = ph /\ (ph = Over \/ (wait (timers s') < wait (timers s))%nat))) /\
    (is_over ph = false -> is_over ph' = true ->
     now s' = deadline (pb_steps pb) t0 Over).
Proof.
  intros Hat Hos Hfuel.
  destruct (mainloop_step_at_phase pb ph fuel s Hat Hfuel)
    as (s' & ph' & E & Hat' & Hprog).
  destruct (timers s) as [|t rest] eqn:Et.
  - assert (s' = s) by
      (unfold mainloop_step in E; rewrite Et in E; now injection E).
    subst s'.
    assert (ph' = ph).
    { destruct Hprog as [Hlt|[-> _]]; [|reflexivity].
      pose proof (ap_chain _ _ _ Hat) as Hc. rewrite Et in Hc.
      destruct ph as [i|i|]; simpl in Hc.
      - destruct Hc as (a & b & d & Hc). discriminate.
      - destruct Hc as (b & d & Hc). discriminate.
      - simpl in Hlt. lia. }
    subst ph'. exists s, ph.
    split; [exact E|]. split; [exact Hat|]. split; [exact Hos|].
    split; [exact Hprog|]. intros H1 H2. congruence.
  - destruct Hos as [Hrows Hstart Hdue Hnow]. rewrite Et in Hdue.
    destruct (is_chain t) eqn:Ht.
    + pose proof (ap_index _ _ _ Hat) as Hidx.
      assert (Hdt : t_due t = deadline (pb_steps pb) t0 ph).
      { apply Hdue. rewrite chain_cons_chain by assumption. now left. }
      destruct ph as [i|i|].
      * destruct (step_mark pb i fuel s t rest Hat Et Ht) as (s2 & E2 & Hat2).
        pose proof (step_mark_detail pb i fuel s t rest Hat Et Ht) as E3.
        rewrite E2 in E3. apply Done_inj in E3.
        exists s2, (Advancing i). split; [exact E2|]. split; [exact Hat2|].
        split; [|split; [left; simpl; lia|intros _ H; discriminate H]].
        subst s2. constructor; simpl.
        -- rewrite Hrows. apply colours_mark.
        -- exact Hstart.
        -- intros u Hu. apply (Hdue u). now apply In_chain_tail.
        -- simpl in Hnow, Hdt. lia.
      * destruct (step_advance pb i fuel s t rest Hat Et Ht Hfuel)
          as (s2 & ph2 & E2 & Hat2 & Hph2).
        destruct (step_advance_detail pb i fuel s t rest Hat Et Ht Hfuel)
          as (s3 & E3 & Hs3 & Hn3 & Hcase).
        rewrite E2 in E3. apply Done_inj in E3. subst s3.
        simpl in Hnow, Hdt.
        assert (Hn2 : now s2 = t0 + elapsed_after (pb_steps pb) (S i)) by lia.
        exists s2, ph2. split; [exact E2|]. split; [exact Hat2|].
        destruct Hph2 as [-> | ->].
        -- pose proof (ap_index _ _ _ Hat2) as Hidx2. simpl in Hidx2.
           destruct (nth_error (pb_steps pb) (S i)) as [st|] eqn:Est;
             [|apply nth_error_None in Est; lia].
           destruct Hcase as (Hl & a & b & Hc).
           split; [|split; [left; simpl; lia|intros _ H; discriminate H]].
           constructor; simpl.
           ++ rewrite Hl, Hrows. now apply colours_next.
           ++ congruence.
           ++ intros u Hu. rewrite Hc in Hu.
              rewrite (elapsed_after_S _ _ _ Est).
              destruct Hu as [<-|[<-|[]]]; simpl; lia.
           ++ rewrite (elapsed_after_S _ _ _ Est).
              pose proof (span_nonneg st). lia.
        -- pose proof (ap_chain _ _ _ Hat2) as Hc2. simpl in Hc2.
           destruct (nth_error (pb_steps pb) (S i)) as [st|] eqn:Est.
           { destruct Hcase as (_ & a & b & Hc). rewrite Hc2 in Hc. discriminate. }
           apply nth_error_None in Est.
           assert (Hall : elapsed_after (pb_steps pb) (S i)
                          = elapsed_after (pb_steps pb) (List.length (pb_steps pb)))
             by now apply elapsed_after_all.
           split; [|split; [left; simpl; lia|intros _ _; simpl; lia]].
           constructor; simpl.
           ++ exact Hcase.
           ++ congruence.
           ++ intros u Hu. rewrite Hc2 in Hu. contradiction.
           ++ lia.
      * pose proof (ap_chain _ _ _ Hat) as Hc. rewrite Et in Hc.
        rewrite chain_cons_chain in Hc by assumption. discriminate.
    + destruct (step_tick pb ph fuel s t rest Hat Et Ht)
        as (s2 & E2 & Hat2 & Hcalm & Heff).
      destruct (mainloop_step_tick_detail fuel s t rest Et Ht)
        as (s3 & E3 & _ & Hn3).
      rewrite E2 in E3. apply Done_inj in E3. subst s3.
      rewrite E2 in E. apply Done_inj in E. subst s'.
      assert (ph' = ph).
      { destruct Hprog as [Hlt|[-> _]]; [|reflexivity].
        pose proof (ap_chain _ _ _ Hat) as Hc.
        pose proof (ap_chain _ _ _ Hat') as Hc'.
        rewrite (calm_chain _ _ Hcalm) in Hc'.
        pose proof (ap_index _ _ _ Hat') as Hi'.
        destruct ph as [i|i|]; destruct ph' as [j|j|]; simpl in *;
          try lia;
          repeat match goal with
                 | H : exists _, _ |- _ => destruct H
                 end;
          try congruence. }
      subst ph'. exists s2, ph. split; [exact E2|]. split; [exact Hat2|].
      split; [|split; [exact Hprog|intros H1 H2; congruence]].
      constructor.
      * now rewrite (calm_listbox _ _ Hcalm).
      * now rewrite (calm_start _ _ Hcalm).
      * intros u Hu. apply Hdue. rewrite (calm_chain _ _ Hcalm), Et in Hu.
        exact Hu.
      * rewrite Hn3. destruct (is_over ph) eqn:Eov; [lia|].
        assert (Hc : exists c, In c (chain rest) /\
                               t_due c = deadline (pb_steps pb) t0 ph).
        { pose proof (ap_chain _ _ _ Hat) as Hc. rewrite Et in Hc.
          rewrite chain_cons_tick in Hc by assumption.
          destruct ph as [i|i|]; [| |discriminate]; simpl in Hc.
          - destruct Hc as (a & b & d & Hc).
            exists (mkTimer a d (CbHighlight i Green)).
            split; [rewrite Hc; now left|].
            apply Hdue. rewrite chain_cons_tick by assumption.
            rewrite Hc. now left.
          - destruct Hc as (b & d & Hc).
            exists (mkTimer b d (CbProcessStep (S i))).
            split; [rewrite Hc; now left|].
            apply Hdue. rewrite chain_cons_tick by assumption.
            rewrite Hc. now left. }
        destruct Hc as (c & Hin & Hdc).
        assert (Hs : sorted_by_due (t :: rest) = true)
          by (rewrite <- Et; apply (ap_sorted _ _ _ Hat)).
        pose proof (head_before_chain t c rest Hs Hin). lia.
Qed.

(** [process_step(idx)] on a step of the queue, in detail. *)
Lemma process_step_plays_detail (fuel : nat) (sts : list Step) (i : nat)
    (st : Step) (s : state) (p : port) :
  queue s = map record_of sts -> nth_error sts i = Some st ->
  (i < List.length (listbox s))%nat -> arduino s = Some p ->
  chain (timers s) = [] -> (List.length (timers s) < fuel)%nat ->
  exists s' a b,
    process_step (root_update fuel) i s = Done tt s' /\
    listbox s' = set_nth (listbox s) i Yellow /\
    now s' = now s /\ start_time s' = start_time s /\
    chain (timers s')
      = [mkTimer a (now s + span st) (CbHighlight i Green);
         mkTimer b (now s + span st) (CbProcessStep (S i))].
Proof.
  intros Hq Hst Hrow Ha Hc Hfuel.
  destruct (process_step_enters fuel i (record_of st) s)
    as (s2 & E & Hcalm & Hnow & _ & _); auto.
  { rewrite Hq. now apply map_nth_error. }
  destruct (calm_port_some _ s2 p Hcalm Ha) as (p2 & Ha2 & _).
  destruct (step_tail_plays st i s2 p2 Ha2)
    as (s' & p' & a & c & E' & _ & Hl' & Hs' & Hn' & _ & _ & Hc' & _).
  { rewrite (calm_chain _ _ Hcalm). exact Hc. }
  exists s', a, c. rewrite E, E'.
  split; [reflexivity|].
  split; [rewrite Hl', (calm_listbox _ _ Hcalm); reflexivity|].
  split; [rewrite Hn', Hnow; reflexivity|].
  split; [rewrite Hs', (calm_start _ _ Hcalm); reflexivity|].
  rewrite <- Hnow. exact Hc'.
Qed.

(** [run_experiment()] on a queue of steps whose rows are white: the run
    starts on schedule. *)
Lemma run_experiment_starts_on_schedule (fuel : nat) (sts : list Step)
    (s : state) :
  ready sts s -> listbox s = repeat White (List.length sts) ->
  (S (List.length (timers s)) < fuel)%nat ->
  exists s',
    run_experiment (root_update fuel) s = Done tt s' /\
    at_phase (playback_of sts s) (Marked 0) s' /\
    on_schedule sts (now s) (Marked 0) s'.
Proof.
  intros Hr Hwhite Hfuel.
  destruct (run_experiment_starts fuel sts s Hr Hfuel) as (s1 & E1 & Hat1).
  exists s1. split; [exact E1|]. split; [exact Hat1|].
  destruct Hr as [Hne Hq Hrows Hport Hchain Hsorted].
  destruct (arduino s) as [p|] eqn:Ha; [clear Hport|congruence].
  destruct (nth_error sts 0) as [st|] eqn:Est;
    [|destruct sts; [congruence|discriminate]].
  revert E1. unfold run_experiment.
  unfold bind at 1. unfold modify at 1.
  unfold bind at 1. unfold gets at 1.
  cbn [queue set_scheduled_tasks]. rewrite Hq.
  destruct (map record_of sts) as [|r q'] eqn:Em;
    [apply map_eq_nil in Em; congruence|]. cbv iota. rewrite <- Em.
  set (s0 := set_scheduled_tasks [] s).
  set (sa := set_start_time (Some (now s0)) (set_experiment_running true s0)).
  destruct (sum_durations_record_of sts 0 sa) as (total & Esum).
  destruct (update_time_label_running sa (now s0) eq_refl eq_refl)
    as (e & He & Elabel).
  set (sb := set_run_button StopRole
               (set_buttons_placed false
                  (set_timers
                     (insert_timer (mkTimer (next_id sa) (now sa + 1000) CbTimeLabel)
                        (timers sa))
                     (set_next_id (S (next_id sa)) (push_event e sa))))).
  destruct (process_step_plays_detail fuel sts 0 st sb p)
    as (s' & a & c & E & Hl' & Hn' & Hs' & Hc').
  { simpl. congruence. }
  { exact Est. }
  { simpl. destruct sts; [congruence|]. simpl in Hrows. lia. }
  { exact Ha. }
  { simpl. rewrite chain_insert_tick by reflexivity. exact Hchain. }
  { simpl. rewrite length_insert_timer. exact Hfuel. }
  unfold try_except.
  unfold bind at 1. unfold modify at 1.
  unfold bind at 1. unfold gets at 1.
  unfold bind at 1. unfold modify at 1.
  change (set_start_time _ (set_experiment_running true _)) with sa.
  unfold bind at 1. rewrite Esum.
  unfold bind at 1. rewrite Elabel.
  unfold bind at 1. unfold hide_buttons_except_stop, modify at 1.
  unfold bind at 1. unfold modify at 1.
  fold sb. rewrite E. intros E1. apply Done_inj in E1. subst s1.
  subst sb sa s0. simpl in Hl', Hn', Hs', Hc'.
  assert (Hel : elapsed_after sts 1 = span st).
  { rewrite (elapsed_after_S _ _ _ Est). unfold elapsed_after. simpl. lia. }
  constructor; cbv beta iota delta [deadline is_over].
  - rewrite Hl', Hwhite. apply colours_start.
    destruct sts; [congruence|simpl; lia].
  - exact Hs'.
  - intros u Hu. rewrite Hc' in Hu. rewrite Hel.
    destruct Hu as [<-|[<-|[]]]; reflexivity.
  - rewrite Hn', Hel. pose proof (span_nonneg st). lia.
Qed.

(** At every turn the run is on schedule. *)
Lemma mainloop_on_schedule (pb : playback) (t0 : Z) (fuel : nat) (turns : nat) :
  forall (ph : phase) (s : state),
    at_phase pb ph s -> on_schedule (pb_steps pb) t0 ph s ->
    (pb_ticks pb < fuel)%nat ->
    exists s' ph',
      mainloop turns fuel s = Done tt s' /\ at_phase pb ph' s' /\
      on_schedule (pb_steps pb) t0 ph' s'.
Proof.
  induction turns as [|n IH]; intros ph s Hat Hos Hfuel.
  - exists s, ph. split; [reflexivity|]. split; assumption.
  - destruct (mainloop_step_on_schedule pb t0 ph fuel s Hat Hos Hfuel)
      as (s1 & ph1 & E1 & Hat1 & Hos1 & _).
    destruct (IH ph1 s1 Hat1 Hos1 Hfuel) as (s2 & ph2 & E2 & Hat2 & Hos2).
    exists s2, ph2. split; [|split; assumption].
    cbn [mainloop]. unfold bind. now rewrite E1.
Qed.


(** X16. At every turn of a run the rows of the listbox tell where the
    run stands: the rows of the completed steps are green, the row of the
    step in progress is yellow and the rows to come are white; once the
    run is over every row is white again. *)
Theorem rows_show_the_phase_of_the_run :
  forall (sts : list Step) (s : state) (fuel turns : nat),
    ready sts s -> listbox s = repeat White (List.length sts) ->
    (S (List.length (timers s)) < fuel)%nat ->
    exists s' ph,
      (run_experiment (root_update fuel) ;; mainloop turns fuel) s = Done tt s' /\
      at_phase (playback_of sts s) ph s' /\
      listbox s' = colours (List.length sts) ph.
Proof.
  intros sts s fuel turns Hr Hw Hfuel.
  destruct (run_experiment_starts_on_schedule fuel sts s Hr Hw Hfuel)
    as (s1 & E1 & Hat1 & Hos1).
  assert (Hf : (pb_ticks (playback_of sts s) < fuel)%nat).
  { unfold playback_of. destruct (arduino s); exact Hfuel. }
  rewrite <- (pb_steps_playback_of sts s) in Hos1.
  destruct (mainloop_on_schedule _ (now s) fuel turns _ s1 Hat1 Hos1 Hf)
    as (s2 & ph & E2 & Hat2 & Hos2).
  exists s2, ph. split; [unfold bind; now rewrite E1|]. split; [exact Hat2|].
  rewrite (os_rows _ _ _ _ Hos2). now rewrite pb_steps_playback_of.
Qed.

Lemma rows_show_the_phase_of_the_run_witness :
  exists s' ph,
    (run_experiment (root_update 4) ;; mainloop 2 4) demo_state = Done tt s' /\
    at_phase (playback_of demo_queue demo_state) ph s' /\
    listbox s' = colours (List.length demo_queue) ph.
Proof.
  apply (rows_show_the_phase_of_the_run demo_queue demo_state 4 2);
    [exact demo_state_ready | reflexivity | simpl; lia].
Defined.





(** ** Runs without a device, and records the encoder cannot play *)

Lemma writes_of_visible (tr tr' : list event) (l : list event) :
  visible tr' = visible tr ++ l -> writes tr' = writes tr ++ writes l.
Proof.
  intros H. rewrite <- (writes_visible tr'), H, writes_app, writes_visible.
  reflexivity.
Qed.

(** X19. Without a device ([arduino] is [None]) a run of a queue of
    steps fails at its first command, and again in the handler that
    would send the sentinel: [run_experiment] raises [AttributeError]
    with the first row marked in progress, the phase running, the run
    button in its stop role and the button row hidden, while nothing was
    written and no timer of the playback is pending. *)
Theorem run_without_a_device_is_left_running :
  forall (sts : list Step) (s : state) (fuel : nat),
    sts <> [] -> queue s = map record_of sts ->
    (0 < List.length (listbox s))%nat -> arduino s = None ->
    chain (timers s) = [] -> (S (List.length (timers s)) < fuel)%nat ->
    exists s',
      run_experiment (root_update fuel) s = Raised AttributeError s' /\
      experiment_running s' = true /\
      run_button s' = StopRole /\
      buttons_placed s' = false /\
      arduino s' = None /\
      scheduled_tasks s' = [] /\
      chain (timers s') = [] /\
      listbox s' = set_nth (listbox s) 0 Yellow /\
      visible (trace s') = visible (trace s) ++ [EvMark 0 Yellow].
Proof.
  intros sts s fuel Hne Hq Hrows Ha Hchain Hfuel.
  destruct (nth_error sts 0) as [st|] eqn:Est;
    [|destruct sts; [congruence|discriminate]].
  unfold run_experiment.
  unfold bind at 1. unfold modify at 1.
  unfold bind at 1. unfold gets at 1.
  cbn [queue set_scheduled_tasks]. rewrite Hq.
  destruct (map record_of sts) as [|r q'] eqn:Em;
    [apply map_eq_nil in Em; congruence|]. cbv iota. rewrite <- Em.
  set (s0 := set_scheduled_tasks [] s).
  set (sa := set_start_time (Some (now s0)) (set_experiment_running true s0)).
  destruct (sum_durations_record_of sts 0 sa) as (total & Esum).
  destruct (update_time_label_running sa (now s0) eq_refl eq_refl)
    as (e & He & Elabel).
  set (sb := set_run_button StopRole
               (set_buttons_placed false
                  (set_timers
                     (insert_timer (mkTimer (next_id sa) (now sa + 1000) CbTimeLabel)
                        (timers sa))
                     (set_next_id (S (next_id sa)) (push_event e sa))))).
  destruct (process_step_enters fuel 0 (record_of st) sb)
    as (s1 & E & Hcalm & Hnow & _ & _).
  { cbn [queue sb sa s0 set_run_button set_buttons_placed set_timers set_next_id
         push_event set_trace set_start_time set_experiment_running
         set_scheduled_tasks].
    rewrite Hq, <- Em. now apply map_nth_error. }
  { simpl. exact Hrows. }
  { simpl. rewrite chain_insert_tick by reflexivity. exact Hchain. }
  { simpl. rewrite length_insert_timer. lia. }
  assert (Ha1 : arduino s1 = None) by (apply (calm_port_none _ _ Hcalm); exact Ha).
  assert (Etail : step_tail (record_of st) 0 s1 = Raised AttributeError s1).
  { unfold step_tail. unfold bind at 1. rewrite step_command_record_of.
    unfold bind at 1. unfold send_to_arduino at 1.
    unfold bind at 1. unfold gets at 1. now rewrite Ha1. }
  exists s1. split.
  - unfold try_except.
    unfold bind at 1. unfold modify at 1.
    unfold bind at 1. unfold gets at 1.
    unfold bind at 1. unfold modify at 1.
    change (set_start_time _ (set_experiment_running true _)) with sa.
    unfold bind at 1. rewrite Esum.
    unfold bind at 1. rewrite Elabel.
    unfold bind at 1. unfold hide_buttons_except_stop, modify at 1.
    unfold bind at 1. unfold modify at 1.
    fold sb. rewrite E, Etail.
    unfold bind at 1. unfold send_to_arduino at 1.
    unfold bind at 1. unfold gets at 1. now rewrite Ha1.
  - destruct Hcalm as [Cq Cl Cr Cs Ct Cp Cb Cpl Cch Cv].
    subst sb sa s0. simpl in *.
    repeat split; auto.
    + rewrite Cch. rewrite chain_insert_tick by reflexivity. exact Hchain.
    + rewrite Cv, visible_app, (visible_quiet _ _ He). reflexivity.
Qed.

Lemma run_without_a_device_is_left_running_witness :
  exists s',
    run_experiment (root_update 4) deviceless_state = Raised AttributeError s' /\
    experiment_running s' = true /\
    run_button s' = StopRole /\
    buttons_placed s' = false /\
    arduino s' = None /\
    scheduled_tasks s' = [] /\
    chain (timers s') = [] /\
    listbox s' = set_nth (listbox deviceless_state) 0 Yellow /\
    visible (trace s') = visible (trace deviceless_state) ++ [EvMark 0 Yellow].
Proof.
  apply (run_without_a_device_is_left_running demo_queue deviceless_state 4);
    [discriminate | reflexivity | simpl; lia | reflexivity | reflexivity
    | simpl; lia].
Defined.

Lemma step_command_unknown (ty : string) (rest : list value) (s : state) :
  known_type ty = false ->
  step_command (VStr ty :: rest) s = Done None s.
Proof.
  unfold known_type. intros H.
  apply orb_false_iff in H as [H H4].
  apply orb_false_iff in H as [H H3].
  apply orb_false_iff in H as [H1 H2].
  unfold step_command, bind, item. cbn [nth_error]. unfold ret, is_type.
  cbn [value_eqb]. now rewrite H1, H2, H3, H4.
Qed.

Lemma step_command_incomplete (r : record) (s : state) :
  incomplete r = true -> step_command r s = Raised IndexError s.
Proof.
  destruct r as [|[n|ty] [|d params]]; try discriminate.
  cbn [incomplete]. intros H.
  unfold step_command, bind, item. cbn [nth_error]. unfold ret, is_type.
  cbn [value_eqb].
  destruct (String.eqb_spec ty "Continuous light") as [->|_].
  - simpl in H. destruct params; [reflexivity|discriminate].
  - destruct (String.eqb_spec ty "No light") as [->|_]; [discriminate|].
    destruct (String.eqb_spec ty "Pulsing light") as [->|_].
    + simpl in H. destruct params as [|a [|b params]]; try discriminate; reflexivity.
    + destruct (String.eqb_spec ty "Advanced pulsing light") as [->|_];
        [|discriminate].
      simpl in H.
      destruct params as [|a [|b [|c params]]]; try discriminate; reflexivity.
Qed.

(** X20. A step whose type the encoder does not know is played as a
    silent pause: the turn that advances to it marks its row in progress,
    sends nothing to the device (which need not even be there) and sets
    the two timers of the step for the end of its duration. *)
Theorem step_of_unknown_type_is_a_silent_pause :
  forall (fuel i : nat) (s : state) (t : timer) (rest : list timer)
         (ty : string) (d : Z) (params : list value),
    timers s = t :: rest -> t_cb t = CbProcessStep i -> chain rest = [] ->
    nth_error (queue s) i = Some (VStr ty :: VInt d :: params) ->
    known_type ty = false ->
    (i < List.length (listbox s))%nat -> (List.length rest < fuel)%nat ->
    exists s' a b,
      mainloop_step fuel s = Done tt s' /\
      experiment_running s' = experiment_running s /\
      visible (trace s') = visible (trace s) ++ [EvMark i Yellow] /\
      writes (trace s') = writes (trace s) /\
      chain (timers s')
        = [mkTimer a (Z.max (now s) (t_due t) + Z.max 0 (d * 1000))
             (CbHighlight i Green);
           mkTimer b (Z.max (now s) (t_due t) + Z.max 0 (d * 1000))
             (CbProcessStep (S i))].
Proof.
  intros fuel i s t rest ty d params Et Ecb Hrest Hst Hty Hrow Hfuel.
  unfold mainloop_step. rewrite Et, Ecb. cbn [dispatch].
  set (s0 := set_now (Z.max (now s) (t_due t)) (set_timers rest s)).
  destruct (process_step_enters fuel i (VStr ty :: VInt d :: params) s0)
    as (s1 & E & Hcalm & Hnow & _ & _); auto.
  unfold guarded, try_except. rewrite E.
  unfold step_tail. unfold bind at 1. rewrite step_command_unknown by exact Hty.
  unfold bind at 1. unfold ret at 1.
  unfold bind at 1. unfold item at 1. cbn [nth_error]. unfold ret at 1.
  unfold bind at 1. unfold after_seconds at 1, after at 1.
  unfold bind at 1. unfold modify at 1.
  unfold bind at 1. unfold item at 1. cbn [nth_error]. unfold ret at 1.
  unfold bind at 1. unfold after_seconds at 1, after at 1.
  unfold modify.
  eexists. eexists. eexists. split; [reflexivity|].
  destruct Hcalm as [Cq Cl Cr Cs Ct Cp Cb Cpl Cch Cv].
  cbn [experiment_running trace timers now next_id
       set_timers set_next_id set_scheduled_tasks].
  simpl in Cr, Cv, Cch, Hnow.
  split; [exact Cr|].
  assert (Hv : visible (trace s1) = visible (trace s) ++ [EvMark i Yellow]).
  { rewrite Cv, visible_app. reflexivity. }
  split; [exact Hv|].
  split; [rewrite (writes_of_visible _ _ _ Hv); simpl; apply List.app_nil_r|].
  rewrite Hnow. apply chain_insert_pair; try reflexivity.
  rewrite Cch. exact Hrest.
Qed.

Lemma step_of_unknown_type_is_a_silent_pause_witness :
  exists s' a b,
    mainloop_step 4 (odd_state 2) = Done tt s' /\
    experiment_running s' = experiment_running (odd_state 2) /\
    visible (trace s') = visible (trace (odd_state 2)) ++ [EvMark 2 Yellow] /\
    writes (trace s') = writes (trace (odd_state 2)) /\
    chain (timers s')
      = [mkTimer a (Z.max (now (odd_state 2)) 3000 + Z.max 0 (3 * 1000))
           (CbHighlight 2 Green);
         mkTimer b (Z.max (now (odd_state 2)) 3000 + Z.max 0 (3 * 1000))
           (CbProcessStep 3)].
Proof.
  apply (step_of_unknown_type_is_a_silent_pause 4 2 (odd_state 2)
           (mkTimer 7 3000 (CbProcessStep 2)) [] "Strobe" 3 []);
    try reflexivity; simpl; lia.
Defined.

(** X21. A record of a known type that lacks a parameter of its frame
    (the listbox shows such a record, and a file can hold one) stalls the
    run: the turn that advances to it marks its row in progress and then
    fails with [IndexError] before anything is sent or any timer is set.
    The phase stays as it was, no timer of the playback is pending, and
    whatever number of turns follows shows nothing more. *)
Theorem incomplete_record_stalls_the_run :
  forall (fuel i : nat) (s : state) (t : timer) (rest : list timer)
         (r : record),
    timers s = t :: rest -> t_cb t = CbProcessStep i -> chain rest = [] ->
    nth_error (queue s) i = Some r -> incomplete r = true ->
    (i < List.length (listbox s))%nat -> (List.length rest < fuel)%nat ->
    exists s',
      mainloop_step fuel s = Done tt s' /\
      experiment_running s' = experiment_running s /\
      run_button s' = run_button s /\
      visible (trace s') = visible (trace s) ++ [EvMark i Yellow] /\
      chain (timers s') = [] /\
      scheduled_tasks s' = scheduled_tasks s /\
      forall turns,
        exists s'',
          mainloop turns fuel s' = Done tt s'' /\
          experiment_running s'' = experiment_running s /\
          visible (trace s'') = visible (trace s') /\
          chain (timers s'') = [].
Proof.
  intros fuel i s t rest r Et Ecb Hrest Hst Hinc Hrow Hfuel.
  unfold mainloop_step. rewrite Et, Ecb. cbn [dispatch].
  set (s0 := set_now (Z.max (now s) (t_due t)) (set_timers rest s)).
  destruct (process_step_enters fuel i r s0)
    as (s1 & E & Hcalm & Hnow & _ & _); auto.
  unfold guarded, try_except. rewrite E.
  unfold step_tail. unfold bind at 1.
  rewrite step_command_incomplete by exact Hinc.
  unfold emit, modify.
  eexists. split; [reflexivity|].
  destruct Hcalm as [Cq Cl Cr Cs Ct Cp Cb Cpl Cch Cv].
  simpl in Cr, Cv, Cch, Cb, Ct.
  cbn [experiment_running run_button trace timers scheduled_tasks push_event
       set_trace].
  split; [exact Cr|]. split; [exact Cb|].
  assert (Hv : visible (trace s1 ++ [EvTraceback IndexError])
               = visible (trace s) ++ [EvMark i Yellow]).
  { rewrite visible_quiet by reflexivity. rewrite Cv, visible_app. reflexivity. }
  split; [exact Hv|]. split; [now rewrite Cch|]. split; [exact Ct|].
  intros turns.
  destruct (idle_forever fuel turns (push_event (EvTraceback IndexError) s1))
    as (s2 & E2 & Hcalm2).
  { simpl. now rewrite Cch. }
  exists s2. split; [exact E2|].
  destruct Hcalm2 as [Dq Dl Dr Ds Dt Dp Db Dpl Dch Dv].
  simpl in Dr, Dch, Dv.
  split; [congruence|]. split; [exact Dv|]. now rewrite Dch, Cch.
Qed.

Lemma incomplete_record_stalls_the_run_witness :
  exists s',
    mainloop_step 4 (odd_state 3) = Done tt s' /\
    experiment_running s' = experiment_running (odd_state 3) /\
    run_button s' = run_button (odd_state 3) /\
    visible (trace s') = visible (trace (odd_state 3)) ++ [EvMark 3 Yellow] /\
    chain (timers s') = [] /\
    scheduled_tasks s' = scheduled_tasks (odd_state 3) /\
    forall turns,
      exists s'',
        mainloop turns 4 s' = Done tt s'' /\
        experiment_running s'' = experiment_running (odd_state 3) /\
        visible (trace s'') = visible (trace s') /\
        chain (timers s'') = [].
Proof.
  apply (incomplete_record_stalls_the_run 4 3 (odd_state 3)
           (mkTimer 7 3000 (CbProcessStep 3)) []
           [VStr "Pulsing light"; VInt 4; VInt 10]);
    try reflexivity; simpl; lia.
Defined.
